(** * VitalSource PDF downloader: cross-frame capture protocol

    A shallow embedding of [content.js] (the Orchestrator, running in the
    top-level reader document) and [iframe.js] (the Frame Agent, running in
    every frame), and the properties of the capture protocol and of the
    pagination loop that follow from the code.

    JavaScript runs one handler at a time: a click, a [message] event or a
    timer callback runs to completion, then the code that was waiting on a
    promise settled by that handler resumes, and only then is the next event
    taken.  The Orchestrator is therefore a transition system whose steps
    are the events it handles; an [async] function is cut at its [await]s
    into the pieces that run between two events.

    The model covers the session workflow of [content.js]: the [message]
    listener, [pingIframe], [captureCurrentPage], [goToNextPage],
    [startCapture], the buttons of the session dialog, the helpers they
    use, and the name under which [generatePDF] saves the document
    ([getBookTitle], the name field).  The single-page download
    ([downloadCurrentPageDirect]) makes the same two requests and never
    touches the session; it, the layout arithmetic of the PDF pages and the
    injected markup are left out.  A broadcast is recorded as one effect:
    which frames it reaches depends on the document tree only. *)

From Stdlib Require Import ZArith Lia Ascii String.
From stdpp Require Import gmap strings list pretty.

Local Open Scope Z_scope.
Local Open Scope string_scope.
Local Open Scope list_scope.

(** ** JavaScript values used by the scripts *)

Module Js.

(** A JavaScript string is a sequence of UTF-16 code units. *)
Definition unit16 := N.
Definition jsstring := list unit16.

Definition of_string (s : string) : jsstring :=
  map N_of_ascii (list_ascii_of_string s).

Definition inRange (lo hi c : N) : bool := ((lo <=? c) && (c <=? hi))%N.

(** The class [\s] of a regular expression: ECMAScript WhiteSpace and
    LineTerminator code points. *)
Definition isSpace (c : unit16) : bool :=
  inRange 9 13 c || (c =? 32)%N || (c =? 160)%N || (c =? 5760)%N
  || inRange 8192 8202 c || (c =? 8232)%N || (c =? 8233)%N
  || (c =? 8239)%N || (c =? 8287)%N || (c =? 12288)%N || (c =? 65279)%N.

Definition isDigit (c : unit16) : bool := inRange 48 57 c.
Definition isLower (c : unit16) : bool := inRange 97 122 c.
Definition isUpper (c : unit16) : bool := inRange 65 90 c.
Definition isLetter (c : unit16) : bool := isLower c || isUpper c.
Definition hyphen : unit16 := 45%N.
Definition underscore : unit16 := 95%N.

(** [parseInt(s, 10)]: leading white space is skipped, an optional sign is
    read, then the longest run of decimal digits; no digit gives NaN
    ([None]).  The white space skipped is StrWhiteSpaceChar, the class
    [\s].  The value is the Number nearest to the integer read: the
    integer itself below 2^53, and above it the integer rounded to 53
    significant bits, ties to even.  (An integer of more than 308 digits,
    which JavaScript reads as [Infinity], stays finite here.) *)
Definition isStrWhiteSpace (a : ascii) : bool := isSpace (N_of_ascii a).

Definition toNumber (z : Z) : Z :=
  let a := Z.abs z in
  if (a <? 2 ^ 53)%Z then z
  else
    let e := Z.log2 a - 52 in
    let q := Z.shiftr a e in
    let r := a - Z.shiftl q e in
    let half := Z.shiftl 1 (e - 1) in
    let q' := if (r <? half)%Z then q
              else if (half <? r)%Z then q + 1
              else if Z.even q then q else q + 1 in
    Z.sgn z * Z.shiftl q' e.

Fixpoint trimStart (s : string) : string :=
  match s with
  | String a r => if isStrWhiteSpace a then trimStart r else s
  | EmptyString => EmptyString
  end.

Definition digitVal (a : ascii) : option Z :=
  let n := N_of_ascii a in
  if isDigit n then Some (Z.of_N n - 48) else None.

Fixpoint digits (acc : option Z) (s : string) : option Z :=
  match s with
  | String a r =>
      match digitVal a with
      | Some d => digits (Some (10 * default 0 acc + d)) r
      | None => acc
      end
  | EmptyString => acc
  end.

Definition parseInt (s : string) : option Z :=
  match trimStart s with
  | String "-" r => Z.opp <$> (toNumber <$> digits None r)
  | String "+" r => toNumber <$> digits None r
  | t => toNumber <$> digits None t
  end.

(** [n || d] on a Number: NaN and 0 are falsy. *)
Definition orNumber (n : option Z) (d : Z) : Z :=
  match n with
  | Some 0 | None => d
  | Some v => v
  end.

(** [s || d] on a string: the empty string is falsy. *)
Definition orString (s d : string) : string :=
  if decide (s = "") then d else s.

Definition truthy (s : string) : bool := bool_decide (s ≠ "").

Definition startsWith (p s : string) : bool := String.prefix p s.

End Js.

(** ** [content.js]: helpers *)

Module Content.

Import Js.

(** The characters that survive [replace(/[^a-z0-9\s\-_]/gi, '')].  With
    the [i] flag and without the [u] flag a code unit above 127 never
    matches an ASCII letter, so the letters kept are exactly a-z and A-Z. *)
Definition kept (c : unit16) : bool :=
  isLetter c || isDigit c || isSpace c || (c =? hyphen)%N || (c =? underscore)%N.

(** [replace(/\s+/g, '_')]: every maximal run of white space becomes one
    underscore.  [inRun] tells whether the previous unit was white space. *)
Fixpoint collapseSpaces (inRun : bool) (s : jsstring) : jsstring :=
  match s with
  | [] => []
  | c :: r =>
      if isSpace c
      then (if inRun then collapseSpaces true r
            else underscore :: collapseSpaces true r)
      else c :: collapseSpaces false r
  end.

Definition sanitizeFilename (name : jsstring) : jsstring :=
  take 50 (collapseSpaces false (filter (λ c, kept c = true) name)).

End Content.

(** ** Messages exchanged over [postMessage] *)

(** The objects that travel as payloads or are resolved by the promises: a
    record of the properties the scripts read or write, each possibly
    absent.  The Frame Agent fills [o_data], [o_width], [o_height]; the
    answer to a ping is [{hasImage, url}]. *)
Record Obj := MkObj {
  o_data : option string;
  o_width : option Z;
  o_height : option Z;
  o_timestamp : option Z;
  o_pageNumber : option Z;
  o_hasImage : option bool;
  o_url : option string
}.

Definition emptyObj : Obj := MkObj None None None None None None None.

(** [event.data || {}] as both listeners destructure it.  For the string
    fields the empty string stands for an absent property (both are falsy);
    [data = None] is [undefined]. *)
Record Message := MkMessage {
  type : string;
  requestId : string;
  success : bool;
  data : option Obj;
  error : string;
  hasImage : bool;
  url : string
}.

Definition message (ty rid : string) : Message :=
  MkMessage ty rid false None "" false "".

#[global] Instance Obj_eq_dec : EqDecision Obj.
Proof. solve_decision. Defined.
#[global] Instance Message_eq_dec : EqDecision Message.
Proof. solve_decision. Defined.

(** ** [iframe.js]: the Frame Agent *)

Module Frame.

Import Js.

(** An [img] element of the frame: whether it is [img#pbk-page], and the
    properties [captureImage] reads. *)
Record Img := MkImg {
  isPbkPage : bool;
  complete : bool;
  naturalWidth : Z;
  naturalHeight : Z
}.

(** The frame's document: its [img] elements in document order, and
    [window.location.href]. *)
Record Document := MkDocument {
  images : list Img;
  currentUrl : string
}.

Definition isLarge (img : Img) : bool :=
  bool_decide (400 < naturalWidth img) && bool_decide (400 < naturalHeight img).

Definition findPageImage (doc : Document) : option Img :=
  match List.find isPbkPage (images doc) with
  | Some primary => Some primary
  | None => List.find isLarge (images doc)
  end.

Definition hasPageImage (doc : Document) : bool :=
  bool_decide (is_Some (findPageImage doc)).

(** What happens to an image that is awaited: its [load] event (with the
    natural size it then has), its [error] event, or neither within the
    10 s of the internal timer. *)
Inductive LoadEvent := Loads (w h : Z) | Errors | NeverLoads.

(** What the browser does during rasterization: the load event if one is
    awaited, and the result of [canvas.toDataURL('image/jpeg', 0.92)]: the
    encoded payload, or the message of the exception it throws. *)
Record Raster := MkRaster {
  loadEvent : LoadEvent;
  toDataURL : string + string
}.

(** [captureImage]: the object it returns, or the message of the error it
    throws. *)
Definition captureImage (r : Raster) (img : Img) : Obj + string :=
  let loaded :=
    if negb (complete img) || bool_decide (naturalWidth img = 0)
    then match loadEvent r with
         | Loads w h => inl (w, h)
         | Errors => inr "Image failed to load"
         | NeverLoads => inr "Image load timeout"
         end
    else inl (naturalWidth img, naturalHeight img) in
  match loaded with
  | inr e => inr e
  | inl (w, h) =>
      match toDataURL r with
      | inl payload =>
          inl (MkObj (Some payload) (Some w) (Some h) None None None None)
      | inr e => inr e
      end
  end.

Inductive Action :=
| ToParent (m : Message)      (* sendToParent *)
| ToChildren (m : Message).   (* forwardToChildren *)

Definition pageCaptured (rid : string) (res : Obj + string) : Message :=
  match res with
  | inl imageData => MkMessage "VS_PAGE_CAPTURED" rid true (Some imageData) "" false ""
  | inr e => MkMessage "VS_PAGE_CAPTURED" rid false None e false ""
  end.

Definition pong (doc : Document) (rid : string) : Message :=
  MkMessage "VS_PONG" rid false None "" (hasPageImage doc) (currentUrl doc).

(** The [message] listener of the frame: what it sends, in order. *)
Definition onMessage (doc : Document) (r : Raster) (m : Message) : list Action :=
  if negb (truthy (type m)) || negb (startsWith "VS_" (type m))
     || negb (truthy (requestId m))
  then []
  else
    (if decide (type m = "VS_CAPTURE_PAGE")
     then match findPageImage doc with
          | Some pageImg =>
              [ToParent (pageCaptured (requestId m) (captureImage r pageImg))]
          | None => []
          end ++ [ToChildren m]
     else [])
    ++
    (if decide (type m = "VS_PING")
     then [ToParent (pong doc (requestId m)); ToChildren m]
     else []).

Definition announceReady (doc : Document) : Action :=
  ToParent (MkMessage "VS_IFRAME_READY" "" false None "" (hasPageImage doc) (currentUrl doc)).

Definition isToParent (a : Action) : bool :=
  match a with ToParent _ => true | ToChildren _ => false end.

End Frame.

(** ** [content.js]: the Orchestrator *)

Module Orchestrator.

Import Js.

(** *** The host page, as the script reads it *)

(** [document.querySelector('[aria-label="Next"]')]: no such element, an
    element that is [disabled] or [aria-disabled="true"], or a usable one. *)
Inductive NextButton := NextAbsent | NextDisabled | NextEnabled.

(** What the script reads from its surroundings while it handles one event:
    [Date.now()], the value of the page-number input (if the input exists),
    the value of [#vs-page-limit], the next-page control, and whether the
    PDF library throws (with which message) when a document is built. *)
Record Host := MkHost {
  now : Z;
  pageInput : option string;
  pageLimitInput : string;
  nextButton : NextButton;
  pdfError : option string
}.

(** [getCurrentPageInfo().current] (the [total] field is never read). *)
Definition currentPage (h : Host) : Z :=
  orNumber (pageInput h ≫= parseInt) 1.

(** *** Suspended code *)

(** The local variables of one call of [startCapture]. *)
Record Locals := MkLocals {
  pageLimit : Z;
  pageNum : Z;
  captured : Z
}.

(** Where a call of [startCapture] is suspended: the [await] it will resume
    from. *)
Inductive Cont :=
| AfterPing (l : Locals)          (* await pingIframe() *)
| AfterSettle (l : Locals)        (* await sleep(500) *)
| AfterCapture (l : Locals)       (* await captureCurrentPage() *)
| AfterNext (l : Locals)          (* await goToNextPage(), in the try block *)
| AfterRecovery (l : Locals).     (* await goToNextPage(), in the catch block *)

(** A JavaScript value that is resolved or stored: [undefined] or an
    object. *)
Definition Value := option Obj.

(** How a promise is settled: [resolve(v)] or [reject(new Error(message))]. *)
Inductive Outcome :=
| Resolved (v : Value)
| Rejected (message : string).

(** The callback of a [setTimeout]: the timeout of a ping or of a capture
    (a closure over its [requestId] and its promise), or the timer of
    [sleep(ms)], whose promise resumes the code that awaits it. *)
Inductive Callback :=
| PingTimeout (rid : string) (call : nat)
| CaptureTimeout (rid : string) (call : nat)
| Wake (k : Cont).

Record Timer := MkTimer {
  due : Z;
  callback : Callback
}.

(** An entry [{resolve, reject}] of [state.pendingCaptures]: the pair of
    closures built by [pingIframe] or by [captureCurrentPage].  [call]
    names the call that built them: its promise, its timer and, for a
    capture, its [resolved] flag. *)
Inductive Pending :=
| PingRequest (call : nat)
| CaptureRequest (rid : string) (call : nat).

(** What the script does to the outside: [broadcastToIframes(message)] and
    [nextBtn.click()]. *)
Inductive Effect :=
| Broadcast (m : Message)
| ClickNext.

Record ReadyFrame := MkReady {
  rf_hasImage : bool;
  rf_url : string
}.

Definition readyObj (f : ReadyFrame) : Obj :=
  MkObj None None None None None (Some (rf_hasImage f)) (Some (rf_url f)).

(** *** The state *)

(** The [state] object of the script, followed by what the JavaScript
    runtime holds for it: the calls made to the [resolve] and [reject]
    functions of each promise, in order (a promise is settled by the first
    of them), the code awaiting each promise, the [resolved] flags of the
    capture calls, the active timers, the next unused call number, the code
    to resume once the running handler returns; and what the user and the
    frames observe: the status line and the effects, in order. *)
Record State := MkState {
  capturedPages : list Value;
  isRunning : bool;
  readyFrames : list ReadyFrame;
  pendingCaptures : gmap string Pending;
  settleCalls : list (nat * Outcome);
  awaiting : gmap nat Cont;
  resolvedFlag : gset nat;
  timers : gmap nat Timer;
  fresh : nat;
  woken : list (Cont * Outcome);
  status : string * string;
  effects : list Effect
}.

Definition initial : State :=
  MkState [] false [] ∅ [] ∅ ∅ ∅ 0 [] ("", "") [].

Definition set_capturedPages v '(MkState _ b c d e f g h i j k l) := MkState v b c d e f g h i j k l.
Definition set_isRunning v '(MkState a _ c d e f g h i j k l) := MkState a v c d e f g h i j k l.
Definition set_readyFrames v '(MkState a b _ d e f g h i j k l) := MkState a b v d e f g h i j k l.
Definition set_pendingCaptures v '(MkState a b c _ e f g h i j k l) := MkState a b c v e f g h i j k l.
Definition set_settleCalls v '(MkState a b c d _ f g h i j k l) := MkState a b c d v f g h i j k l.
Definition set_awaiting v '(MkState a b c d e _ g h i j k l) := MkState a b c d e v g h i j k l.
Definition set_resolvedFlag v '(MkState a b c d e f _ h i j k l) := MkState a b c d e f v h i j k l.
Definition set_timers v '(MkState a b c d e f g _ i j k l) := MkState a b c d e f g v i j k l.
Definition set_fresh v '(MkState a b c d e f g h _ j k l) := MkState a b c d e f g h v j k l.
Definition set_woken v '(MkState a b c d e f g h i _ k l) := MkState a b c d e f g h i v k l.
Definition set_status v '(MkState a b c d e f g h i j _ l) := MkState a b c d e f g h i j v l.
Definition set_effects v '(MkState a b c d e f g h i j k _) := MkState a b c d e f g h i j k v.

(** *** Promises and timers *)

(** The state of a promise: the first call of its [resolve] or [reject]
    settles it, later calls are ignored by the runtime. *)
Definition promiseState (s : State) (call : nat) : option Outcome :=
  snd <$> List.find (λ c, bool_decide (c.1 = call)) (settleCalls s).

(** A call of the [resolve] or [reject] function of promise [call].  When it
    settles the promise, the code awaiting the promise is queued. *)
Definition settle (call : nat) (o : Outcome) (s : State) : State :=
  let s1 := set_settleCalls (settleCalls s ++ [(call, o)]) s in
  match promiseState s call, awaiting s !! call with
  | None, Some k =>
      set_woken (woken s ++ [(k, o)]) (set_awaiting (delete call (awaiting s)) s1)
  | _, _ => s1
  end.

Definition setTimeout (id : nat) (cb : Callback) (delay : Z) (h : Host) (s : State) : State :=
  set_timers (<[id := MkTimer (now h + delay) cb]> (timers s)) s.

Definition clearTimeout (id : nat) (s : State) : State :=
  set_timers (delete id (timers s)) s.

Definition deletePending (rid : string) (s : State) : State :=
  set_pendingCaptures (delete rid (pendingCaptures s)) s.

Definition updateStatus (msg ty : string) (s : State) : State :=
  set_status (msg, ty) s.

Definition broadcastToIframes (m : Message) (s : State) : State :=
  set_effects (effects s ++ [Broadcast m]) s.

(** *** The correlated requests *)

Definition firstWithImage (s : State) : option ReadyFrame :=
  List.find rf_hasImage (readyFrames s).

Definition probeFailure : string := "No iframe with page image found. Try reloading.".
Definition captureTimeout : string := "Capture timeout".

(** What an [async] call hands to the code that awaits it: a promise that is
    already settled, or the promise of call [call], still pending. *)
Inductive Awaited := Already (o : Outcome) | Later (call : nat).

Definition pingIframe (h : Host) (s : State) : Awaited * State :=
  match firstWithImage s with
  | Some readyWithImage => (Already (Resolved (Some (readyObj readyWithImage))), s)
  | None =>
      let rid := "ping_" +:+ pretty (now h) in
      let call := fresh s in
      let s := set_fresh (S call) s in
      let s := setTimeout call (PingTimeout rid call) 5000 h s in
      let s := set_pendingCaptures (<[rid := PingRequest call]> (pendingCaptures s)) s in
      (Later call, broadcastToIframes (message "VS_PING" rid) s)
  end.

Definition captureCurrentPage (h : Host) (s : State) : nat * State :=
  let rid := "capture_" +:+ pretty (now h) in
  let call := fresh s in
  let s := set_fresh (S call) s in
  let s := setTimeout call (CaptureTimeout rid call) 15000 h s in
  let s := set_pendingCaptures (<[rid := CaptureRequest rid call]> (pendingCaptures s)) s in
  (call, broadcastToIframes (message "VS_CAPTURE_PAGE" rid) s).

(** [data.timestamp = Date.now(); data.pageNumber = getCurrentPageInfo().current]. *)
Definition stamp (h : Host) (d : Obj) : Obj :=
  MkObj (o_data d) (o_width d) (o_height d)
        (Some (now h)) (Some (currentPage h)) (o_hasImage d) (o_url d).

Definition markResolved (call : nat) (s : State) : State :=
  set_resolvedFlag ({[call]} ∪ resolvedFlag s) s.

(** The [resolve] closure of a pending entry.  For a capture, writing the
    stamp into an [undefined] payload throws a TypeError after the entry has
    been retired: the promise is then left unsettled. *)
Definition entryResolve (h : Host) (e : Pending) (v : Value) (s : State) : State :=
  match e with
  | PingRequest call => settle call (Resolved v) (clearTimeout call s)
  | CaptureRequest rid call =>
      if decide (call ∈ resolvedFlag s) then s
      else
        let s := deletePending rid (clearTimeout call (markResolved call s)) in
        match v with
        | Some d => settle call (Resolved (Some (stamp h d))) s
        | None => s
        end
  end.

(** The [reject] closure of a pending entry. *)
Definition entryReject (e : Pending) (msg : string) (s : State) : State :=
  match e with
  | PingRequest call => settle call (Rejected msg) s
  | CaptureRequest rid call =>
      if decide (call ∈ resolvedFlag s) then s
      else settle call (Rejected msg)
             (deletePending rid (clearTimeout call (markResolved call s)))
  end.

(** The three [if] statements of the [message] listener, in order. *)
Definition onPageCaptured (h : Host) (m : Message) (s : State) : State :=
  if bool_decide (type m = "VS_PAGE_CAPTURED") && truthy (requestId m)
  then match pendingCaptures s !! requestId m with
       | Some e =>
           let s := deletePending (requestId m) s in
           if success m then entryResolve h e (data m) s
           else entryReject e (orString (error m) "Capture failed") s
       | None => s
       end
  else s.

Definition onPong (h : Host) (m : Message) (s : State) : State :=
  if bool_decide (type m = "VS_PONG") && truthy (requestId m)
  then match pendingCaptures s !! requestId m with
       | Some e =>
           if hasImage m
           then entryResolve h e (Some (readyObj (MkReady (hasImage m) (url m))))
                  (deletePending (requestId m) s)
           else s
       | None => s
       end
  else s.

Definition onIframeReady (m : Message) (s : State) : State :=
  if bool_decide (type m = "VS_IFRAME_READY")
  then set_readyFrames (readyFrames s ++ [MkReady (hasImage m) (url m)]) s
  else s.

(** The [message] listener of the top-level window.  An exception thrown
    in one of the three statements ends the listener; the statements after
    it test for another type and would have done nothing. *)
Definition onMessage (h : Host) (m : Message) (s : State) : State :=
  if negb (truthy (type m)) || negb (startsWith "VS_" (type m)) then s
  else onIframeReady m (onPong h m (onPageCaptured h m s)).

(** *** The pagination loop *)

(** [sleep(ms)], awaited by the code [k]. *)
Definition sleep (ms : Z) (k : Cont) (h : Host) (s : State) : State :=
  let id := fresh s in
  setTimeout id (Wake k) ms h (set_fresh (S id) s).

(** After the loop: [state.isRunning = false]. *)
Definition finish (s : State) : State := set_isRunning false s.

Definition done (s : State) : State :=
  updateStatus ("Done! " +:+ pretty (length (capturedPages s)) +:+ " pages captured.")
    "success" s.

(** The top of the [while] loop, down to [await sleep(500)]. *)
Definition loopHead (l : Locals) (h : Host) (s : State) : State :=
  if isRunning s && bool_decide (captured l < pageLimit l)
  then sleep 500 (AfterSettle l) h s
  else finish s.

(** [goToNextPage], awaited by the code [k]: the message of the error it
    throws, or the state once it waits on [sleep(1500)]. *)
Definition goToNextPage (k : Cont) (h : Host) (s : State) : string + State :=
  match nextButton h with
  | NextAbsent => inl "No Next button"
  | NextDisabled => inl "Last page"
  | NextEnabled => inr (sleep 1500 k h (set_effects (effects s ++ [ClickNext]) s))
  end.

(** The [catch (e)] block of the loop, for an error with message [msg]. *)
Definition catchBlock (l : Locals) (msg : string) (h : Host) (s : State) : State :=
  if decide (msg = "Last page") then finish (done s)
  else
    let s := updateStatus ("Error on page " +:+ pretty (pageNum l) +:+ ": " +:+ msg)
               "error" s in
    match goToNextPage (AfterRecovery l) h s with
    | inl _ => finish s
    | inr s => s
    end.

Definition nextPage (l : Locals) : Locals :=
  MkLocals (pageLimit l) (pageNum l + 1) (captured l).

(** The code of [startCapture] that runs when the awaited promise of [k] is
    settled with [o], up to the next [await] or to the end of the call. *)
Definition resume (k : Cont) (o : Outcome) (h : Host) (s : State) : State :=
  match k with
  | AfterPing l =>
      match o with
      | Rejected msg =>
          set_isRunning false (updateStatus ("Error: " +:+ msg) "error" s)
      | Resolved _ =>
          loopHead l h
            (updateStatus ("Starting from page " +:+ pretty (pageNum l) +:+ "...") "info" s)
      end
  | AfterSettle l =>
      let '(call, s) := captureCurrentPage h s in
      set_awaiting (<[call := AfterCapture l]> (awaiting s)) s
  | AfterCapture l =>
      match o with
      | Resolved pageData =>
          let s := set_capturedPages (capturedPages s ++ [pageData]) s in
          let l := MkLocals (pageLimit l) (pageNum l) (captured l + 1) in
          let s := updateStatus ("Captured page " +:+ pretty (pageNum l) +:+ ". Total: "
                                   +:+ pretty (length (capturedPages s))) "info" s in
          if bool_decide (pageLimit l <= captured l) then finish (done s)
          else match goToNextPage (AfterNext l) h s with
               | inl msg => catchBlock l msg h s
               | inr s => s
               end
      | Rejected msg => catchBlock l msg h s
      end
  | AfterNext l => loopHead (nextPage l) h s
  | AfterRecovery l => loopHead (nextPage l) h s
  end.

(** [startCapture], up to its first [await].  Awaiting a promise that is
    already settled resumes before any other event is handled. *)
Definition startCapture (h : Host) (s : State) : State :=
  if isRunning s then s
  else
    let s := set_isRunning true s in
    let l := MkLocals (orNumber (parseInt (pageLimitInput h)) 10) (currentPage h) 0 in
    let s := updateStatus "Checking connection..." "info" s in
    match pingIframe h s with
    | (Already o, s) => resume (AfterPing l) o h s
    | (Later call, s) => set_awaiting (<[call := AfterPing l]> (awaiting s)) s
    end.

(** [generatePDF]: the status it leaves.  The document itself is built by
    the PDF library; any exception on the way is reported. *)
Definition generatePDF (h : Host) (s : State) : State :=
  match capturedPages s with
  | [] => updateStatus "No pages captured!" "error" s
  | _ =>
      match pdfError h with
      | Some e => updateStatus ("PDF error: " +:+ e) "error" s
      | None =>
          updateStatus ("<strong>Download started!</strong><br>"
                        +:+ pretty (length (capturedPages s)) +:+ " pages saved.")
            "success" s
      end
  end.

(** *** Events *)

(** A click on [#vs-action], a click on [#vs-clear], [hideModal] (Cancel or
    a click outside the dialog), a [message] event, a timer coming due. *)
Inductive Event :=
| ClickAction
| ClickClear
| HideModal
| Receive (m : Message)
| Fire (id : nat).

(** The timeout closure of [pingIframe]. *)
Definition pingTimedOut (rid : string) (call : nat) (s : State) : State :=
  let s := deletePending rid s in
  match firstWithImage s with
  | Some ready => settle call (Resolved (Some (readyObj ready))) s
  | None => settle call (Rejected probeFailure) s
  end.

(** The timeout closure of [captureCurrentPage]. *)
Definition captureTimedOut (rid : string) (call : nat) (s : State) : State :=
  if decide (call ∈ resolvedFlag s) then s
  else settle call (Rejected captureTimeout) (deletePending rid s).

Definition runCallback (cb : Callback) (s : State) : State :=
  match cb with
  | PingTimeout rid call => pingTimedOut rid call s
  | CaptureTimeout rid call => captureTimedOut rid call s
  | Wake k => set_woken (woken s ++ [(k, Resolved None)]) s
  end.

(** The callback of timer [id].  A timer that was cleared, or that is not
    yet due, does not fire; a timer fires once. *)
Definition fire (id : nat) (h : Host) (s : State) : State :=
  match timers s !! id with
  | Some t =>
      if bool_decide (due t <= now h)
      then runCallback (callback t) (clearTimeout id s)
      else s
  | None => s
  end.

Definition handle (h : Host) (e : Event) (s : State) : State :=
  match e with
  | ClickAction =>
      if isRunning s then set_isRunning false s
      else match capturedPages s with
           | [] => startCapture h s
           | _ :: _ => generatePDF h s
           end
  | ClickClear =>
      updateStatus "Cleared all pages." "info" (set_capturedPages [] s)
  | HideModal => set_isRunning false s
  | Receive m => onMessage h m s
  | Fire id => fire id h s
  end.

(** Once the handler has returned, the code woken by it runs. *)
Definition drain (h : Host) (s : State) : State :=
  foldl (λ s w, resume w.1 w.2 h s) (set_woken [] s) (woken s).

Definition step (h : Host) (e : Event) (s : State) : State :=
  drain h (handle h e s).

Fixpoint run (trace : list (Host * Event)) (s : State) : State :=
  match trace with
  | [] => s
  | (h, e) :: rest => run rest (step h e s)
  end.

End Orchestrator.

(** ** [content.js]: the name of the saved document *)

Module Assembly.

Import Js.
Import Orchestrator.

(** [String.prototype.trim] removes white space and line terminators, the
    characters of [\s], at both ends. *)
Fixpoint trimLeft (s : jsstring) : jsstring :=
  match s with
  | c :: r => if isSpace c then trimLeft r else s
  | [] => []
  end.

Definition trim (s : jsstring) : jsstring :=
  reverse (trimLeft (reverse (trimLeft s))).

(** [s.split('|')[0]]: what comes before the first vertical bar. *)
Definition bar : unit16 := 124%N.

Fixpoint beforeBar (s : jsstring) : jsstring :=
  match s with
  | c :: r => if (c =? bar)%N then [] else c :: beforeBar r
  | [] => []
  end.

(** What [getBookTitle] reads: the text of the first [h1] or
    [data-testid="book-title"] element, if there is one, and
    [document.title]. *)
Record Titles := MkTitles {
  titleEl : option jsstring;
  documentTitle : jsstring
}.

Definition getBookTitle (d : Titles) : option jsstring :=
  match titleEl d with
  | Some text => Some (trim text)
  | None =>
      if bool_decide (documentTitle d ≠ [])
         && bool_decide (documentTitle d ≠ of_string "Bookshelf")
      then Some (trim (beforeBar (documentTitle d)))
      else None
  end.

(** [t || d] on a string or [null]. *)
Definition orName (t : option jsstring) (d : jsstring) : jsstring :=
  match t with
  | Some (c :: r) => c :: r
  | _ => d
  end.

(** The [filename] of [generatePDF]: the trimmed value of [#vs-filename],
    or the sanitized title when that is empty. *)
Definition fileStem (field : jsstring) (d : Titles) : jsstring :=
  match trim field with
  | [] => Content.sanitizeFilename (orName (getBookTitle d) (of_string "vitalsource-book"))
  | name => name
  end.

(** The value [createModal] leaves in [#vs-filename], which the markup
    creates empty: the sanitized title, if there is a title. *)
Definition initialField (d : Titles) : jsstring :=
  match getBookTitle d with
  | Some (c :: r) => Content.sanitizeFilename (c :: r)
  | _ => []
  end.

(** The template [`${filename}_p${firstPage}-${lastPage}.pdf`], by its
    three holes. *)
Record PdfName := MkPdfName {
  filename : jsstring;
  firstPage : Z;
  lastPage : Z
}.

(** The argument of [pdf.save] in [generatePDF], for a session that is not
    empty; reading [pageNumber] from a page that is [undefined] throws. *)
Definition pdfName (field : jsstring) (d : Titles) (pages : list Value) : option PdfName :=
  first ← head pages ≫= id;
  final ← last pages ≫= id;
  Some (MkPdfName (fileStem field d)
          (orNumber (o_pageNumber first) 1)
          (orNumber (o_pageNumber final) (Z.of_nat (length pages)))).

End Assembly.

(** * The vocabulary of the properties *)

Import Js.
Import Orchestrator.

(** ** Names and frames *)

(** The characters a sanitized name may contain. *)
Definition allowed (c : unit16) : bool :=
  isLetter c || isDigit c || (c =? hyphen)%N || (c =? underscore)%N.

(** The location policy finds nothing exactly when no image carries the
    known identifier and no image is larger than 400 in both dimensions. *)
Definition noMatch (doc : Frame.Document) : Prop :=
  Forall (λ img, Frame.isPbkPage img = false
                 ∧ ¬ (400 < Frame.naturalWidth img ∧ 400 < Frame.naturalHeight img))
    (Frame.images doc).

(** A frame with no image at all, and a ping it receives. *)
Definition emptyFrame : Frame.Document :=
  Frame.MkDocument [] "https://reader.example/frame".
Definition idleRaster : Frame.Raster := Frame.MkRaster Frame.NeverLoads (inl "").

(** ** Requests *)

(** The number of calls made to the [resolve] and [reject] functions of
    the promise of call [call]. *)
Definition settleCount (s : State) (call : nat) : nat :=
  length (filter (λ c, c.1 = call) (settleCalls s)).

(** The state in which the closures of a capture entry leave the
    bookkeeping, before they settle the promise. *)
Definition retired (rid : string) (call : nat) (s : State) : State :=
  deletePending rid (clearTimeout call (markResolved call (deletePending rid s))).

(** ** Scenarios *)

(** The reader at time [t]: page 5 shown, one page asked for, the next-page
    control usable, a working PDF library. *)
Definition readerHost (t : Z) : Host := MkHost t (Some "5") "1" NextEnabled None.

(** The readiness announcements of two image-bearing frames. *)
Definition readyA : Message :=
  MkMessage "VS_IFRAME_READY" "" false None "" true "https://cdn.example/a".
Definition readyB : Message :=
  MkMessage "VS_IFRAME_READY" "" false None "" true "https://cdn.example/b".

(** A probe sent while no announcement reports an image, then two
    announcements that do. *)
Definition probing : State :=
  run [(readerHost 0, ClickAction);
       (readerHost 100, Receive readyA);
       (readerHost 600, Receive readyB)] initial.

(** The reader on page 5 with one image-bearing frame announced, a capture
    run started at 1000 ms, and its first capture request sent at 1500 ms. *)
Definition capturing : State :=
  run [(readerHost 0, Receive readyA);
       (readerHost 1000, ClickAction);
       (readerHost 1500, Fire 0)] initial.

(** A loaded page image of 800 by 1000, its encoding, and what the Frame
    Agent sends for it. *)
Definition pageImage : Frame.Img := Frame.MkImg true true 800 1000.
Definition jpegRaster : Frame.Raster := Frame.MkRaster Frame.NeverLoads (inl "data:image/jpeg").
Definition pagePayload : Obj :=
  MkObj (Some "data:image/jpeg") (Some 800) (Some 1000) None None None None.

(** The reader on page 5, ten pages asked for, with the given next-page
    control. *)
Definition bookHost (t : Z) (next : NextButton) : Host :=
  MkHost t (Some "5") "10" next None.

(** That reader with one frame announced and its first capture request
    sent at 1500 ms. *)
Definition capturingBook : State :=
  run [(bookHost 0 NextEnabled, Receive readyA);
       (bookHost 1000 NextEnabled, ClickAction);
       (bookHost 1500 NextEnabled, Fire 0)] initial.

(** ** The bookkeeping of requests *)

(** The call a pending entry or a timeout closure belongs to. *)
Definition entryCall (e : Pending) : nat :=
  match e with
  | PingRequest c => c
  | CaptureRequest _ c => c
  end.

Definition timeoutCall (cb : Callback) : option nat :=
  match cb with
  | PingTimeout _ c => Some c
  | CaptureTimeout _ c => Some c
  | Wake _ => None
  end.

Definition entryAt (s : State) (c : nat) (k : string) (e : Pending) : Prop :=
  pendingCaptures s !! k = Some e ∧ entryCall e = c.

Definition timerAt (s : State) (c : nat) (id : nat) (t : Timer) : Prop :=
  timers s !! id = Some t ∧ timeoutCall (callback t) = Some c.

(** Call [c] is known to the state. *)
Definition uses (s : State) (c : nat) : Prop :=
  (∃ k e, entryAt s c k e) ∨ (∃ id t, timerAt s c id t)
  ∨ (c ∈ (settleCalls s).*1) ∨ (c ∈ resolvedFlag s).

(** Every call known to the state, and every timer, is older than the next
    call number. *)
Definition wf (s : State) : Prop :=
  (∀ c, uses s c → (c < fresh s)%nat)
  ∧ (∀ id, is_Some (timers s !! id) → (id < fresh s)%nat).

(** The part of the state the bookkeeping of requests lives in. *)
Definition core (s : State) :=
  (pendingCaptures s, timers s, settleCalls s, resolvedFlag s, fresh s).

(** Neither a pending entry nor a timer is left that could settle call [c]. *)
Definition dead (s : State) (c : nat) : Prop :=
  (∀ k e, ¬ entryAt s c k e) ∧ (∀ id t, ¬ timerAt s c id t).

(** What holds of a capture call [c], registered under the request id [r],
    from its registration on: its entry sits under [r] only, its timer is
    timer [c] only, and either nothing has happened to it yet, or it was
    retired: then its [resolve] or [reject] was called at most once and
    nothing is left that could call them again. *)
Record tracked (c : nat) (r : string) (s : State) : Prop := MkTracked {
  tr_fresh : (c < fresh s)%nat;
  tr_entry : ∀ k e, entryAt s c k e → k = r ∧ e = CaptureRequest r c;
  tr_timer : ∀ id t, timerAt s c id t → id = c ∧ callback t = CaptureTimeout r c;
  tr_once : (settleCount s c = 0%nat ∧ c ∉ resolvedFlag s)
            ∨ ((settleCount s c ≤ 1)%nat ∧ dead s c)
}.

(** The calls to [resolve] and [reject] are only ever added to. *)
Definition logGrows (s s' : State) : Prop := settleCalls s `prefix_of` settleCalls s'.

(** ** Overlapping runs *)

(** The page-bearing frame, and its answer to a capture request. *)
Definition pageFrame : Frame.Document := Frame.MkDocument [pageImage] "https://cdn.example/a".

Definition answerOf (rid : string) : Message :=
  match Frame.onMessage pageFrame jpegRaster (message "VS_CAPTURE_PAGE" rid) with
  | Frame.ToParent answer :: _ => answer
  | _ => message "" ""
  end.

(** One page asked for.  The user starts a capture, stops it before the
    first page is requested, and starts again at once: the first call of
    [startCapture] is still waiting on [sleep(500)], finds [isRunning] set
    again when it wakes, and carries on next to the second call. *)
Definition overlappingRuns : list (Host * Event) :=
  [(readerHost 0, Receive readyA);
   (readerHost 1000, ClickAction);
   (readerHost 1100, ClickAction);
   (readerHost 1200, ClickAction);
   (readerHost 1500, Fire 0);
   (readerHost 1700, Fire 1);
   (readerHost 1800, Receive (answerOf "capture_1500"));
   (readerHost 1900, Receive (answerOf "capture_1700"))].

(** ** One run *)

(** No timer of a [sleep] is armed. *)
Definition noWake (s : State) : Prop :=
  ∀ id t k, timers s !! id = Some t → callback t ≠ Wake k.

(** The only [sleep] timer that may be armed is timer [id], for the code [k]. *)
Definition onlyWake (s : State) (id : nat) (k : Cont) : Prop :=
  ∀ id' t k', timers s !! id' = Some t → callback t = Wake k' → id' = id ∧ k' = k.

(** What the locals of the one run hold while [n] pages are in the session
    and the page limit read at the start is [L]: a capture is requested or
    awaited only below the limit, and the session holds no more pages than
    the run has counted. *)
Definition okCont (L : Z) (n : nat) (k : Cont) : Prop :=
  match k with
  | AfterPing l => pageLimit l = L ∧ captured l = 0 ∧ n = 0%nat
  | AfterSettle l | AfterCapture l | AfterNext l | AfterRecovery l =>
      pageLimit l = L ∧ (0 ≤ captured l < L)%Z ∧ (Z.of_nat n ≤ captured l)%Z
  end.

(** Where the one run is suspended, if it still is. *)
Inductive Phase := Over | Awaits (p : nat) (k : Cont) | Sleeps (id : nat) (k : Cont).

Definition inPhase (L : Z) (s : State) (ph : Phase) : Prop :=
  let n := length (capturedPages s) in
  match ph with
  | Over => awaiting s = ∅ ∧ noWake s
  | Awaits p k => awaiting s = {[p := k]} ∧ noWake s ∧ okCont L n k
  | Sleeps id k => awaiting s = ∅ ∧ onlyWake s id k ∧ okCont L n k
  end.

(** Between two events. *)
Definition oneRun (L : Z) (s : State) : Prop :=
  woken s = []
  ∧ (Z.of_nat (length (capturedPages s)) ≤ Z.max L 0)%Z
  ∧ ∃ ph, inPhase L s ph.

(** Between a handler and the code it woke. *)
Definition oneRunMid (L : Z) (s : State) : Prop :=
  oneRun L s
  ∨ (awaiting s = ∅ ∧ noWake s
     ∧ (Z.of_nat (length (capturedPages s)) ≤ Z.max L 0)%Z
     ∧ ∃ k o, woken s = [(k, o)] ∧ okCont L (length (capturedPages s)) k).

(** The part of the state the run lives in. *)
Definition loopView (s : State) := (awaiting s, timers s, woken s, capturedPages s).

(** Nothing of the run is stored, and [n] pages are in the session. *)
Definition idleAt (n : nat) (s : State) : Prop :=
  awaiting s = ∅ ∧ noWake s ∧ woken s = [] ∧ length (capturedPages s) = n.

(** The events of a trace none of which starts a second run: a click on the
    action button either stops the run or finds pages in the session. *)
Fixpoint noRestart (trace : list (Host * Event)) (s : State) : Prop :=
  match trace with
  | [] => True
  | (h, ev) :: rest =>
      (ev = ClickAction → isRunning s = true ∨ capturedPages s ≠ [])
      ∧ noRestart rest (step h ev s)
  end.

(** Two pages asked for and captured by one run. *)
Definition twoPageHost (t : Z) : Host := MkHost t (Some "5") "2" NextEnabled None.

Definition twoPages : list (Host * Event) :=
  [(twoPageHost 1500, Fire 0);
   (twoPageHost 1800, Receive (answerOf "capture_1500"));
   (twoPageHost 3300, Fire 2);
   (twoPageHost 3800, Fire 3);
   (twoPageHost 4000, Receive (answerOf "capture_3800"))].

(** ** Broadcasts *)

(** An effect other than the broadcast of a ping. *)
Definition notPing (e : Effect) : Prop :=
  match e with
  | Broadcast m => type m ≠ "VS_PING"
  | ClickNext => True
  end.

(** ** The listener *)

(** What a [message] event cannot touch: the session, the run flag, the
    status line, the effects and the call numbers. *)
Definition surface (s : State) :=
  (capturedPages s, isRunning s, status s, effects s, fresh s).

(** The message types the listener of the top-level window acts on. *)
Definition listened : list string := ["VS_PAGE_CAPTURED"; "VS_PONG"; "VS_IFRAME_READY"].

(** From [s] to [s']: the readiness list has only been added to, and
    whatever was sent or clicked since is no ping. *)
Definition calm (s s' : State) : Prop :=
  readyFrames s `prefix_of` readyFrames s'
  ∧ ∃ new, effects s' = effects s ++ new ∧ Forall notPing new.

(** ** A call that nothing can settle *)

(** The code [k] awaits call [c], which has not been settled, and neither a
    pending entry nor a timer is left that could settle it. *)
Definition stuck (c : nat) (k : Cont) (s : State) : Prop :=
  (c < fresh s)%nat ∧ dead s c ∧ settleCount s c = 0%nat ∧ awaiting s !! c = Some k.

Definition stuckView (s : State) :=
  (pendingCaptures s, timers s, settleCalls s, fresh s, awaiting s).

(** A response that claims success and carries no payload. *)
Definition emptySuccess (rid : string) : Message :=
  MkMessage "VS_PAGE_CAPTURED" rid true None "" false "".

(** ** The pages of the session *)

(** A page as [captureCurrentPage] resolves it: an object that carries a
    timestamp and a page number other than 0. *)
Definition stamped (v : Value) : Prop :=
  ∃ d n, v = Some d ∧ is_Some (o_timestamp d) ∧ o_pageNumber d = Some n ∧ n ≠ 0.

(** Code that is about to store a page is resumed with a stamped page. *)
Definition okWake (w : Cont * Outcome) : Prop :=
  match w with
  | (AfterCapture _, Resolved v) => stamped v
  | _ => True
  end.

(** Every entry and every timer of call [c] was built by
    [captureCurrentPage]. *)
Definition captureKind (s : State) (c : nat) : Prop :=
  (∀ rid e, pendingCaptures s !! rid = Some e → entryCall e = c →
            ∃ r, e = CaptureRequest r c)
  ∧ (∀ id t, timers s !! id = Some t → timeoutCall (callback t) = Some c →
             ∃ r, callback t = CaptureTimeout r c).

(** The calls that entries, timers and suspended code refer to have been
    made. *)
Definition known (s : State) : Prop :=
  (∀ rid e, pendingCaptures s !! rid = Some e → (entryCall e < fresh s)%nat)
  ∧ (∀ id t c, timers s !! id = Some t → timeoutCall (callback t) = Some c →
               (c < fresh s)%nat)
  ∧ (∀ c, is_Some (awaiting s !! c) → (c < fresh s)%nat).

(** The session holds stamped pages only, and so will it: the code that
    stores a page waits for a capture call, never for a probe or a
    [sleep]. *)
Definition paged (s : State) : Prop :=
  Forall stamped (capturedPages s)
  ∧ Forall okWake (woken s)
  ∧ (∀ c l, awaiting s !! c = Some (AfterCapture l) → captureKind s c)
  ∧ (∀ id t l, timers s !! id = Some t → callback t ≠ Wake (AfterCapture l))
  ∧ known s.

Definition pagedView (s : State) :=
  (capturedPages s, woken s, awaiting s, pendingCaptures s, timers s, fresh s).

(** ** Timeouts *)

(** The timeout closure built together with the entry [e] stored under
    [rid]. *)
Definition timeoutOf (rid : string) (e : Pending) : Callback :=
  match e with
  | PingRequest c => PingTimeout rid c
  | CaptureRequest r c => CaptureTimeout r c
  end.

(** The entry [e] stored under [rid] has its timeout armed: the timer of
    its call is active and closes over [rid]; a capture entry is stored
    under its own request id and its call's [resolved] flag is not set. *)
Definition armed (s : State) (rid : string) (e : Pending) : Prop :=
  (∃ t, timers s !! entryCall e = Some t ∧ callback t = timeoutOf rid e)
  ∧ match e with
    | PingRequest _ => True
    | CaptureRequest r c => r = rid ∧ c ∉ resolvedFlag s
    end.

(** Every pending entry has its timeout armed, and entries, timers and
    flags belong to calls that have been made. *)
Definition guarded (s : State) : Prop :=
  (∀ rid e, pendingCaptures s !! rid = Some e →
            armed s rid e ∧ (entryCall e < fresh s)%nat)
  ∧ (∀ id t, timers s !! id = Some t → (id < fresh s)%nat)
  ∧ (∀ c, c ∈ resolvedFlag s → (c < fresh s)%nat).

Definition guardView (s : State) :=
  (pendingCaptures s, timers s, resolvedFlag s, fresh s).

(** ** A run that was stopped *)

(** Where the one run stands: it has ended, it waits for call [p], it
    sleeps on timer [id], or it was woken by the handler that just ran. *)
Inductive Stage :=
| Ended
| Waiting (p : nat) (k : Cont)
| Asleep (id : nat) (k : Cont)
| Ready (k : Cont) (o : Outcome).

Definition atStage (s : State) (st : Stage) : Prop :=
  match st with
  | Ended => awaiting s = ∅ ∧ noWake s ∧ woken s = []
  | Waiting p k => awaiting s = {[p := k]} ∧ noWake s ∧ woken s = []
  | Asleep id k => awaiting s = ∅ ∧ onlyWake s id k ∧ woken s = []
  | Ready k o => awaiting s = ∅ ∧ noWake s ∧ woken s = [(k, o)]
  end.

(** What the code [k] still does before it reaches the head of the loop:
    the capture requests it sends and the pages it stores (with a page
    goes at most one click on the next-page control). *)
Definition owes (k : Cont) : nat * nat :=
  match k with
  | AfterSettle _ => (1%nat, 1%nat)
  | AfterCapture _ => (0%nat, 1%nat)
  | _ => (0%nat, 0%nat)
  end.

Definition owed (st : Stage) : nat * nat :=
  match st with
  | Ended => (0%nat, 0%nat)
  | Waiting _ k | Asleep _ k | Ready k _ => owes k
  end.

Definition isBroadcast (e : Effect) : bool :=
  match e with Broadcast _ => true | ClickNext => false end.

Definition sent (es : list Effect) : nat := length (filter (λ e, isBroadcast e = true) es).
Definition clicked (es : list Effect) : nat := length (filter (λ e, isBroadcast e = false) es).

(** The run flag is down, and what the run has sent, clicked and stored,
    with what it still owes, stays within [R] messages, [C] clicks and
    [P] pages. *)
Definition winding (R C P : nat) (s : State) : Prop :=
  isRunning s = false
  ∧ ∃ st, atStage s st
          ∧ (sent (effects s) + (owed st).1 ≤ R)%nat
          ∧ (clicked (effects s) + (owed st).2 ≤ C)%nat
          ∧ (length (capturedPages s) + (owed st).2 ≤ P)%nat.

(** The stopped run is between two [await]s, with a click to spare. *)
Definition spare (R C P : nat) (s : State) : Prop :=
  isRunning s = false ∧ awaiting s = ∅ ∧ noWake s ∧ woken s = []
  ∧ (sent (effects s) ≤ R)%nat ∧ (clicked (effects s) + 1 ≤ C)%nat
  ∧ (length (capturedPages s) ≤ P)%nat.

Definition stopView (s : State) :=
  (isRunning s, awaiting s, timers s, woken s, capturedPages s, effects s).

(** A trace without a click on the action button. *)
Definition noAction (trace : list (Host * Event)) : Prop :=
  Forall (λ he, he.2 ≠ ClickAction) trace.

(** ** Announcements *)

(** The message a frame with document [doc] sends when one of its
    readiness timers fires. *)
Definition announced (doc : Frame.Document) : Message :=
  match Frame.announceReady doc with
  | Frame.ToParent m | Frame.ToChildren m => m
  end.

(** ** Leaving the loop *)

(** Code of [startCapture] is suspended on what it made under number [n]:
    it awaits call [n], or the timer [n] of a [sleep] is armed. *)
Definition suspendedOn (n : nat) (s : State) : Prop :=
  is_Some (awaiting s !! n)
  ∨ ∃ t k, timers s !! n = Some t ∧ callback t = Wake k.

(** ** What is broadcast *)

(** A broadcast of the Orchestrator is a ping or a capture request, with
    a request id. *)
Definition request (e : Effect) : Prop :=
  match e with
  | Broadcast m =>
      (type m = "VS_PING" ∨ type m = "VS_CAPTURE_PAGE") ∧ requestId m ≠ ""
      ∧ m = message (type m) (requestId m)
  | ClickNext => True
  end.

(** * Properties *)

Import Js.

(** ** Filename sanitization *)

Section Sanitize.

Import Content.

Lemma underscore_allowed : allowed underscore = true.
Proof. reflexivity. Qed.

Lemma kept_not_space_allowed c :
  kept c = true → isSpace c = false → allowed c = true.
Proof.
  unfold kept, allowed. intros Hk Hs. rewrite Hs in Hk.
  destruct (isLetter c), (isDigit c); simpl in *; auto.
Qed.

Lemma collapseSpaces_allowed s b :
  Forall (λ c, kept c = true) s →
  Forall (λ c, allowed c = true) (collapseSpaces b s).
Proof.
  intros Hs. revert b. induction Hs as [|c r Hc _ IH]; intros b; simpl.
  - constructor.
  - destruct (isSpace c) eqn:Hsp.
    + destruct b; [apply IH|]. constructor; [apply underscore_allowed | apply IH].
    + constructor; [by apply kept_not_space_allowed | apply IH].
Qed.

Lemma allowed_not_space c : allowed c = true → isSpace c = false.
Proof.
  unfold allowed, isLetter, isLower, isUpper, isDigit, isSpace, inRange, hyphen, underscore.
  intros H. repeat (apply orb_prop in H as [H|H]);
    repeat match goal with
    | H : (_ && _) = true |- _ => apply andb_prop in H as [? ?]
    | H : (_ <=? _)%N = true |- _ => apply N.leb_le in H
    | H : (_ =? _)%N = true |- _ => apply N.eqb_eq in H
    end;
    repeat (apply orb_false_intro);
    try (apply andb_false_iff; rewrite !N.leb_gt; lia);
    try (apply N.eqb_neq; lia).
Qed.

(** One run of white space between a word and what follows it becomes one
    underscore. *)
Lemma collapseSpaces_run (w ws r : jsstring) :
  Forall (λ c, isSpace c = false) w →
  ws ≠ [] → Forall (λ c, isSpace c = true) ws →
  (∀ c, head r = Some c → isSpace c = false) →
  collapseSpaces false (w ++ ws ++ r) = w ++ underscore :: collapseSpaces false r.
Proof.
  intros Hw Hne Hws Hr.
  assert (Hrun : ∀ ws', Forall (λ c, isSpace c = true) ws' →
            collapseSpaces true (ws' ++ r) = collapseSpaces false r).
  { intros ws' H. induction H as [|c l Hc _ IH]; simpl.
    - destruct r as [|c r']; [done|]. simpl. by rewrite (Hr c eq_refl).
    - by rewrite Hc. }
  induction Hw as [|c l Hc _ IH]; simpl.
  - destruct Hws as [|c l Hc Hl]; [done|]. simpl. rewrite Hc. f_equal. by apply Hrun.
  - rewrite Hc. by f_equal.
Qed.

(** C8: for every input, the sanitized name holds only letters, digits,
    hyphens and underscores (hence no white space), has at most 50 code
    units, every run of white space of the filtered name has become one
    underscore, and "Intro to C++: Vol. 2!" becomes "Intro_to_C_Vol_2". *)
Theorem sanitizeFilename_restricted (name : jsstring) :
  Forall (λ c, allowed c = true ∧ isSpace c = false) (sanitizeFilename name)
  ∧ (length (sanitizeFilename name) ≤ 50)%nat
  ∧ (∀ w ws r,
       filter (λ c, kept c = true) name = w ++ ws ++ r →
       Forall (λ c, isSpace c = false) w →
       ws ≠ [] → Forall (λ c, isSpace c = true) ws →
       (∀ c, head r = Some c → isSpace c = false) →
       sanitizeFilename name = take 50 (w ++ underscore :: collapseSpaces false r))
  ∧ sanitizeFilename (of_string "Intro to C++: Vol. 2!") = of_string "Intro_to_C_Vol_2".
Proof.
  split; [|split; [|split]].
  - unfold sanitizeFilename. apply Forall_take.
    eapply Forall_impl.
    + apply collapseSpaces_allowed. apply list.Forall_forall. intros c Hc.
      by apply list_elem_of_filter in Hc as [? _].
    + intros c Hc. split; [done | by apply allowed_not_space].
  - unfold sanitizeFilename. rewrite length_take. lia.
  - intros w ws r Heq Hw Hne Hws Hr. unfold sanitizeFilename.
    rewrite Heq. by rewrite collapseSpaces_run.
  - reflexivity.
Qed.

Lemma sanitizeFilename_restricted_witness :
  sanitizeFilename (of_string "a  b") = of_string "a_b".
Proof.
  destruct (sanitizeFilename_restricted (of_string "a  b")) as (_ & _ & Hrun & _).
  apply (Hrun (of_string "a") (of_string "  ") (of_string "b")).
  - reflexivity.
  - repeat constructor.
  - discriminate.
  - repeat constructor.
  - intros c Hc. injection Hc as <-. reflexivity.
Defined.

End Sanitize.

(** ** The Frame Agent *)

Section FrameAgent.

Import Frame.

Lemma find_none_Forall {A} (p : A → bool) (l : list A) :
  List.find p l = None ↔ Forall (λ x, p x = false) l.
Proof.
  induction l as [|x l IH]; simpl.
  - split; [constructor | done].
  - destruct (p x) eqn:Hp.
    + split; [done|]. intros H. inversion H; congruence.
    + rewrite IH. split; [by constructor | by inversion 1].
Qed.

Lemma isLarge_false img :
  isLarge img = false ↔ ¬ (400 < naturalWidth img ∧ 400 < naturalHeight img).
Proof.
  unfold isLarge. rewrite andb_false_iff, !bool_decide_eq_false. lia.
Qed.

Lemma findPageImage_none doc : findPageImage doc = None ↔ noMatch doc.
Proof.
  unfold findPageImage, noMatch.
  destruct (List.find isPbkPage (images doc)) eqn:Hp.
  - split; [done|]. intros H.
    assert (List.find isPbkPage (images doc) = None); [|congruence].
    apply find_none_Forall. eapply Forall_impl; [exact H|]. by intros ? [? _].
  - apply find_none_Forall in Hp. rewrite find_none_Forall.
    rewrite list.Forall_forall in Hp. rewrite !list.Forall_forall.
    split.
    + intros H img Himg. split; [by apply Hp | by apply isLarge_false, H].
    + intros H img Himg. by apply isLarge_false, H.
Qed.

Lemma hasPageImage_none doc : findPageImage doc = None → hasPageImage doc = false.
Proof.
  intros H. unfold hasPageImage. rewrite H. apply bool_decide_eq_false. by intros [? ?].
Qed.

(** C6 as stated fails: a frame in which the policy finds nothing answers a
    ping, with a [VS_PONG] that reports [hasImage = false]. *)
Lemma silent_frame_answers_ping :
  noMatch emptyFrame
  ∧ filter (λ a, isToParent a = true)
      (onMessage emptyFrame idleRaster (message "VS_PING" "ping_1"))
    = [ToParent (MkMessage "VS_PONG" "ping_1" false None "" false
                   "https://reader.example/frame")].
Proof. split; [constructor | reflexivity]. Qed.

(** C6, amended: a frame in which the policy finds nothing sends no answer
    to a capture request and only forwards it to its child frames; to a
    ping it answers with a [VS_PONG] whose [hasImage] is false, then
    forwards the ping to its child frames. *)
Theorem frame_without_image (doc : Document) (r : Raster) (m : Message) :
  noMatch doc → requestId m ≠ "" →
  (type m = "VS_CAPTURE_PAGE" → onMessage doc r m = [ToChildren m])
  ∧ (type m = "VS_PING" →
       onMessage doc r m = [ToParent (pong doc (requestId m)); ToChildren m]
       ∧ hasImage (pong doc (requestId m)) = false).
Proof.
  intros Hno Hrid. apply findPageImage_none in Hno.
  assert (Ht : truthy (requestId m) = true) by by apply bool_decide_eq_true.
  split; intros Hty; unfold onMessage; rewrite Hty, Ht; simpl.
  - by rewrite Hno.
  - split; [done|]. by apply hasPageImage_none.
Qed.

Lemma frame_without_image_witness :
  onMessage emptyFrame idleRaster (message "VS_CAPTURE_PAGE" "capture_1")
  = [ToChildren (message "VS_CAPTURE_PAGE" "capture_1")].
Proof.
  apply (frame_without_image emptyFrame idleRaster (message "VS_CAPTURE_PAGE" "capture_1")).
  - constructor.
  - discriminate.
  - reflexivity.
Defined.

(** What [captureImage] returns holds the payload and the two dimensions,
    and neither a page number nor a timestamp. *)
Lemma captureImage_fields (r : Raster) (img : Img) (o : Obj) :
  captureImage r img = inl o →
  is_Some (o_data o) ∧ is_Some (o_width o) ∧ is_Some (o_height o)
  ∧ o_timestamp o = None ∧ o_pageNumber o = None
  ∧ o_hasImage o = None ∧ o_url o = None.
Proof.
  unfold captureImage. intros H.
  repeat case_match; simplify_eq; simpl; eauto 10.
Qed.

End FrameAgent.

(** ** The Orchestrator: promises, timers and the pending map *)

Import Orchestrator.

Lemma find_app {A} (p : A → bool) (l k : list A) :
  List.find p (l ++ k) = match List.find p l with
                         | Some x => Some x
                         | None => List.find p k
                         end.
Proof. induction l as [|x l IH]; simpl; [done|]. by destruct (p x). Qed.

(** The earliest element satisfying [p]. *)
Lemma find_first {A} (p : A → bool) (l : list A) (x : A) :
  List.find p l = Some x →
  ∃ before after, l = before ++ x :: after
                  ∧ Forall (λ y, p y = false) before ∧ p x = true.
Proof.
  induction l as [|y l IH]; simpl; [done|].
  destruct (p y) eqn:Hy.
  - intros [= ->]. by exists [], l.
  - intros H. destruct (IH H) as (b & a & -> & Hb & Hx).
    exists (y :: b), a. split; [done|]. split; [by constructor | done].
Qed.

Lemma find_exists {A} (p : A → bool) (l : list A) :
  (∃ x, x ∈ l ∧ p x = true) → is_Some (List.find p l).
Proof.
  intros (x & Hx & Hp). destruct (List.find p l) eqn:Hf; [by eexists|].
  apply list_elem_of_In in Hx. pose proof (find_none p l Hf x Hx). congruence.
Qed.

Section Promises.

Implicit Types (s : State) (h : Host) (o : Outcome) (call id : nat) (rid : string).

Lemma promiseState_settle s call call' o :
  promiseState (settle call' o s) call
  = match promiseState s call with
    | Some x => Some x
    | None => if decide (call' = call) then Some o else None
    end.
Proof.
  assert (H : settleCalls (settle call' o s) = settleCalls s ++ [(call', o)]).
  { unfold settle. destruct s; simpl. by repeat case_match. }
  unfold promiseState. rewrite H, find_app.
  destruct (List.find _ (settleCalls s)); simpl; [done|].
  rewrite bool_decide_decide. by destruct (decide (call' = call)).
Qed.

Lemma settle_pendingCaptures s call o :
  pendingCaptures (settle call o s) = pendingCaptures s.
Proof. unfold settle. destruct s; simpl. by repeat case_match. Qed.

Lemma settle_effects s call o : effects (settle call o s) = effects s.
Proof. unfold settle. destruct s; simpl. by repeat case_match. Qed.

Lemma settle_timers s call o : timers (settle call o s) = timers s.
Proof. unfold settle. destruct s; simpl. by repeat case_match. Qed.

End Promises.

Section Probe.

Implicit Types (s : State) (h : Host) (o : Outcome) (call id : nat) (rid : string).

Lemma sleep_effects ms k h s : effects (sleep ms k h s) = effects s.
Proof. by destruct s. Qed.

Lemma loopHead_effects l h s : effects (loopHead l h s) = effects s.
Proof. unfold loopHead. case_match; by destruct s. Qed.

(** C3: when some recorded announcement has [hasImage = true], the probe
    resolves at once with the earliest such announcement, leaves the state
    as it is, and a capture run started then sends no message. *)
Theorem ping_short_circuit h s :
  (∃ f, f ∈ readyFrames s ∧ rf_hasImage f = true) →
  ∃ ready before after,
    readyFrames s = before ++ ready :: after
    ∧ Forall (λ f, rf_hasImage f = false) before
    ∧ rf_hasImage ready = true
    ∧ pingIframe h s = (Already (Resolved (Some (readyObj ready))), s)
    ∧ effects (pingIframe h s).2 = effects s
    ∧ (isRunning s = false → effects (startCapture h s) = effects s).
Proof.
  intros Hex. destruct (find_exists rf_hasImage _ Hex) as [ready Hfind].
  destruct (find_first _ _ _ Hfind) as (before & after & Heq & Hb & Hr).
  exists ready, before, after.
  assert (Hping : pingIframe h s = (Already (Resolved (Some (readyObj ready))), s)).
  { unfold pingIframe, firstWithImage. by rewrite Hfind. }
  repeat split; try done.
  - by rewrite Hping.
  - intros Hrun. unfold startCapture. rewrite Hrun.
    assert (Hfind' : ∀ v1 v2, firstWithImage
              (updateStatus v1 v2 (set_isRunning true s)) = Some ready).
    { intros. destruct s. exact Hfind. }
    unfold pingIframe. rewrite Hfind'. simpl.
    rewrite loopHead_effects. by destruct s.
Qed.

Lemma ping_short_circuit_witness :
  let s := set_readyFrames [MkReady false "a"; MkReady true "b"] initial in
  ∃ ready before after,
    readyFrames s = before ++ ready :: after
    ∧ Forall (λ f, rf_hasImage f = false) before
    ∧ rf_hasImage ready = true
    ∧ pingIframe (MkHost 0 None "" NextAbsent None) s
      = (Already (Resolved (Some (readyObj ready))), s)
    ∧ effects (pingIframe (MkHost 0 None "" NextAbsent None) s).2 = effects s
    ∧ (isRunning s = false
       → effects (startCapture (MkHost 0 None "" NextAbsent None) s) = effects s).
Proof.
  apply ping_short_circuit. exists (MkReady true "b"). split; [|reflexivity].
  apply list_elem_of_In. right. by left.
Defined.

(** What [pingIframe] registers when no announcement reports an image: a
    timer of 5000 ms, the pending entry, and one broadcast. *)
Lemma pingIframe_registers h s call s1 :
  pingIframe h s = (Later call, s1) →
  call = fresh s
  ∧ timers s1 !! call
    = Some (MkTimer (now h + 5000) (PingTimeout ("ping_" +:+ pretty (now h)) call))
  ∧ pendingCaptures s1 !! ("ping_" +:+ pretty (now h)) = Some (PingRequest call)
  ∧ effects s1 = effects s ++ [Broadcast (message "VS_PING" ("ping_" +:+ pretty (now h)))].
Proof.
  unfold pingIframe. destruct (firstWithImage s); [done|].
  intros [= <- <-]. destruct s; simpl.
  split; [done|]. split; [apply lookup_insert_eq|]. split; [apply lookup_insert_eq|done].
Qed.

(** The handler of the ping timer: the entry is removed, and the promise is
    settled from the readiness list. *)
Lemma fire_ping_timeout h s id rid call d :
  timers s !! id = Some (MkTimer d (PingTimeout rid call)) →
  (d ≤ now h)%Z →
  promiseState s call = None →
  pendingCaptures (fire id h s) !! rid = None
  ∧ promiseState (fire id h s) call
    = Some (match firstWithImage s with
            | Some ready => Resolved (Some (readyObj ready))
            | None => Rejected probeFailure
            end).
Proof.
  intros Ht Hd Hp. unfold fire. rewrite Ht. simpl.
  rewrite bool_decide_eq_true_2 by done. unfold pingTimedOut.
  assert (Hf : firstWithImage (deletePending rid (clearTimeout id s)) = firstWithImage s)
    by by destruct s.
  assert (Hps : promiseState (deletePending rid (clearTimeout id s)) call = None)
    by by destruct s.
  assert (Hpd : pendingCaptures (deletePending rid (clearTimeout id s)) !! rid = None).
  { destruct s; simpl. apply lookup_delete_eq. }
  rewrite Hf. destruct (firstWithImage s);
    rewrite settle_pendingCaptures, promiseState_settle, Hps;
    (split; [done | by rewrite decide_True]).
Qed.

End Probe.

(** ** Resumed code *)

Ltac unfold_loop :=
  unfold resume, catchBlock, goToNextPage, loopHead, captureCurrentPage,
    sleep, finish, done, updateStatus, setTimeout, broadcastToIframes.

(** Every path through the resumed code: the state is a chain of field
    updates of [s], compared field by field. *)
Ltac loop_paths k o h s :=
  destruct k, o; unfold_loop; destruct (nextButton h);
  repeat case_match; simplify_eq; by destruct s.

Section Resume.

Implicit Types (s : State) (h : Host) (o : Outcome) (k : Cont) (l : Locals).

(** The code of [startCapture] never calls the [resolve] or [reject]
    function of a promise, never wakes other code, and never touches the
    readiness list. *)
Lemma resume_settleCalls k o h s : settleCalls (resume k o h s) = settleCalls s.
Proof. loop_paths k o h s. Qed.

Lemma resume_woken k o h s : woken (resume k o h s) = woken s.
Proof. loop_paths k o h s. Qed.

Lemma resume_readyFrames k o h s : readyFrames (resume k o h s) = readyFrames s.
Proof. loop_paths k o h s. Qed.

(** Only the code after [await sleep(500)] registers a pending request. *)
Lemma resume_pendingCaptures k o h s :
  (∀ l, k ≠ AfterSettle l) →
  pendingCaptures (resume k o h s) = pendingCaptures s.
Proof.
  intros Hk. destruct k; try (by destruct (Hk l)); destruct o;
    unfold_loop; destruct (nextButton h); repeat case_match; simplify_eq; by destruct s.
Qed.

Lemma foldl_resume_settleCalls h (ws : list (Cont * Outcome)) s :
  settleCalls (foldl (λ s w, resume w.1 w.2 h s) s ws) = settleCalls s.
Proof.
  revert s. induction ws as [|w ws IH]; intros s; simpl; [done|].
  by rewrite IH, resume_settleCalls.
Qed.

Lemma foldl_resume_woken h (ws : list (Cont * Outcome)) s :
  woken (foldl (λ s w, resume w.1 w.2 h s) s ws) = woken s.
Proof.
  revert s. induction ws as [|w ws IH]; intros s; simpl; [done|].
  by rewrite IH, resume_woken.
Qed.

Lemma drain_settleCalls h s : settleCalls (drain h s) = settleCalls s.
Proof. unfold drain. rewrite foldl_resume_settleCalls. by destruct s. Qed.

Lemma drain_promiseState h s call : promiseState (drain h s) call = promiseState s call.
Proof. unfold promiseState. by rewrite drain_settleCalls. Qed.

(** After a step nothing is left to resume. *)
Lemma drain_woken h s : woken (drain h s) = [].
Proof. unfold drain. rewrite foldl_resume_woken. by destruct s. Qed.

Lemma step_woken h e s : woken (step h e s) = [].
Proof. apply drain_woken. Qed.

Lemma drain_quiet h s : woken s = [] → drain h s = s.
Proof. unfold drain. intros H. destruct s; simpl in *. by subst. Qed.

Lemma drain_one h s k o :
  woken s = [(k, o)] → drain h s = resume k o h (set_woken [] s).
Proof. unfold drain. by intros ->. Qed.

End Resume.

(** ** The liveness probe on timeout *)

Section ProbeTimeout.

Implicit Types (s : State) (h : Host) (o : Outcome) (call id : nat) (rid : string).

(** C4 as stated fails: on timeout the probe resolves with the earliest
    announcement that reports an image, not with the last one recorded. *)
Lemma probe_timeout_not_latest :
  readyFrames probing
  = [MkReady true "https://cdn.example/a"; MkReady true "https://cdn.example/b"]
  ∧ timers probing !! 0%nat = Some (MkTimer 5000 (PingTimeout "ping_0" 0))
  ∧ promiseState probing 0 = None
  ∧ promiseState (step (readerHost 5000) (Fire 0) probing) 0
    = Some (Resolved (Some (readyObj (MkReady true "https://cdn.example/a"))))
  ∧ last (readyFrames probing) = Some (MkReady true "https://cdn.example/b")
  ∧ readyObj (MkReady true "https://cdn.example/a")
    ≠ readyObj (MkReady true "https://cdn.example/b").
Proof. vm_compute. repeat split; discriminate. Qed.

(** C4, amended: the probe arms a timer of 5000 ms; when that timer fires
    before any matching response, the pending entry is removed and the
    probe resolves with the earliest recorded announcement that reports an
    image; it rejects with the probe-failure error exactly when no recorded
    announcement reports one. *)
Theorem probe_timeout_fallback h s id rid call d :
  timers s !! id = Some (MkTimer d (PingTimeout rid call)) →
  (d ≤ now h)%Z →
  promiseState s call = None →
  (∀ h0 s0 call0 s1, pingIframe h0 s0 = (Later call0, s1) →
     timers s1 !! call0
     = Some (MkTimer (now h0 + 5000) (PingTimeout ("ping_" +:+ pretty (now h0)) call0)))
  ∧ pendingCaptures (handle h (Fire id) s) !! rid = None
  ∧ match firstWithImage s with
    | Some ready =>
        promiseState (step h (Fire id) s) call = Some (Resolved (Some (readyObj ready)))
        ∧ ∃ before after,
            readyFrames s = before ++ ready :: after
            ∧ Forall (λ f, rf_hasImage f = false) before
            ∧ rf_hasImage ready = true
    | None =>
        promiseState (step h (Fire id) s) call = Some (Rejected probeFailure)
        ∧ Forall (λ f, rf_hasImage f = false) (readyFrames s)
    end.
Proof.
  intros Ht Hdue Hpend.
  destruct (fire_ping_timeout h s id rid call _ Ht Hdue Hpend) as [Hrm Hset].
  split; [|split; [done|]].
  { intros h0 s0 call0 s1 Hping. by apply pingIframe_registers in Hping as (_ & ? & _). }
  unfold step. rewrite drain_promiseState. simpl. rewrite Hset.
  destruct (firstWithImage s) as [ready|] eqn:Hf.
  - split; [done|]. by apply find_first.
  - split; [done|]. by apply find_none_Forall.
Qed.

Lemma probe_timeout_fallback_witness :
  promiseState (step (readerHost 5000) (Fire 0) probing) 0
  = Some (Resolved (Some (readyObj (MkReady true "https://cdn.example/a")))).
Proof.
  destruct (probe_timeout_fallback (readerHost 5000) probing 0 "ping_0" 0 5000)
    as (_ & _ & H); [reflexivity | vm_compute; discriminate | reflexivity |].
  exact (proj1 H).
Defined.

End ProbeTimeout.

(** ** Capture requests *)

Section Capture.

Implicit Types (s : State) (h : Host) (o : Outcome) (call id : nat) (rid : string)
  (m : Message) (l : Locals).

(** What [captureCurrentPage] registers: a timer of 15000 ms, the pending
    entry under the request's id, and one broadcast. *)
Lemma captureCurrentPage_registers h s :
  let rid := "capture_" +:+ pretty (now h) in
  let s1 := (captureCurrentPage h s).2 in
  (captureCurrentPage h s).1 = fresh s
  ∧ timers s1 !! fresh s = Some (MkTimer (now h + 15000) (CaptureTimeout rid (fresh s)))
  ∧ pendingCaptures s1 !! rid = Some (CaptureRequest rid (fresh s))
  ∧ effects s1 = effects s ++ [Broadcast (message "VS_CAPTURE_PAGE" rid)]
  ∧ resolvedFlag s1 = resolvedFlag s
  ∧ settleCalls s1 = settleCalls s.
Proof.
  destruct s; simpl.
  split; [done|]. split; [apply lookup_insert_eq|]. split; [apply lookup_insert_eq|done].
Qed.

Lemma retired_lookups rid call s :
  pendingCaptures (retired rid call s) !! rid = None
  ∧ timers (retired rid call s) !! call = None
  ∧ call ∈ resolvedFlag (retired rid call s)
  ∧ settleCalls (retired rid call s) = settleCalls s
  ∧ woken (retired rid call s) = woken s
  ∧ awaiting (retired rid call s) = awaiting s.
Proof.
  destruct s; simpl. split; [apply lookup_delete_eq|].
  split; [apply lookup_delete_eq|]. split; [set_solver|done].
Qed.

(** The listener on a capture response that finds the entry of a capture
    call. *)
Lemma onMessage_capture_response h m s rid call :
  type m = "VS_PAGE_CAPTURED" → requestId m = rid → rid ≠ "" →
  pendingCaptures s !! rid = Some (CaptureRequest rid call) →
  call ∉ resolvedFlag s →
  onMessage h m s
  = if success m
    then match data m with
         | Some d => settle call (Resolved (Some (stamp h d))) (retired rid call s)
         | None => retired rid call s
         end
    else settle call (Rejected (orString (error m) "Capture failed")) (retired rid call s).
Proof.
  intros Hty Hrid Hne Hp Hres.
  unfold onMessage, onIframeReady, onPong, onPageCaptured. rewrite Hty, Hrid. simpl.
  assert (Ht : truthy rid = true) by by apply bool_decide_eq_true.
  rewrite Ht, Hp. simpl.
  assert (Hres' : call ∉ resolvedFlag (deletePending rid s)) by by destruct s.
  unfold entryResolve, entryReject. rewrite !decide_False by done.
  fold (retired rid call s). by repeat case_match.
Qed.

(** A response of either kind for a request id that has no pending entry
    is ignored: the state does not change. *)
Lemma onMessage_no_entry h m s :
  pendingCaptures s !! requestId m = None →
  type m = "VS_PAGE_CAPTURED" ∨ type m = "VS_PONG" →
  onMessage h m s = s.
Proof.
  intros Hp [Hty|Hty];
    unfold onMessage, onIframeReady, onPong, onPageCaptured; rewrite Hty; simpl;
    destruct (truthy (requestId m)); simpl; by rewrite ?Hp.
Qed.

(** A timer that is not active does not fire. *)
Lemma fire_inactive h s id : timers s !! id = None → fire id h s = s.
Proof. unfold fire. by intros ->. Qed.

Lemma fire_capture_timeout h s id rid call d :
  timers s !! id = Some (MkTimer d (CaptureTimeout rid call)) →
  (d ≤ now h)%Z →
  call ∉ resolvedFlag s →
  fire id h s = settle call (Rejected captureTimeout) (deletePending rid (clearTimeout id s)).
Proof.
  intros Ht Hd Hres. unfold fire. rewrite Ht. simpl.
  rewrite bool_decide_eq_true_2 by done. unfold captureTimedOut.
  assert (call ∉ resolvedFlag (clearTimeout id s)) by by destruct s.
  by rewrite decide_False.
Qed.

(** C7: a capture call arms a timer of 15000 ms; when it fires before any
    matching response, the call rejects with the capture-timeout error, an
    error message no other failure of the scripts carries, and in that same
    handler the pending entry of the request is removed. *)
Theorem capture_timeout h s id rid call d :
  timers s !! id = Some (MkTimer d (CaptureTimeout rid call)) →
  (d ≤ now h)%Z →
  call ∉ resolvedFlag s →
  promiseState s call = None →
  (∀ h0 s0, timers (captureCurrentPage h0 s0).2 !! (captureCurrentPage h0 s0).1
            = Some (MkTimer (now h0 + 15000)
                      (CaptureTimeout ("capture_" +:+ pretty (now h0))
                         (captureCurrentPage h0 s0).1)))
  ∧ promiseState (handle h (Fire id) s) call = Some (Rejected captureTimeout)
  ∧ pendingCaptures (handle h (Fire id) s) !! rid = None
  ∧ promiseState (step h (Fire id) s) call = Some (Rejected captureTimeout)
  ∧ captureTimeout ∉ [probeFailure; "Capture failed"; "Image load timeout";
                       "Image failed to load"; "Last page"; "No Next button"].
Proof.
  intros Ht Hd Hres Hpend.
  split.
  { intros h0 s0. by destruct (captureCurrentPage_registers h0 s0) as (-> & ? & _). }
  assert (Hfire : promiseState (fire id h s) call = Some (Rejected captureTimeout)
                  ∧ pendingCaptures (fire id h s) !! rid = None).
  { rewrite (fire_capture_timeout h s id rid call d) by done.
    rewrite promiseState_settle, settle_pendingCaptures.
    assert (promiseState (deletePending rid (clearTimeout id s)) call = None) as ->
      by by destruct s.
    rewrite decide_True by done. split; [done|].
    destruct s; simpl. apply lookup_delete_eq. }
  destruct Hfire as [Hrej Hrm].
  split; [done|]. split; [done|]. split.
  - unfold step. by rewrite drain_promiseState.
  - unfold captureTimeout, probeFailure. intros Hin.
    repeat (apply elem_of_cons in Hin as [Hin|Hin]; [discriminate|]).
    by apply elem_of_nil in Hin.
Qed.

Lemma capture_timeout_witness :
  promiseState (step (readerHost 16500) (Fire 1) capturing) 1
  = Some (Rejected captureTimeout)
  ∧ pendingCaptures (handle (readerHost 16500) (Fire 1) capturing) !! "capture_1500" = None.
Proof.
  destruct (capture_timeout (readerHost 16500) capturing 1 "capture_1500" 1 16500)
    as (_ & _ & Hrm & Hrej & _).
  - reflexivity.
  - vm_compute. discriminate.
  - apply (bool_decide_unpack _). vm_compute. exact I.
  - reflexivity.
  - by split.
Defined.

(** C9: the object the Frame Agent sends holds the payload, the width and
    the height, and neither page number nor timestamp; the capture call
    resolves with that object stamped by the Orchestrator, in the handler
    of the response, with [Date.now()] and the page number read from the
    page input at that moment. *)
Theorem capture_result_stamped h s r img payload rid call :
  Frame.captureImage r img = inl payload →
  rid ≠ "" →
  pendingCaptures s !! rid = Some (CaptureRequest rid call) →
  call ∉ resolvedFlag s →
  promiseState s call = None →
  let m := Frame.pageCaptured rid (inl payload) in
  data m = Some payload
  ∧ is_Some (o_data payload) ∧ is_Some (o_width payload) ∧ is_Some (o_height payload)
  ∧ o_timestamp payload = None ∧ o_pageNumber payload = None
  ∧ ∃ page,
      promiseState (step h (Receive m) s) call = Some (Resolved (Some page))
      ∧ o_timestamp page = Some (now h)
      ∧ o_pageNumber page = Some (currentPage h)
      ∧ currentPage h = orNumber (pageInput h ≫= parseInt) 1
      ∧ o_data page = o_data payload
      ∧ o_width page = o_width payload
      ∧ o_height page = o_height payload.
Proof.
  intros Hcap Hne Hp Hres Hpend m.
  destruct (captureImage_fields _ _ _ Hcap) as (Hd & Hw & Hh & Hts & Hpn & _).
  split; [done|]. do 5 (split; [done|]).
  exists (stamp h payload).
  split; [|by repeat split].
  unfold step. rewrite drain_promiseState. simpl.
  rewrite (onMessage_capture_response h m s rid call) by done. simpl.
  rewrite promiseState_settle.
  destruct (retired_lookups rid call s) as (_ & _ & _ & Hlog & _).
  unfold promiseState in *. rewrite Hlog, Hpend. by rewrite decide_True.
Qed.

Lemma capture_result_stamped_witness :
  ∃ page,
    promiseState
      (step (readerHost 1800)
         (Receive (Frame.pageCaptured "capture_1500" (inl pagePayload))) capturing) 1
    = Some (Resolved (Some page))
    ∧ o_timestamp page = Some 1800 ∧ o_pageNumber page = Some 5.
Proof.
  destruct (capture_result_stamped (readerHost 1800) capturing jpegRaster pageImage
              pagePayload "capture_1500" 1)
    as (_ & _ & _ & _ & _ & _ & page & Hp & Hts & Hpn & _).
  - reflexivity.
  - discriminate.
  - reflexivity.
  - apply (bool_decide_unpack _). vm_compute. exact I.
  - reflexivity.
  - exists page. by repeat split.
Defined.

End Capture.

(** ** The first response wins *)

Section FirstResponse.

Implicit Types (s : State) (h : Host) (o : Outcome) (call id : nat) (rid : string)
  (m : Message) (l : Locals) (k : Cont).

(** Settling a pending promise wakes the code that awaits it. *)
Lemma settle_wakes s call o k :
  promiseState s call = None → awaiting s !! call = Some k →
  settle call o s
  = set_woken (woken s ++ [(k, o)])
      (set_awaiting (delete call (awaiting s))
         (set_settleCalls (settleCalls s ++ [(call, o)]) s)).
Proof. unfold settle. by intros -> ->. Qed.

Lemma resume_afterCapture_pages l o h s :
  capturedPages (resume (AfterCapture l) o h s)
  = match o with
    | Resolved v => capturedPages s ++ [v]
    | Rejected _ => capturedPages s
    end.
Proof.
  destruct o; unfold_loop; destruct (nextButton h); repeat case_match;
    simplify_eq; by destruct s.
Qed.

Lemma resume_awaiting k o h s :
  (∀ l, k ≠ AfterSettle l) → awaiting (resume k o h s) = awaiting s.
Proof.
  intros Hk. destruct k; try (by destruct (Hk l)); destruct o;
    unfold_loop; destruct (nextButton h); repeat case_match; simplify_eq; by destruct s.
Qed.

(** The step taken on a capture response while the loop awaits the call:
    the entry is retired, the promise settled, and the loop resumed. *)
Lemma step_capture_response h s m rid call l :
  type m = "VS_PAGE_CAPTURED" → requestId m = rid → rid ≠ "" →
  pendingCaptures s !! rid = Some (CaptureRequest rid call) →
  call ∉ resolvedFlag s →
  promiseState s call = None →
  awaiting s !! call = Some (AfterCapture l) →
  woken s = [] →
  ∀ o, (o = Rejected (orString (error m) "Capture failed") ∧ success m = false)
       ∨ (∃ d, o = Resolved (Some (stamp h d)) ∧ success m = true ∧ data m = Some d) →
  step h (Receive m) s
  = resume (AfterCapture l) o h
      (set_woken []
         (set_awaiting (delete call (awaiting s))
            (set_settleCalls (settleCalls s ++ [(call, o)]) (retired rid call s)))).
Proof.
  intros Hty Hrid Hne Hp Hres Hpend Haw Hq o Ho.
  unfold step. simpl. rewrite (onMessage_capture_response h m s rid call) by done.
  destruct (retired_lookups rid call s) as (_ & _ & _ & Hlog & Hw & Ha).
  assert (Hpend' : promiseState (retired rid call s) call = None).
  { unfold promiseState in *. by rewrite Hlog. }
  assert (Haw' : awaiting (retired rid call s) !! call = Some (AfterCapture l))
    by by rewrite Ha.
  assert (Hset : (if success m
                  then match data m with
                       | Some d => settle call (Resolved (Some (stamp h d))) (retired rid call s)
                       | None => retired rid call s
                       end
                  else settle call (Rejected (orString (error m) "Capture failed"))
                         (retired rid call s))
                 = settle call o (retired rid call s)).
  { destruct Ho as [[-> ->]|(d & -> & -> & ->)]; done. }
  rewrite Hset, (settle_wakes _ _ _ _ Hpend' Haw'), Hw, Hq, Ha, Hlog. simpl.
  erewrite drain_one; [|by destruct (retired rid call s)].
  f_equal. by destruct (retired rid call s).
Qed.



(** C10: a first matching response that does not settle the request.  The
    loop waits for the capture request of 1500 ms, whose timeout is due at
    16500 ms.  A [VS_PAGE_CAPTURED] message with that request id, flagged
    successful and without [data], arrives first: the listener finds the
    entry and calls its [resolve], which sets the flag, clears the timeout
    and deletes the entry, then throws on [data.timestamp] before it
    resolves the promise.  The promise is left pending and the loop
    suspended; the well-formed answer of the page-bearing frame and the
    time at which the timeout was due change nothing any more. *)
Lemma first_response_without_payload_settles_nothing :
  let first := MkMessage "VS_PAGE_CAPTURED" "capture_1500" true None "" false "" in
  let s1 := step (readerHost 1800) (Receive first) capturing in
  let s2 := run [(readerHost 1900, Receive (answerOf "capture_1500"));
                 (readerHost 16500, Fire 1)] s1 in
  pendingCaptures capturing !! "capture_1500" = Some (CaptureRequest "capture_1500" 1)
  ∧ timers capturing !! 1%nat = Some (MkTimer 16500 (CaptureTimeout "capture_1500" 1))
  ∧ awaiting capturing !! 1%nat = Some (AfterCapture (MkLocals 1 5 0))
  ∧ promiseState s1 1 = None
  ∧ pendingCaptures s1 !! "capture_1500" = None
  ∧ timers s1 !! 1%nat = None
  ∧ awaiting s1 !! 1%nat = Some (AfterCapture (MkLocals 1 5 0))
  ∧ success (answerOf "capture_1500") = true
  ∧ is_Some (data (answerOf "capture_1500"))
  ∧ s2 = s1
  ∧ promiseState s2 1 = None ∧ isRunning s2 = true ∧ capturedPages s2 = [].
Proof.
  cbv zeta. repeat split; try by vm_compute.
  vm_compute. by eexists.
Qed.

End FirstResponse.

(** ** The pagination loop at the end of the document *)

Section EndOfDocument.

Implicit Types (s : State) (h : Host) (o : Outcome) (l : Locals) (v : Value).

(** C5 as stated fails for the absent control: the page is captured, no
    next-page control is found, and the run ends with an error status. *)
Lemma absent_control_reports_error :
  let s1 := step (bookHost 1800 NextAbsent)
              (Receive (Frame.pageCaptured "capture_1500" (inl pagePayload)))
              capturingBook in
  isRunning capturingBook = true
  ∧ awaiting capturingBook !! 1%nat = Some (AfterCapture (MkLocals 10 5 0))
  ∧ isRunning s1 = false
  ∧ length (capturedPages s1) = 1%nat
  ∧ status s1 = ("Error on page 5: No Next button", "error").
Proof. vm_compute. by repeat split. Qed.

(** C5, amended: when a page has been captured below the page limit and
    the advance-page control is disabled, the loop ends as a success
    ("Done!") with the pages captured so far; when the control is absent
    the loop ends too, with the same pages and without arming a timer or
    sending a request, but it reports the error "No Next button". *)
Theorem loop_ends_without_next_control l v h s :
  (captured l + 1 < pageLimit l)%Z →
  nextButton h ≠ NextEnabled →
  let s1 := resume (AfterCapture l) (Resolved v) h s in
  isRunning s1 = false
  ∧ capturedPages s1 = capturedPages s ++ [v]
  ∧ timers s1 = timers s
  ∧ pendingCaptures s1 = pendingCaptures s
  ∧ effects s1 = effects s
  ∧ (nextButton h = NextDisabled →
       status s1 = ("Done! " +:+ pretty (length (capturedPages s ++ [v]))
                    +:+ " pages captured.", "success"))
  ∧ (nextButton h = NextAbsent →
       status s1 = ("Error on page " +:+ pretty (pageNum l) +:+ ": No Next button", "error")).
Proof.
  intros Hlim Hnext s1. subst s1. unfold_loop. simpl.
  rewrite bool_decide_eq_false_2 by lia.
  destruct (nextButton h); [| |done]; simpl; destruct s; simpl; by repeat split.
Qed.

Lemma loop_ends_without_next_control_witness :
  status (resume (AfterCapture (MkLocals 10 5 0)) (Resolved (Some pagePayload))
            (bookHost 1800 NextDisabled) capturingBook)
  = ("Done! 1 pages captured.", "success").
Proof.
  destruct (loop_ends_without_next_control (MkLocals 10 5 0) (Some pagePayload)
              (bookHost 1800 NextDisabled) capturingBook)
    as (_ & _ & _ & _ & _ & Hdone & _).
  - simpl. lia.
  - discriminate.
  - by apply Hdone.
Defined.

End EndOfDocument.

(** ** Call numbers are fresh *)

Section Fresh.

Implicit Types (s : State) (h : Host) (o : Outcome) (c call id : nat) (rid k : string)
  (m : Message) (l : Locals) (e : Pending).

Lemma wf_core s s' : core s = core s' → wf s → wf s'.
Proof.
  destruct s, s'. unfold core, wf, uses, entryAt, timerAt. simpl.
  by intros [= -> -> -> -> ->].
Qed.

Lemma wf_initial : wf initial.
Proof.
  split.
  - intros c [(k & e & H & _)|[(id & t & H & _)|[H|H]]]; simpl in *.
    + by rewrite lookup_empty in H.
    + by rewrite lookup_empty in H.
    + by apply elem_of_nil in H.
    + by apply not_elem_of_empty in H.
  - intros id [t H]. simpl in H. by rewrite lookup_empty in H.
Qed.

Lemma wf_deletePending s k : wf s → wf (deletePending k s).
Proof.
  destruct s. unfold wf, uses, entryAt, timerAt. simpl. intros [Hu Ht]. split; [|done].
  intros c [(k' & e & H & He)|H]; apply Hu; [left|by right].
  exists k', e. split; [|done]. by apply lookup_delete_Some in H as [_ ?].
Qed.

Lemma wf_clearTimeout s id : wf s → wf (clearTimeout id s).
Proof.
  destruct s. unfold wf, uses, entryAt, timerAt. simpl. intros [Hu Ht]. split.
  - intros c [H|[(id' & t & H & He)|H]]; apply Hu; [by left| |by right; right].
    right; left. exists id', t. split; [|done]. by apply lookup_delete_Some in H as [_ ?].
  - intros id' [t H]. apply Ht. exists t. by apply lookup_delete_Some in H as [_ ?].
Qed.

Lemma wf_markResolved s c : wf s → (c < fresh s)%nat → wf (markResolved c s).
Proof.
  destruct s. unfold wf, uses, entryAt, timerAt. simpl. intros [Hu Ht] Hc. split; [|done].
  intros c' [H|[H|[H|H]]]; [apply Hu; by left|apply Hu; by right; left
                            |apply Hu; by right; right; left|].
  apply elem_of_union in H as [H|H]; [|apply Hu; by right; right; right].
  apply elem_of_singleton in H. by subst.
Qed.

Lemma settle_core s c o :
  core (settle c o s) = core (set_settleCalls (settleCalls s ++ [(c, o)]) s).
Proof. unfold settle. repeat case_match; by destruct s. Qed.

Lemma wf_settle s c o : wf s → (c < fresh s)%nat → wf (settle c o s).
Proof.
  intros Hwf Hc. eapply wf_core; [symmetry; apply settle_core|].
  destruct s. unfold wf, uses, entryAt, timerAt in *. simpl in *.
  destruct Hwf as [Hu Ht]. split; [|done].
  intros c' [H|[H|[H|H]]]; [apply Hu; by left|apply Hu; by right; left
                            | |apply Hu; by right; right; right].
  rewrite fmap_app in H. apply elem_of_app in H as [H|H]; [apply Hu; by right; right; left|].
  apply list_elem_of_singleton in H. by subst.
Qed.

Create HintDb wfdb.

Lemma wf_set_capturedPages v s : wf s → wf (set_capturedPages v s).
Proof. apply wf_core. by destruct s. Qed.
Lemma wf_set_isRunning v s : wf s → wf (set_isRunning v s).
Proof. apply wf_core. by destruct s. Qed.
Lemma wf_set_readyFrames v s : wf s → wf (set_readyFrames v s).
Proof. apply wf_core. by destruct s. Qed.
Lemma wf_set_awaiting v s : wf s → wf (set_awaiting v s).
Proof. apply wf_core. by destruct s. Qed.
Lemma wf_set_woken v s : wf s → wf (set_woken v s).
Proof. apply wf_core. by destruct s. Qed.
Lemma wf_set_status v s : wf s → wf (set_status v s).
Proof. apply wf_core. by destruct s. Qed.
Lemma wf_set_effects v s : wf s → wf (set_effects v s).
Proof. apply wf_core. by destruct s. Qed.

Hint Resolve wf_set_capturedPages wf_set_isRunning wf_set_readyFrames wf_set_awaiting
  wf_set_woken wf_set_status wf_set_effects wf_deletePending wf_clearTimeout : wfdb.

Lemma wf_entry s k e : wf s → pendingCaptures s !! k = Some e → (entryCall e < fresh s)%nat.
Proof. intros [Hu _] H. apply Hu. left. by exists k, e. Qed.

Lemma wf_timeout s id t c :
  wf s → timers s !! id = Some t → timeoutCall (callback t) = Some c → (c < fresh s)%nat.
Proof. intros [Hu _] H Hc. apply Hu. right; left. by exists id, t. Qed.

Lemma wf_entryResolve h e v s : wf s → (entryCall e < fresh s)%nat → wf (entryResolve h e v s).
Proof.
  intros Hwf Hc. destruct e as [c|r c]; simpl in *.
  - apply wf_settle; [auto with wfdb | by destruct s].
  - case_decide; [done|].
    assert (wf (deletePending r (clearTimeout c (markResolved c s)))).
    { apply wf_deletePending, wf_clearTimeout. by apply wf_markResolved. }
    destruct v; [|done]. apply wf_settle; [done | by destruct s].
Qed.

Lemma wf_entryReject e msg s : wf s → (entryCall e < fresh s)%nat → wf (entryReject e msg s).
Proof.
  intros Hwf Hc. destruct e as [c|r c]; simpl in *.
  - by apply wf_settle.
  - case_decide; [done|]. apply wf_settle; [|by destruct s].
    apply wf_deletePending, wf_clearTimeout. by apply wf_markResolved.
Qed.

Lemma wf_onMessage h m s : wf s → wf (onMessage h m s).
Proof.
  intros Hwf. unfold onMessage. case_match; [done|].
  assert (H1 : wf (onPageCaptured h m s)).
  { unfold onPageCaptured. case_match; [|done].
    destruct (pendingCaptures s !! requestId m) as [e|] eqn:He; [|done].
    pose proof (wf_entry _ _ _ Hwf He).
    case_match; [apply wf_entryResolve | apply wf_entryReject];
      auto with wfdb; by destruct s. }
  assert (H2 : wf (onPong h m (onPageCaptured h m s))).
  { unfold onPong. case_match; [|done].
    destruct (pendingCaptures _ !! requestId m) as [e|] eqn:He; [|done].
    pose proof (wf_entry _ _ _ H1 He).
    case_match; [|done]. apply wf_entryResolve; auto with wfdb.
    by destruct (onPageCaptured h m s). }
  unfold onIframeReady. case_match; auto with wfdb.
Qed.

Lemma wf_fire id h s : wf s → wf (fire id h s).
Proof.
  intros Hwf. unfold fire. destruct (timers s !! id) as [t|] eqn:Ht; [|done].
  case_match; [|done]. unfold runCallback.
  destruct (callback t) as [rid c|rid c|k] eqn:Hcb.
  - assert (c < fresh s)%nat by (eapply wf_timeout; [done..|by rewrite Hcb]).
    unfold pingTimedOut. case_match; apply wf_settle; auto with wfdb; by destruct s.
  - assert (c < fresh s)%nat by (eapply wf_timeout; [done..|by rewrite Hcb]).
    unfold captureTimedOut. destruct (decide (c ∈ _)); auto with wfdb.
    apply wf_settle; auto with wfdb; by destruct s.
  - auto with wfdb.
Qed.

(** Registering a request or a timer takes the next call number. *)
Lemma wf_register s (pend : gmap string Pending) (tim : gmap nat Timer) :
  wf s →
  (∀ k e, pend !! k = Some e →
          pendingCaptures s !! k = Some e ∨ entryCall e = fresh s) →
  (∀ id t, tim !! id = Some t →
           timers s !! id = Some t
           ∨ (id = fresh s ∧ ∀ c, timeoutCall (callback t) = Some c → c = fresh s)) →
  wf (set_pendingCaptures pend (set_timers tim (set_fresh (S (fresh s)) s))).
Proof.
  destruct s. unfold wf, uses, entryAt, timerAt. simpl.
  intros [Hu Ht] Hp Htm. split.
  - intros c [(k & e & H & He)|[(id & t & H & He)|H]].
    + destruct (Hp _ _ H) as [H'|H']; [|lia].
      apply Nat.lt_lt_succ_r, Hu. left. by exists k, e.
    + destruct (Htm _ _ H) as [H'|[_ H']]; [|rewrite (H' _ He); lia].
      apply Nat.lt_lt_succ_r, Hu. right; left. by exists id, t.
    + apply Nat.lt_lt_succ_r, Hu. by right; right.
  - intros id [t H]. destruct (Htm _ _ H) as [H'|[-> _]]; [|lia].
    apply Nat.lt_lt_succ_r, Ht. by exists t.
Qed.

Lemma wf_sleep ms (k : Cont) h s : wf s → wf (sleep ms k h s).
Proof.
  intros Hwf.
  eapply wf_core; [|apply (wf_register s (pendingCaptures s)
                             (<[fresh s := MkTimer (now h + ms) (Wake k)]> (timers s)) Hwf)].
  - by destruct s.
  - auto.
  - intros id t [[-> <-]|[_ ?]]%lookup_insert_Some; [right|by left]. by split.
Qed.

Lemma wf_captureCurrentPage h s : wf s → wf (captureCurrentPage h s).2.
Proof.
  intros Hwf. set (rid := "capture_" +:+ pretty (now h)).
  eapply wf_core;
    [|apply (wf_register s (<[rid := CaptureRequest rid (fresh s)]> (pendingCaptures s))
               (<[fresh s := MkTimer (now h + 15000) (CaptureTimeout rid (fresh s))]>
                  (timers s)) Hwf)].
  - by destruct s.
  - intros k e [[_ <-]|[_ ?]]%lookup_insert_Some; [by right | by left].
  - intros id t [[-> <-]|[_ ?]]%lookup_insert_Some; [right|by left].
    split; [done|]. by intros c [= <-].
Qed.

Lemma wf_pingIframe h s : wf s → wf (pingIframe h s).2.
Proof.
  intros Hwf. unfold pingIframe. case_match; [done|].
  set (rid := "ping_" +:+ pretty (now h)).
  eapply wf_core;
    [|apply (wf_register s (<[rid := PingRequest (fresh s)]> (pendingCaptures s))
               (<[fresh s := MkTimer (now h + 5000) (PingTimeout rid (fresh s))]>
                  (timers s)) Hwf)].
  - by destruct s.
  - intros k e [[_ <-]|[_ ?]]%lookup_insert_Some; [by right | by left].
  - intros id t [[-> <-]|[_ ?]]%lookup_insert_Some; [right|by left].
    split; [done|]. by intros c [= <-].
Qed.

Hint Resolve wf_sleep wf_captureCurrentPage wf_pingIframe : wfdb.

Lemma wf_resume (k : Cont) o h s : wf s → wf (resume k o h s).
Proof.
  intros Hwf.
  assert (Hcap : ∀ l, wf (resume (AfterSettle l) o h s)).
  { intros l. unfold resume.
    destruct (captureCurrentPage h s) as [call s1] eqn:Hc.
    apply wf_set_awaiting. change s1 with (call, s1).2. rewrite <- Hc. auto with wfdb. }
  destruct k; [|apply Hcap|..]; destruct o;
    unfold resume, catchBlock, goToNextPage, loopHead, finish, done, updateStatus;
    destruct (nextButton h); repeat case_match; simplify_eq; auto 10 with wfdb.
Qed.

Lemma wf_startCapture h s : wf s → wf (startCapture h s).
Proof.
  intros Hwf. unfold startCapture. case_match; [done|].
  destruct (pingIframe h _) as [[o|call] s1] eqn:Hping.
  - apply wf_resume. change s1 with (Already o, s1).2. rewrite <- Hping.
    unfold updateStatus. auto with wfdb.
  - apply wf_set_awaiting. change s1 with (Later call, s1).2. rewrite <- Hping.
    unfold updateStatus. auto with wfdb.
Qed.

Lemma wf_handle h (e : Event) s : wf s → wf (handle h e s).
Proof.
  intros Hwf. destruct e; simpl.
  - repeat case_match; auto using wf_startCapture with wfdb.
    unfold generatePDF, updateStatus. repeat case_match; auto with wfdb.
  - unfold updateStatus. auto with wfdb.
  - auto with wfdb.
  - by apply wf_onMessage.
  - by apply wf_fire.
Qed.

Lemma wf_drain h s : wf s → wf (drain h s).
Proof.
  intros Hwf. unfold drain.
  assert (Hs : wf (set_woken [] s)) by auto with wfdb.
  revert Hs. generalize (set_woken [] s). induction (woken s) as [|w ws IH]; intros s'; simpl.
  - done.
  - intros Hs. apply IH. by apply wf_resume.
Qed.

Lemma wf_step h (e : Event) s : wf s → wf (step h e s).
Proof. intros. by apply wf_drain, wf_handle. Qed.

Lemma wf_run trace s : wf s → wf (run trace s).
Proof.
  revert s. induction trace as [|[h e] trace IH]; intros s Hwf; simpl; [done|].
  by apply IH, wf_step.
Qed.

(** Every state the Orchestrator can reach is well formed. *)
Lemma wf_reachable trace : wf (run trace initial).
Proof. apply wf_run, wf_initial. Qed.

End Fresh.

(** ** A capture request is settled at most once *)

Section AtMostOnce.

Implicit Types (s : State) (h : Host) (o : Outcome) (c call id : nat) (r rid k : string)
  (m : Message) (l : Locals) (e : Pending).

Lemma settleCount_app log c c' o :
  length (filter (λ x : nat * Outcome, x.1 = c) (log ++ [(c', o)]))
  = (length (filter (λ x : nat * Outcome, x.1 = c) log)
     + if decide (c' = c) then 1 else 0)%nat.
Proof.
  rewrite filter_app, length_app. f_equal.
  rewrite filter_cons, filter_nil. simpl. by destruct (decide (c' = c)).
Qed.

Lemma settleCount_settle s c c' o :
  settleCount (settle c' o s) c
  = (settleCount s c + if decide (c' = c) then 1 else 0)%nat.
Proof.
  unfold settleCount.
  assert (settleCalls (settle c' o s) = settleCalls s ++ [(c', o)]) as ->.
  { pose proof (settle_core s c' o) as H. destruct s.
    unfold core in H. simpl in *. by injection H. }
  apply settleCount_app.
Qed.

Lemma settleCount_zero s c : settleCount s c = 0%nat ↔ c ∉ (settleCalls s).*1.
Proof.
  unfold settleCount. induction (settleCalls s) as [|[c' o] log IH]; simpl.
  - split; [intros _; apply not_elem_of_nil | done].
  - rewrite filter_cons. simpl. rewrite not_elem_of_cons.
    destruct (decide (c' = c)) as [->|Hne]; simpl.
    + split; [done | by intros [? _]].
    + rewrite IH. split; [by split | by intros [_ ?]].
Qed.

Lemma promiseState_settleCount s c : promiseState s c = None ↔ settleCount s c = 0%nat.
Proof.
  unfold promiseState, settleCount. induction (settleCalls s) as [|[c' o] log IH]; simpl.
  - done.
  - rewrite filter_cons. simpl. rewrite bool_decide_decide.
    destruct (decide (c' = c)); simpl; [done | apply IH].
Qed.

Lemma tracked_core c r s s' : core s = core s' → tracked c r s → tracked c r s'.
Proof.
  destruct s, s'. unfold core. simpl. intros [= -> -> -> -> ->] [H1 H2 H3 H4].
  by constructor.
Qed.

Lemma tracked_deletePending c r s k : tracked c r s → tracked c r (deletePending k s).
Proof.
  intros [H1 H2 H3 H4].
  assert (Hsub : ∀ k' e, entryAt (deletePending k s) c k' e → entryAt s c k' e).
  { intros k' e [H He]. split; [|done]. destruct s; simpl in *.
    by apply lookup_delete_Some in H as [_ ?]. }
  constructor.
  - by destruct s.
  - intros k' e H. by apply H2, Hsub.
  - destruct s. exact H3.
  - destruct H4 as [H4|[H4 [Hd1 Hd2]]]; [left; by destruct s|right].
    split; [by destruct s|]. split.
    + intros k' e H. by apply (Hd1 k' e), Hsub.
    + destruct s. exact Hd2.
Qed.

Lemma tracked_clearTimeout c r s id : tracked c r s → tracked c r (clearTimeout id s).
Proof.
  intros [H1 H2 H3 H4].
  assert (Hsub : ∀ id' t, timerAt (clearTimeout id s) c id' t → timerAt s c id' t).
  { intros id' t [H He]. split; [|done]. destruct s; simpl in *.
    by apply lookup_delete_Some in H as [_ ?]. }
  constructor.
  - by destruct s.
  - destruct s. exact H2.
  - intros id' t H. by apply H3, Hsub.
  - destruct H4 as [H4|[H4 [Hd1 Hd2]]]; [left; by destruct s|right].
    split; [by destruct s|]. split.
    + destruct s. exact Hd1.
    + intros id' t H. by apply (Hd2 id' t), Hsub.
Qed.

Lemma tracked_markResolved c r s c' : c' ≠ c → tracked c r s → tracked c r (markResolved c' s).
Proof.
  intros Hne [H1 H2 H3 H4]. constructor.
  - by destruct s.
  - destruct s. exact H2.
  - destruct s. exact H3.
  - destruct H4 as [[H4 H5]|H4]; [left|right; by destruct s].
    split; [by destruct s|]. destruct s; simpl in *.
    intros [?%elem_of_singleton|?]%elem_of_union; [congruence | done].
Qed.

Lemma tracked_settle c r s c' o : c' ≠ c → tracked c r s → tracked c r (settle c' o s).
Proof.
  intros Hne [H1 H2 H3 H4].
  eapply tracked_core; [symmetry; apply settle_core|].
  assert (Hcount : settleCount (set_settleCalls (settleCalls s ++ [(c', o)]) s) c
                   = settleCount s c).
  { destruct s. unfold settleCount. simpl.
    rewrite settleCount_app, decide_False by done. lia. }
  constructor.
  - by destruct s.
  - destruct s. exact H2.
  - destruct s. exact H3.
  - rewrite Hcount. by destruct s.
Qed.

Lemma settle_fresh s c o : fresh (settle c o s) = fresh s.
Proof. unfold settle. repeat case_match; by destruct s. Qed.

Lemma settle_resolvedFlag s c o : resolvedFlag (settle c o s) = resolvedFlag s.
Proof. unfold settle. repeat case_match; by destruct s. Qed.

(** A live call has neither been settled nor flagged. *)
Lemma tracked_live_entry c r s k e :
  tracked c r s → entryAt s c k e →
  k = r ∧ e = CaptureRequest r c ∧ settleCount s c = 0%nat ∧ c ∉ resolvedFlag s.
Proof.
  intros [H1 H2 H3 H4] He. destruct (H2 _ _ He) as [-> ->].
  destruct H4 as [[? ?]|[_ [Hd _]]]; [done|]. by destruct (Hd _ _ He).
Qed.

Lemma tracked_live_timer c r s id t :
  tracked c r s → timerAt s c id t →
  id = c ∧ callback t = CaptureTimeout r c ∧ settleCount s c = 0%nat.
Proof.
  intros [H1 H2 H3 H4] Ht. destruct (H3 _ _ Ht) as [-> Hcb].
  destruct H4 as [[? ?]|[_ [_ Hd]]]; [done|]. by destruct (Hd _ _ Ht).
Qed.

(** Retiring the call: once its entry and its timer are removed, with at
    most one call of [resolve] or [reject], it stays settled at most once. *)
Lemma tracked_retired c r s s' :
  tracked c r s →
  (∀ k e, pendingCaptures s' !! k = Some e → k ≠ r ∧ pendingCaptures s !! k = Some e) →
  (∀ id t, timers s' !! id = Some t → id ≠ c ∧ timers s !! id = Some t) →
  fresh s' = fresh s →
  (settleCount s' c ≤ 1)%nat →
  tracked c r s'.
Proof.
  intros [H1 H2 H3 H4] Hp Ht Hf Hcount.
  assert (Hd : dead s' c).
  { split.
    - intros k e [Hk He]. destruct (Hp _ _ Hk) as [Hne Hk'].
      destruct (H2 k e); [by split | done].
    - intros id t [Hid Hc]. destruct (Ht _ _ Hid) as [Hne Hid'].
      destruct (H3 id t); [by split | done]. }
  constructor.
  - by rewrite Hf.
  - intros k e He. by destruct (proj1 Hd k e).
  - intros id t Hid. by destruct (proj2 Hd id t).
  - by right.
Qed.

Lemma retired_sub rid call s :
  (∀ k e, pendingCaptures (retired rid call s) !! k = Some e
          → k ≠ rid ∧ pendingCaptures s !! k = Some e)
  ∧ (∀ id t, timers (retired rid call s) !! id = Some t
             → id ≠ call ∧ timers s !! id = Some t)
  ∧ fresh (retired rid call s) = fresh s.
Proof.
  destruct s; simpl. split; [|split; [|done]].
  - intros k e [? [_ ?]%lookup_delete_Some]%lookup_delete_Some. by split.
  - intros id t [? ?]%lookup_delete_Some. by split.
Qed.

Lemma tracked_own_settle c r s o :
  tracked c r s → settleCount s c = 0%nat →
  tracked c r (settle c o (retired r c s)) ∧ tracked c r (retired r c s).
Proof.
  intros Htr Hzero.
  destruct (retired_sub r c s) as (Hp & Ht & Hf).
  destruct (retired_lookups r c s) as (_ & _ & _ & Hlog & _).
  assert (Hcount : settleCount (retired r c s) c = 0%nat).
  { unfold settleCount in *. by rewrite Hlog. }
  split.
  - apply (tracked_retired c r s); [done|..].
    + by rewrite settle_pendingCaptures.
    + by rewrite settle_timers.
    + by rewrite settle_fresh.
    + rewrite settleCount_settle, Hcount, decide_True by done. lia.
  - apply (tracked_retired c r s); [done..|]. lia.
Qed.

Lemma tracked_entryResolve c r h e v s k :
  tracked c r s → pendingCaptures s !! k = Some e →
  tracked c r (entryResolve h e v (deletePending k s)).
Proof.
  intros Htr He. destruct (decide (entryCall e = c)) as [Hown|Hother].
  - destruct (tracked_live_entry c r s k e Htr) as (-> & -> & Hzero & Hres); [done|].
    simpl. rewrite decide_False by by destruct s.
    fold (retired r c s). destruct (tracked_own_settle c r s
      (Resolved (stamp h <$> v)) Htr Hzero) as [H1 H2].
    destruct v; [exact H1 | exact H2].
  - destruct e as [c'|r' c']; simpl in *.
    + by apply tracked_settle, tracked_clearTimeout, tracked_deletePending.
    + case_decide; [by apply tracked_deletePending|].
      assert (tracked c r (deletePending r' (clearTimeout c'
                (markResolved c' (deletePending k s))))).
      { apply tracked_deletePending, tracked_clearTimeout, tracked_markResolved;
          [done|]. by apply tracked_deletePending. }
      destruct v; [by apply tracked_settle | done].
Qed.

Lemma tracked_entryReject c r e msg s k :
  tracked c r s → pendingCaptures s !! k = Some e →
  tracked c r (entryReject e msg (deletePending k s)).
Proof.
  intros Htr He. destruct (decide (entryCall e = c)) as [Hown|Hother].
  - destruct (tracked_live_entry c r s k e Htr) as (-> & -> & Hzero & Hres); [done|].
    simpl. rewrite decide_False by by destruct s.
    fold (retired r c s). by apply tracked_own_settle.
  - destruct e as [c'|r' c']; simpl in *.
    + by apply tracked_settle, tracked_deletePending.
    + case_decide; [by apply tracked_deletePending|].
      apply tracked_settle; [done|].
      apply tracked_deletePending, tracked_clearTimeout, tracked_markResolved;
        [done|]. by apply tracked_deletePending.
Qed.

Create HintDb trdb.

Lemma tracked_set_capturedPages c r v s : tracked c r s → tracked c r (set_capturedPages v s).
Proof. apply tracked_core. by destruct s. Qed.
Lemma tracked_set_isRunning c r v s : tracked c r s → tracked c r (set_isRunning v s).
Proof. apply tracked_core. by destruct s. Qed.
Lemma tracked_set_readyFrames c r v s : tracked c r s → tracked c r (set_readyFrames v s).
Proof. apply tracked_core. by destruct s. Qed.
Lemma tracked_set_awaiting c r v s : tracked c r s → tracked c r (set_awaiting v s).
Proof. apply tracked_core. by destruct s. Qed.
Lemma tracked_set_woken c r v s : tracked c r s → tracked c r (set_woken v s).
Proof. apply tracked_core. by destruct s. Qed.
Lemma tracked_set_status c r v s : tracked c r s → tracked c r (set_status v s).
Proof. apply tracked_core. by destruct s. Qed.
Lemma tracked_set_effects c r v s : tracked c r s → tracked c r (set_effects v s).
Proof. apply tracked_core. by destruct s. Qed.

Hint Resolve tracked_set_capturedPages tracked_set_isRunning tracked_set_readyFrames
  tracked_set_awaiting tracked_set_woken tracked_set_status tracked_set_effects
  tracked_deletePending tracked_clearTimeout : trdb.

Lemma tracked_onMessage c r h m s : tracked c r s → tracked c r (onMessage h m s).
Proof.
  intros Htr. unfold onMessage. case_match; [done|].
  assert (H1 : tracked c r (onPageCaptured h m s)).
  { unfold onPageCaptured. case_match; [|done].
    destruct (pendingCaptures s !! requestId m) as [e|] eqn:He; [|done].
    case_match; [by eapply tracked_entryResolve | by eapply tracked_entryReject]. }
  assert (H2 : tracked c r (onPong h m (onPageCaptured h m s))).
  { unfold onPong. case_match; [|done].
    destruct (pendingCaptures _ !! requestId m) as [e|] eqn:He; [|done].
    case_match; [|done]. by eapply tracked_entryResolve. }
  unfold onIframeReady. case_match; auto with trdb.
Qed.

Lemma tracked_fire c r id h s : tracked c r s → tracked c r (fire id h s).
Proof.
  intros Htr. unfold fire. destruct (timers s !! id) as [t|] eqn:Ht; [|done].
  case_match; [|done]. unfold runCallback.
  destruct (callback t) as [rid c'|rid c'|k'] eqn:Hcb.
  - assert (c' ≠ c).
    { intros ->. destruct (tracked_live_timer c r s id t Htr) as (_ & Hcb' & _).
      - split; [done | by rewrite Hcb].
      - congruence. }
    unfold pingTimedOut. case_match; apply tracked_settle; auto with trdb.
  - unfold captureTimedOut. destruct (decide (c' ∈ _)); [auto with trdb|].
    destruct (decide (c' = c)) as [->|Hne]; [|apply tracked_settle; auto with trdb].
    destruct (tracked_live_timer c r s id t Htr) as (-> & Hcb' & Hzero).
    { split; [done | by rewrite Hcb]. }
    assert (rid = r) as -> by congruence.
    apply (tracked_retired c r s); [done|..].
    + rewrite settle_pendingCaptures. destruct s; simpl.
      intros k e [? ?]%lookup_delete_Some. by split.
    + rewrite settle_timers. destruct s; simpl.
      intros id t' [? ?]%lookup_delete_Some. by split.
    + rewrite settle_fresh. by destruct s.
    + rewrite settleCount_settle, decide_True by done.
      assert (settleCount (deletePending r (clearTimeout c s)) c = settleCount s c) as ->
        by by destruct s.
      lia.
  - auto with trdb.
Qed.

(** Later registrations take later call numbers and leave the call alone. *)
Lemma tracked_register c r s (pend : gmap string Pending) (tim : gmap nat Timer) :
  tracked c r s →
  (∀ k e, pend !! k = Some e →
          pendingCaptures s !! k = Some e ∨ entryCall e = fresh s) →
  (∀ id t, tim !! id = Some t →
           timers s !! id = Some t
           ∨ (id = fresh s ∧ ∀ c', timeoutCall (callback t) = Some c' → c' = fresh s)) →
  tracked c r (set_pendingCaptures pend (set_timers tim (set_fresh (S (fresh s)) s))).
Proof.
  intros [H1 H2 H3 H4] Hp Ht.
  assert (He : ∀ k e, entryAt (set_pendingCaptures pend
                 (set_timers tim (set_fresh (S (fresh s)) s))) c k e → entryAt s c k e).
  { intros k e [Hk Hc]. split; [|done]. destruct s; simpl in *.
    destruct (Hp _ _ Hk) as [?|?]; [done | lia]. }
  assert (Hti : ∀ id t, timerAt (set_pendingCaptures pend
                  (set_timers tim (set_fresh (S (fresh s)) s))) c id t → timerAt s c id t).
  { intros id t [Hid Hc]. split; [|done]. destruct s; simpl in *.
    destruct (Ht _ _ Hid) as [?|[_ Hnew]]; [done|]. specialize (Hnew _ Hc). lia. }
  constructor.
  - destruct s; simpl in *. lia.
  - intros k e H. by apply H2, He.
  - intros id t H. by apply H3, Hti.
  - destruct H4 as [H4|[H4 [Hd1 Hd2]]]; [left; by destruct s|right].
    split; [by destruct s|]. split.
    + intros k e H. by apply (Hd1 k e), He.
    + intros id t H. by apply (Hd2 id t), Hti.
Qed.

Lemma tracked_sleep c r ms (k : Cont) h s : tracked c r s → tracked c r (sleep ms k h s).
Proof.
  intros Htr.
  eapply tracked_core;
    [|apply (tracked_register c r s (pendingCaptures s)
               (<[fresh s := MkTimer (now h + ms) (Wake k)]> (timers s)) Htr)].
  - by destruct s.
  - auto.
  - intros id t [[-> <-]|[_ ?]]%lookup_insert_Some; [right|by left]. by split.
Qed.

Lemma tracked_captureCurrentPage c r h s :
  tracked c r s → tracked c r (captureCurrentPage h s).2.
Proof.
  intros Htr. set (rid := "capture_" +:+ pretty (now h)).
  eapply tracked_core;
    [|apply (tracked_register c r s
               (<[rid := CaptureRequest rid (fresh s)]> (pendingCaptures s))
               (<[fresh s := MkTimer (now h + 15000) (CaptureTimeout rid (fresh s))]>
                  (timers s)) Htr)].
  - by destruct s.
  - intros k e [[_ <-]|[_ ?]]%lookup_insert_Some; [by right | by left].
  - intros id t [[-> <-]|[_ ?]]%lookup_insert_Some; [right|by left].
    split; [done|]. by intros c' [= <-].
Qed.

Lemma tracked_pingIframe c r h s : tracked c r s → tracked c r (pingIframe h s).2.
Proof.
  intros Htr. unfold pingIframe. case_match; [done|].
  set (rid := "ping_" +:+ pretty (now h)).
  eapply tracked_core;
    [|apply (tracked_register c r s (<[rid := PingRequest (fresh s)]> (pendingCaptures s))
               (<[fresh s := MkTimer (now h + 5000) (PingTimeout rid (fresh s))]>
                  (timers s)) Htr)].
  - by destruct s.
  - intros k e [[_ <-]|[_ ?]]%lookup_insert_Some; [by right | by left].
  - intros id t [[-> <-]|[_ ?]]%lookup_insert_Some; [right|by left].
    split; [done|]. by intros c' [= <-].
Qed.

Hint Resolve tracked_sleep tracked_captureCurrentPage tracked_pingIframe : trdb.

Lemma tracked_resume c r (k : Cont) o h s : tracked c r s → tracked c r (resume k o h s).
Proof.
  intros Htr.
  assert (Hcap : ∀ l, tracked c r (resume (AfterSettle l) o h s)).
  { intros l. unfold resume.
    destruct (captureCurrentPage h s) as [call s1] eqn:Hc.
    apply tracked_set_awaiting. change s1 with (call, s1).2. rewrite <- Hc.
    auto with trdb. }
  destruct k; [|apply Hcap|..]; destruct o;
    unfold resume, catchBlock, goToNextPage, loopHead, finish, done, updateStatus;
    destruct (nextButton h); repeat case_match; simplify_eq; auto 10 with trdb.
Qed.

Lemma tracked_startCapture c r h s : tracked c r s → tracked c r (startCapture h s).
Proof.
  intros Htr. unfold startCapture. case_match; [done|].
  destruct (pingIframe h _) as [[o|call] s1] eqn:Hping.
  - apply tracked_resume. change s1 with (Already o, s1).2. rewrite <- Hping.
    unfold updateStatus. auto with trdb.
  - apply tracked_set_awaiting. change s1 with (Later call, s1).2. rewrite <- Hping.
    unfold updateStatus. auto with trdb.
Qed.

Lemma tracked_handle c r h (ev : Event) s : tracked c r s → tracked c r (handle h ev s).
Proof.
  intros Htr. destruct ev; simpl.
  - repeat case_match; auto using tracked_startCapture with trdb.
    unfold generatePDF, updateStatus. repeat case_match; auto with trdb.
  - unfold updateStatus. auto with trdb.
  - auto with trdb.
  - by apply tracked_onMessage.
  - by apply tracked_fire.
Qed.

Lemma tracked_drain c r h s : tracked c r s → tracked c r (drain h s).
Proof.
  intros Htr. unfold drain.
  assert (Hs : tracked c r (set_woken [] s)) by auto with trdb.
  revert Hs. generalize (set_woken [] s). induction (woken s) as [|w ws IH]; intros s'; simpl.
  - done.
  - intros Hs. apply IH. by apply tracked_resume.
Qed.

Lemma tracked_step c r h (ev : Event) s : tracked c r s → tracked c r (step h ev s).
Proof. intros. by apply tracked_drain, tracked_handle. Qed.

Lemma tracked_run c r trace s : tracked c r s → tracked c r (run trace s).
Proof.
  revert s. induction trace as [|[h ev] trace IH]; intros s Htr; simpl; [done|].
  by apply IH, tracked_step.
Qed.

(** In a well-formed state, the call registered by [captureCurrentPage] is
    tracked from then on. *)
Lemma tracked_registered h s :
  wf s →
  tracked (fresh s) ("capture_" +:+ pretty (now h)) (captureCurrentPage h s).2.
Proof.
  intros [Hu Ht]. set (rid := "capture_" +:+ pretty (now h)).
  assert (Hnot : ¬ uses s (fresh s)) by (intros H; apply Hu in H; lia).
  constructor.
  - destruct s; simpl. lia.
  - intros k e [Hk Hc]. destruct s; simpl in *.
    apply lookup_insert_Some in Hk as [[<- <-]|[_ Hk]]; [done|].
    destruct Hnot. left. by exists k, e.
  - intros id t [Hid Hc]. destruct s; simpl in *.
    apply lookup_insert_Some in Hid as [[<- <-]|[_ Hid]]; [done|].
    destruct Hnot. right; left. by exists id, t.
  - left. split.
    + apply settleCount_zero. intros H. destruct s; simpl in *.
      apply Hnot. by right; right; left.
    + intros H. destruct s; simpl in *. apply Hnot. by right; right; right.
Qed.

End AtMostOnce.

(** ** A settled promise stays settled *)

Section Settled.

Implicit Types (s : State) (h : Host) (o : Outcome) (c call id : nat) (r rid : string)
  (m : Message) (l : Locals) (e : Pending).

Lemma settle_settleCalls s c o : settleCalls (settle c o s) = settleCalls s ++ [(c, o)].
Proof. unfold settle. repeat case_match; by destruct s. Qed.

Lemma logGrows_refl s : logGrows s s.
Proof. by unfold logGrows. Qed.

Lemma logGrows_trans s1 s2 s3 : logGrows s1 s2 → logGrows s2 s3 → logGrows s1 s3.
Proof. unfold logGrows. by etrans. Qed.

Lemma logGrows_same s s' : settleCalls s' = settleCalls s → logGrows s s'.
Proof. unfold logGrows. by intros ->. Qed.

Lemma logGrows_settle s s' c o : settleCalls s' = settleCalls s → logGrows s (settle c o s').
Proof.
  unfold logGrows. intros H. rewrite settle_settleCalls, H. by apply prefix_app_r.
Qed.

Lemma logGrows_entryResolve h e v s : logGrows s (entryResolve h e v s).
Proof.
  destruct e as [c|r c]; simpl.
  - apply logGrows_settle. by destruct s.
  - case_decide; [apply logGrows_refl|]. destruct v.
    + apply logGrows_settle. by destruct s.
    + apply logGrows_same. by destruct s.
Qed.

Lemma logGrows_entryReject e msg s : logGrows s (entryReject e msg s).
Proof.
  destruct e as [c|r c]; simpl.
  - by apply logGrows_settle.
  - case_decide; [apply logGrows_refl|]. apply logGrows_settle. by destruct s.
Qed.

Lemma logGrows_onMessage h m s : logGrows s (onMessage h m s).
Proof.
  unfold onMessage. case_match; [apply logGrows_refl|].
  assert (H1 : logGrows s (onPageCaptured h m s)).
  { unfold onPageCaptured. repeat case_match; try apply logGrows_refl.
    - eapply logGrows_trans; [|apply logGrows_entryResolve]. apply logGrows_same. by destruct s.
    - eapply logGrows_trans; [|apply logGrows_entryReject]. apply logGrows_same. by destruct s. }
  assert (H2 : logGrows s (onPong h m (onPageCaptured h m s))).
  { eapply logGrows_trans; [exact H1|].
    unfold onPong. repeat case_match; try apply logGrows_refl.
    eapply logGrows_trans; [|apply logGrows_entryResolve].
    apply logGrows_same. by destruct (onPageCaptured h m s). }
  eapply logGrows_trans; [exact H2|].
  unfold onIframeReady. case_match; [|apply logGrows_refl].
  apply logGrows_same. by destruct (onPong h m _).
Qed.

Lemma logGrows_fire id h s : logGrows s (fire id h s).
Proof.
  unfold fire. destruct (timers s !! id) as [t|]; [|apply logGrows_refl].
  case_match; [|apply logGrows_refl].
  unfold runCallback, pingTimedOut, captureTimedOut.
  destruct (callback t); repeat case_match;
    try (apply logGrows_settle; by destruct s);
    apply logGrows_same; by destruct s.
Qed.

Lemma pingIframe_settleCalls h s : settleCalls (pingIframe h s).2 = settleCalls s.
Proof. unfold pingIframe. case_match; by destruct s. Qed.

Lemma logGrows_startCapture h s : logGrows s (startCapture h s).
Proof.
  apply logGrows_same. unfold startCapture. case_match; [done|].
  pose proof (pingIframe_settleCalls h
                (updateStatus "Checking connection..." "info" (set_isRunning true s))) as Hp.
  destruct (pingIframe h _) as [[o|call] s1]; simpl in Hp.
  - rewrite resume_settleCalls, Hp. by destruct s.
  - transitivity (settleCalls s1); [by destruct s1|]. rewrite Hp. by destruct s.
Qed.

Lemma logGrows_step h (ev : Event) s : logGrows s (step h ev s).
Proof.
  unfold step. eapply logGrows_trans; [|apply logGrows_same, drain_settleCalls].
  destruct ev; simpl.
  - repeat case_match; try apply logGrows_startCapture;
      apply logGrows_same; try by destruct s.
    unfold generatePDF. repeat case_match; by destruct s.
  - apply logGrows_same. by destruct s.
  - apply logGrows_same. by destruct s.
  - apply logGrows_onMessage.
  - apply logGrows_fire.
Qed.

Lemma logGrows_run trace s : logGrows s (run trace s).
Proof.
  revert s. induction trace as [|[h ev] trace IH]; intros s; simpl.
  - apply logGrows_refl.
  - eapply logGrows_trans; [apply logGrows_step | apply IH].
Qed.

(** Whatever happens later, a promise keeps the outcome it was first
    settled with. *)
Lemma promiseState_stable s s' c o :
  logGrows s s' → promiseState s c = Some o → promiseState s' c = Some o.
Proof.
  unfold logGrows, promiseState. intros [l ->]. rewrite find_app.
  by destruct (List.find _ (settleCalls s)).
Qed.

End Settled.

Section SettledOnce.

Implicit Types (s : State) (h : Host) (o : Outcome) (c call id : nat) (r rid : string)
  (m : Message) (l : Locals) (e : Pending).

(** The closures of an entry only ever remove pending entries. *)
Lemma entryResolve_absent h e v s k :
  pendingCaptures s !! k = None → pendingCaptures (entryResolve h e v s) !! k = None.
Proof.
  intros Hk. destruct e as [c|r c]; simpl.
  - rewrite settle_pendingCaptures. by destruct s.
  - case_decide; [done|]. destruct v; rewrite ?settle_pendingCaptures;
      destruct s; simpl in *; by apply lookup_delete_None; right.
Qed.

Lemma entryReject_absent e msg s k :
  pendingCaptures s !! k = None → pendingCaptures (entryReject e msg s) !! k = None.
Proof.
  intros Hk. destruct e as [c|r c]; simpl.
  - by rewrite settle_pendingCaptures.
  - case_decide; [done|]. rewrite settle_pendingCaptures.
    destruct s; simpl in *. by apply lookup_delete_None; right.
Qed.

Lemma deletePending_absent s k : pendingCaptures (deletePending k s) !! k = None.
Proof. destruct s; simpl. apply lookup_delete_eq. Qed.

(** A matching response removes the entry it finds. *)
Lemma response_removes_entry h m s :
  is_Some (pendingCaptures s !! requestId m) → requestId m ≠ "" →
  type m = "VS_PAGE_CAPTURED" ∨ (type m = "VS_PONG" ∧ hasImage m = true) →
  pendingCaptures (onMessage h m s) !! requestId m = None.
Proof.
  intros [e He] Hne Hty.
  assert (Ht : truthy (requestId m) = true) by by apply bool_decide_eq_true.
  unfold onMessage, onIframeReady, onPong, onPageCaptured.
  destruct Hty as [Hty|[Hty Himg]]; rewrite Hty, Ht; simpl; rewrite He.
  - destruct (success m);
      [apply entryResolve_absent | apply entryReject_absent]; apply deletePending_absent.
  - rewrite Himg. apply entryResolve_absent, deletePending_absent.
Qed.

(** A timeout that fires removes the entry of its request. *)
Lemma timeout_removes_entry h s id t rid c :
  timers s !! id = Some t → (due t ≤ now h)%Z →
  callback t = PingTimeout rid c
  ∨ (callback t = CaptureTimeout rid c ∧ c ∉ resolvedFlag s) →
  pendingCaptures (fire id h s) !! rid = None ∧ timers (fire id h s) !! id = None.
Proof.
  intros Ht Hd Hcb. unfold fire. rewrite Ht, bool_decide_eq_true_2 by done.
  destruct Hcb as [->|[-> Hres]]; simpl.
  - unfold pingTimedOut. case_match;
      rewrite settle_pendingCaptures, settle_timers; destruct s; simpl;
      split; apply lookup_delete_eq.
  - unfold captureTimedOut. rewrite decide_False by by destruct s.
    rewrite settle_pendingCaptures, settle_timers. destruct s; simpl.
    split; apply lookup_delete_eq.
Qed.



End SettledOnce.

(** ** The page limit *)

Section PageLimit.

(** C1 fails on this run: with a page limit of 1, both calls of
    [startCapture] complete, each having captured one page, and the
    session holds two pages. *)
Lemma overlapping_runs_exceed_limit :
  let final := run overlappingRuns initial in
  orNumber (parseInt (pageLimitInput (readerHost 1000))) 10 = 1
  ∧ isRunning (run (take 2 overlappingRuns) initial) = true
  ∧ isRunning (run (take 3 overlappingRuns) initial) = false
  ∧ capturedPages (run (take 3 overlappingRuns) initial) = []
  ∧ isRunning (run (take 4 overlappingRuns) initial) = true
  ∧ length (capturedPages final) = 2%nat
  ∧ isRunning final = false
  ∧ awaiting final = ∅ ∧ timers final = ∅ ∧ pendingCaptures final = ∅
  ∧ status final = ("Done! 2 pages captured.", "success").
Proof. vm_compute. by repeat split. Qed.

(** *** A single run stays within the limit *)

Lemma oneRunMid_view L s s' : loopView s = loopView s' → oneRunMid L s → oneRunMid L s'.
Proof.
  destruct s, s'. unfold loopView, oneRunMid, oneRun, inPhase, noWake, onlyWake. simpl.
  by intros [= -> -> -> ->].
Qed.

Lemma oneRunMid_clearTimeout L id s : oneRunMid L s → oneRunMid L (clearTimeout id s).
Proof.
  assert (Hno : noWake s → noWake (clearTimeout id s)).
  { intros H id' t k Ht. destruct s; simpl in *.
    apply lookup_delete_Some in Ht as [_ Ht]. by eapply H. }
  assert (Hfields : awaiting (clearTimeout id s) = awaiting s
                    ∧ woken (clearTimeout id s) = woken s
                    ∧ capturedPages (clearTimeout id s) = capturedPages s) by by destruct s.
  destruct Hfields as (Ha & Hw & Hc).
  intros [(Hq & Hn & ph & Hph)|(Haw & Hnw & Hn & Hk)]; [left|right].
  - unfold oneRun. rewrite Hw, Hc. split; [done|]. split; [done|].
    exists ph. destruct ph as [|p k|id' k]; unfold inPhase in *; cbv zeta in *;
      rewrite ?Ha, ?Hc.
    + destruct Hph. split; [done | by apply Hno].
    + destruct Hph as (? & ? & ?). split; [done|]. split; [by apply Hno | done].
    + destruct Hph as (? & Honly & ?). split; [done|]. split; [|done].
      intros id'' t k' Ht. destruct s; simpl in *.
      apply lookup_delete_Some in Ht as [_ Ht]. by eapply Honly.
  - rewrite Ha, Hw, Hc. split; [done|]. split; [by apply Hno | done].
Qed.

Lemma oneRunMid_settle L c o s : oneRunMid L s → oneRunMid L (settle c o s).
Proof.
  intros Hmid. unfold settle.
  destruct (promiseState s c) eqn:Hp;
    [eapply oneRunMid_view; [|exact Hmid]; by destruct s|].
  destruct (awaiting s !! c) as [k|] eqn:Hk;
    [|eapply oneRunMid_view; [|exact Hmid]; by destruct s].
  destruct Hmid as [(Hq & Hn & ph & Hph)|(Haw & _)].
  - destruct ph as [|p k'|id k']; simpl in Hph.
    + destruct Hph as [Ha _]. by rewrite Ha, lookup_empty in Hk.
    + destruct Hph as (Ha & Hnw & Hok). rewrite Ha in Hk.
      apply lookup_singleton_Some in Hk as [-> ->].
      right. destruct s; simpl in *. subst. split; [apply delete_singleton_eq|].
      split; [done|]. split; [done|]. by exists k, o.
    + destruct Hph as [Ha _]. by rewrite Ha, lookup_empty in Hk.
  - by rewrite Haw, lookup_empty in Hk.
Qed.

Create HintDb rundb.

Lemma oneRunMid_set_isRunning L v s : oneRunMid L s → oneRunMid L (set_isRunning v s).
Proof. apply oneRunMid_view. by destruct s. Qed.
Lemma oneRunMid_set_readyFrames L v s : oneRunMid L s → oneRunMid L (set_readyFrames v s).
Proof. apply oneRunMid_view. by destruct s. Qed.
Lemma oneRunMid_set_status L v s : oneRunMid L s → oneRunMid L (set_status v s).
Proof. apply oneRunMid_view. by destruct s. Qed.
Lemma oneRunMid_deletePending L k s : oneRunMid L s → oneRunMid L (deletePending k s).
Proof. apply oneRunMid_view. by destruct s. Qed.
Lemma oneRunMid_markResolved L c s : oneRunMid L s → oneRunMid L (markResolved c s).
Proof. apply oneRunMid_view. by destruct s. Qed.

Hint Resolve oneRunMid_set_isRunning oneRunMid_set_readyFrames oneRunMid_set_status
  oneRunMid_deletePending oneRunMid_markResolved oneRunMid_clearTimeout
  oneRunMid_settle : rundb.

Lemma oneRunMid_entryResolve L h e v s : oneRunMid L s → oneRunMid L (entryResolve h e v s).
Proof.
  intros H. destruct e as [c|r c]; simpl; [auto with rundb|].
  case_decide; [done|]. destruct v; auto 10 with rundb.
Qed.

Lemma oneRunMid_entryReject L e msg s : oneRunMid L s → oneRunMid L (entryReject e msg s).
Proof.
  intros H. destruct e as [c|r c]; simpl; [auto with rundb|].
  case_decide; [done|]. auto 10 with rundb.
Qed.

Hint Resolve oneRunMid_entryResolve oneRunMid_entryReject : rundb.

Lemma oneRunMid_onMessage L h m s : oneRunMid L s → oneRunMid L (onMessage h m s).
Proof.
  intros H. unfold onMessage, onIframeReady, onPong, onPageCaptured.
  repeat case_match; auto 10 with rundb.
Qed.

Lemma oneRunMid_fire L id h s : oneRun L s → oneRunMid L (fire id h s).
Proof.
  intros Hrun. assert (Hmid : oneRunMid L s) by by left.
  unfold fire. destruct (timers s !! id) as [t|] eqn:Ht; [|done].
  case_match; [|done]. unfold runCallback, pingTimedOut, captureTimedOut.
  destruct (callback t) as [rid c|rid c|k] eqn:Hcb.
  - case_match; auto with rundb.
  - destruct (decide (c ∈ _)); auto with rundb.
  - destruct Hrun as (Hq & Hn & ph & Hph). right.
    destruct ph as [|p k'|id' k']; simpl in Hph.
    + destruct Hph as [_ Hnw]. by destruct (Hnw _ _ k Ht).
    + destruct Hph as (_ & Hnw & _). by destruct (Hnw _ _ k Ht).
    + destruct Hph as (Ha & Honly & Hok).
      destruct (Honly _ _ _ Ht Hcb) as [-> ->].
      destruct s; simpl in *. subst. split; [done|].
      split; [|split; [done|by exists k', (Resolved None)]].
      unfold noWake. simpl. intros id'' t' k'' [Hne Ht']%lookup_delete_Some Hw.
      destruct (Honly _ _ _ Ht' Hw). congruence.
Qed.

Lemma idleAt_view n s s' :
  loopView s = loopView s' → idleAt n s → idleAt n s'.
Proof.
  destruct s, s'. unfold loopView, idleAt, noWake. simpl. by intros [= -> -> -> ->].
Qed.

Lemma idleAt_set_isRunning n v s : idleAt n s → idleAt n (set_isRunning v s).
Proof. apply idleAt_view. by destruct s. Qed.
Lemma idleAt_set_status n v s : idleAt n s → idleAt n (set_status v s).
Proof. apply idleAt_view. by destruct s. Qed.
Lemma idleAt_set_effects n v s : idleAt n s → idleAt n (set_effects v s).
Proof. apply idleAt_view. by destruct s. Qed.

Lemma idleAt_push n v s :
  idleAt n s → idleAt (S n) (set_capturedPages (capturedPages s ++ [v]) s).
Proof.
  destruct s. unfold idleAt, noWake. simpl. intros (? & ? & ? & <-).
  repeat split; try done. rewrite length_app. simpl. lia.
Qed.

Hint Resolve idleAt_set_isRunning idleAt_set_status idleAt_set_effects idleAt_push : rundb.

Lemma oneRun_over L n s :
  idleAt n s → (Z.of_nat n ≤ Z.max L 0)%Z → oneRun L s.
Proof.
  intros (Ha & Hnw & Hw & <-) Hn. split; [done|]. split; [done|]. by exists Over.
Qed.

Lemma oneRun_sleep L n ms (k : Cont) h s :
  idleAt n s → okCont L n k → (Z.of_nat n ≤ Z.max L 0)%Z → oneRun L (sleep ms k h s).
Proof.
  intros (Ha & Hnw & Hw & <-) Hok Hn.
  split; [by destruct s|]. split; [by destruct s|].
  exists (Sleeps (fresh s) k). destruct s; simpl in *. split; [done|]. split; [|done].
  unfold onlyWake. simpl.
  intros id t k' [[<- <-]|[_ Ht]]%lookup_insert_Some Hcb; simpl in *.
  - by injection Hcb as ->.
  - by destruct (Hnw _ _ k' Ht).
Qed.

Lemma oneRun_capture L n l o h s :
  idleAt n s → okCont L n (AfterCapture l) → (Z.of_nat n ≤ Z.max L 0)%Z →
  oneRun L (resume (AfterSettle l) o h s).
Proof.
  intros (Ha & Hnw & Hw & <-) Hok Hn.
  split; [by destruct s|]. split; [by destruct s|].
  exists (Awaits (fresh s) (AfterCapture l)). destruct s; simpl in *. subst.
  split; [done|]. split; [|done].
  unfold noWake. simpl.
  intros id t k' [[<- <-]|[_ Ht]]%lookup_insert_Some Hcb; simpl in *; [done|].
  by destruct (Hnw _ _ k' Ht).
Qed.

Ltac decided :=
  repeat match goal with
    | H : _ && _ = true |- _ => apply andb_prop in H as [? ?]
    | H : bool_decide _ = true |- _ => apply bool_decide_eq_true in H
    | H : bool_decide _ = false |- _ => apply bool_decide_eq_false in H
    end.

(** The resumed run leaves the one-run invariant in place. *)
Lemma oneRun_resume L n (k : Cont) o h s :
  idleAt n s → okCont L n k → (Z.of_nat n ≤ Z.max L 0)%Z → oneRun L (resume k o h s).
Proof.
  intros Hidle Hok Hn.
  destruct k as [l|l|l|l|l]; [|by eapply oneRun_capture|..];
    destruct o as [v|msg]; simpl in Hok; destruct Hok as (HL & Hc & Hle);
    unfold resume, catchBlock, goToNextPage, loopHead, nextPage, finish, done, updateStatus;
    destruct (nextButton h); simpl; repeat case_match; simplify_eq; decided;
    first [ eapply oneRun_sleep; [eauto 10 with rundb | simpl; lia | lia]
          | eapply oneRun_over; [eauto 10 with rundb | lia] ].
Qed.

Lemma oneRun_drain L h s : oneRunMid L s → oneRun L (drain h s).
Proof.
  intros [Hrun|(Ha & Hnw & Hn & k & o & Hw & Hok)].
  - rewrite drain_quiet; [done | by destruct Hrun].
  - rewrite (drain_one h s k o Hw).
    apply (oneRun_resume L (length (capturedPages s))); [|by destruct s|done].
    destruct s; simpl in *. by repeat split.
Qed.

Lemma oneRun_step L h (ev : Event) s :
  oneRun L s →
  (ev = ClickAction → isRunning s = true ∨ capturedPages s ≠ []) →
  oneRun L (step h ev s).
Proof.
  intros Hrun Hev. apply oneRun_drain.
  assert (Hmid : oneRunMid L s) by by left.
  destruct ev; simpl.
  - destruct (Hev eq_refl) as [->|Hne]; [auto with rundb|].
    case_match; [auto with rundb|].
    destruct (capturedPages s) eqn:Hcp; [done|].
    unfold generatePDF, updateStatus. rewrite Hcp. repeat case_match; auto with rundb.
  - left. destruct Hrun as (Hq & Hn & ph & Hph).
    split; [by destruct s|]. split; [destruct s; simpl; lia|].
    exists ph. destruct s; simpl in *.
    destruct ph as [|p k|id k]; simpl in *; [done|..];
      destruct Hph as (? & ? & Hok); (split; [done|]); (split; [done|]);
      destruct k; simpl in *; lia.
  - auto with rundb.
  - by apply oneRunMid_onMessage.
  - by apply oneRunMid_fire.
Qed.

Lemma oneRun_run L trace s : oneRun L s → noRestart trace s → oneRun L (run trace s).
Proof.
  revert s. induction trace as [|[h ev] trace IH]; intros s Hrun Hno; simpl; [done|].
  destruct Hno as [Hev Hno]. apply IH; [|done]. by apply oneRun_step.
Qed.

(** X10: a run started from a state in which no run is suspended and the
    session is empty (the only way the action button calls [startCapture]).
    Whatever happens next, short of a second start, the session never
    holds more pages than the page limit read at the start. *)
Lemma single_run_within_limit h0 trace s :
  awaiting s = ∅ → noWake s → woken s = [] →
  isRunning s = false → capturedPages s = [] →
  noRestart trace (step h0 ClickAction s) →
  let L := orNumber (parseInt (pageLimitInput h0)) 10 in
  (Z.of_nat (length (capturedPages (run trace (step h0 ClickAction s)))) ≤ Z.max L 0)%Z.
Proof.
  intros Ha Hnw Hw Hrun Hcp Hno L.
  assert (Hstart : oneRun L (step h0 ClickAction s)).
  { unfold step. simpl. rewrite Hrun, Hcp. unfold startCapture. rewrite Hrun.
    set (s1 := updateStatus "Checking connection..." "info" (set_isRunning true s)).
    assert (Hidle : idleAt 0 s1).
    { subst s1. destruct s; simpl in *. subst. by repeat split. }
    set (l := MkLocals L (currentPage h0) 0).
    unfold pingIframe. destruct (firstWithImage s1) as [f|].
    - rewrite drain_quiet.
      + apply (oneRun_resume L 0); [done | by simpl | lia].
      + rewrite resume_woken. by destruct Hidle as (_ & _ & ? & _).
    - rewrite drain_quiet; [|by destruct s; simpl in *].
      split; [by destruct s; simpl in *|].
      split; [destruct s; simpl in *; subst; simpl; lia|].
      exists (Awaits (fresh s) (AfterPing l)).
      destruct s; simpl in *. subst. split; [done|]. split; [|done].
      unfold noWake. simpl.
      intros id t k' [[<- <-]|[_ Ht]]%lookup_insert_Some Hcb; simpl in *; [done|].
      by destruct (Hnw _ _ k' Ht). }
  by destruct (oneRun_run L trace _ Hstart Hno) as (_ & ? & _).
Qed.

(** One run, two pages asked for: two requests, one click on the next-page
    control, two pages in the session. *)
Example single_run_two_pages :
  let s := step (twoPageHost 0) (Receive readyA) initial in
  let final := run twoPages (step (twoPageHost 1000) ClickAction s) in
  (Z.of_nat (length (capturedPages final)) ≤ 2)%Z
  ∧ length (capturedPages final) = 2%nat
  ∧ status final = ("Done! 2 pages captured.", "success")
  ∧ effects final
    = [Broadcast (message "VS_CAPTURE_PAGE" "capture_1500"); ClickNext;
       Broadcast (message "VS_CAPTURE_PAGE" "capture_3800")].
Proof.
  split; [|by vm_compute].
  apply (single_run_within_limit (twoPageHost 1000) twoPages
           (step (twoPageHost 0) (Receive readyA) initial)); try reflexivity.
  - intros id t k Ht. by vm_compute in Ht.
  - vm_compute. repeat split; discriminate.
Defined.

(** A negative page limit is read as it is ([parseInt(v) || 10] replaces
    only NaN and 0): the loop body never runs. *)
Example negative_limit_captures_nothing :
  let h := MkHost 1000 (Some "5") "-3" NextEnabled None in
  let s := step h ClickAction (step (readerHost 0) (Receive readyA) initial) in
  orNumber (parseInt (pageLimitInput h)) 10 = -3
  ∧ capturedPages s = [] ∧ isRunning s = false ∧ timers s = ∅.
Proof. by vm_compute. Qed.

End PageLimit.

(** * Further properties of the scripts *)

(** ** Sanitized names *)

Section SanitizeMore.

Import Content.

Lemma sanitizeFilename_allowed (name : jsstring) :
  Forall (λ c, allowed c = true) (sanitizeFilename name).
Proof.
  unfold sanitizeFilename. apply Forall_take, collapseSpaces_allowed.
  apply list.Forall_forall. intros c Hc. by apply list_elem_of_filter in Hc as [? _].
Qed.

Lemma allowed_kept c : allowed c = true → kept c = true.
Proof.
  unfold allowed, kept.
  by destruct (isLetter c), (isDigit c), (isSpace c), (c =? hyphen)%N, (c =? underscore)%N.
Qed.

Lemma filter_kept_clean (name : jsstring) :
  Forall (λ c, allowed c = true) name → filter (λ c, kept c = true) name = name.
Proof.
  unfold jsstring. induction 1 as [|c l Hc _ IH]; [done|].
  rewrite filter_cons, decide_True by by apply allowed_kept. by rewrite IH.
Qed.

Lemma collapseSpaces_clean (name : jsstring) b :
  Forall (λ c, allowed c = true) name → collapseSpaces b name = name.
Proof.
  intros H. revert b. induction H as [|c l Hc _ IH]; intros b; simpl; [done|].
  by rewrite (allowed_not_space c Hc), IH.
Qed.

Lemma sanitizeFilename_clean (name : jsstring) :
  Forall (λ c, allowed c = true) name → (length name ≤ 50)%nat →
  sanitizeFilename name = name.
Proof.
  intros Hall Hlen. unfold sanitizeFilename.
  rewrite filter_kept_clean, collapseSpaces_clean by done. by apply take_ge.
Qed.

(** X1: the names [sanitizeFilename] leaves as they are are exactly the
    names of at most 50 code units made of letters, digits, hyphens and
    underscores; its results are such names, so sanitizing twice is
    sanitizing once. *)
Theorem sanitizeFilename_fixed_points (name : jsstring) :
  (sanitizeFilename name = name
   ↔ Forall (λ c, allowed c = true) name ∧ (length name ≤ 50)%nat)
  ∧ sanitizeFilename (sanitizeFilename name) = sanitizeFilename name.
Proof.
  split.
  - split.
    + intros Heq. rewrite <- Heq. split; [apply sanitizeFilename_allowed|].
      unfold sanitizeFilename. rewrite length_take. lia.
    + intros [Hall Hlen]. by apply sanitizeFilename_clean.
  - apply sanitizeFilename_clean; [apply sanitizeFilename_allowed|].
    unfold sanitizeFilename. rewrite length_take. lia.
Qed.

Lemma collapseSpaces_length b (s : jsstring) : (length (collapseSpaces b s) ≤ length s)%nat.
Proof.
  revert b. induction s as [|c r IH]; intros b; simpl; [done|].
  destruct (isSpace c); [destruct b|]; simpl;
    [specialize (IH true) | specialize (IH true) | specialize (IH false)]; lia.
Qed.

Lemma collapseSpaces_nil (s : jsstring) : collapseSpaces false s = [] ↔ s = [].
Proof.
  split; [|by intros ->]. destruct s as [|c r]; [done|]. simpl. by destruct (isSpace c).
Qed.

Lemma collapseSpaces_spaces (s : jsstring) :
  Forall (λ c, isSpace c = true) s → collapseSpaces true s = [].
Proof. induction 1 as [|c l Hc _ IH]; simpl; [done|]. by rewrite Hc. Qed.

Lemma filter_kept_nil (name : jsstring) :
  filter (λ c, kept c = true) name = [] ↔ Forall (λ c, kept c = false) name.
Proof.
  unfold jsstring in *. induction name as [|c l IH]; [by split; [constructor|]|].
  rewrite filter_cons. destruct (decide (kept c = true)) as [Hk|Hk].
  - split; [done|]. intros H. inversion H; congruence.
  - rewrite IH. apply not_true_is_false in Hk.
    split; [by constructor | by inversion 1].
Qed.

(** X2: a sanitized name is never longer than the name; it is empty exactly
    when the name holds no letter, digit, hyphen, underscore or white space
    (no fallback name is put in its place); and a name made of white space
    only becomes a single underscore. *)
Theorem sanitizeFilename_short_or_empty (name : jsstring) :
  (length (sanitizeFilename name) ≤ length name)%nat
  ∧ (sanitizeFilename name = [] ↔ Forall (λ c, kept c = false) name)
  ∧ (name ≠ [] → Forall (λ c, isSpace c = true) name →
     sanitizeFilename name = [underscore]).
Proof.
  split; [|split].
  - unfold sanitizeFilename. rewrite length_take.
    pose proof (collapseSpaces_length false (filter (λ c, kept c = true) name)).
    pose proof (length_filter (λ c, kept c = true) name).
    unfold jsstring in *. lia.
  - etrans; [|apply filter_kept_nil]. unfold sanitizeFilename.
    destruct (filter (λ c, kept c = true) name) as [|c r]; [done|].
    simpl. destruct (isSpace c); simpl; by split.
  - intros Hne Hsp. unfold sanitizeFilename.
    assert (filter (λ c, kept c = true) name = name) as ->.
    { clear Hne. unfold jsstring in *. induction Hsp as [|c l Hc _ IH]; [done|].
      rewrite filter_cons, decide_True, IH; [done|].
      unfold kept. rewrite Hc. by rewrite ?orb_true_r. }
    destruct Hsp as [|c l Hc Hl]; [done|]. simpl.
    by rewrite Hc, collapseSpaces_spaces.
Qed.

End SanitizeMore.

(** ** The Frame Agent: location policy and listener *)

Section FrameMore.

Import Frame.

Lemma find_first_inv {A} (p : A → bool) (before after : list A) (x : A) :
  Forall (λ y, p y = false) before → p x = true →
  List.find p (before ++ x :: after) = Some x.
Proof.
  intros Hb Hx. rewrite find_app.
  apply find_none_Forall in Hb. rewrite Hb. simpl. by rewrite Hx.
Qed.

(** X3: the location policy returns the first [img#pbk-page] of the
    document, whatever its size, and, only when the document has none, the
    first image larger than 400 in both dimensions. *)
Theorem findPageImage_policy (doc : Document) (img : Img) :
  findPageImage doc = Some img
  ↔ (∃ before after, images doc = before ++ img :: after
       ∧ Forall (λ i, isPbkPage i = false) before ∧ isPbkPage img = true)
    ∨ (Forall (λ i, isPbkPage i = false) (images doc)
       ∧ ∃ before after, images doc = before ++ img :: after
           ∧ Forall (λ i, isLarge i = false) before ∧ isLarge img = true).
Proof.
  unfold findPageImage. split.
  - destruct (List.find isPbkPage (images doc)) as [primary|] eqn:Hp.
    + intros [= <-]. left. by apply find_first in Hp.
    + intros Hl. right. split; [by apply find_none_Forall|]. by apply find_first in Hl.
  - intros [(before & after & -> & Hb & Hi)|(Hnone & before & after & Heq & Hb & Hi)].
    + by rewrite (find_first_inv isPbkPage before after img).
    + apply find_none_Forall in Hnone. rewrite Hnone, Heq.
      by apply find_first_inv.
Qed.

(** X4: whatever it receives, the frame listener answers at most once and
    forwards at most once: its actions are none, the message forwarded
    unchanged, or one answer followed by the message forwarded unchanged;
    the answer carries the request id of the message, and is a
    [VS_PAGE_CAPTURED] for a capture request and a [VS_PONG] for a ping.
    Any other message (an answer of another frame among them) and any
    message without request id is dropped: frames never echo answers. *)
Theorem frame_listener_actions (doc : Document) (r : Raster) (m : Message) :
  let acts := Frame.onMessage doc r m in
  (acts = []
   ∨ (acts = [ToChildren m] ∧ type m = "VS_CAPTURE_PAGE" ∧ findPageImage doc = None)
   ∨ ∃ answer, acts = [ToParent answer; ToChildren m]
       ∧ requestId answer = requestId m
       ∧ ((type m = "VS_CAPTURE_PAGE" ∧ type answer = "VS_PAGE_CAPTURED"
           ∧ is_Some (findPageImage doc))
          ∨ (type m = "VS_PING" ∧ type answer = "VS_PONG"
             ∧ hasImage answer = hasPageImage doc)))
  ∧ (acts ≠ [] ↔ requestId m ≠ "" ∧ (type m = "VS_CAPTURE_PAGE" ∨ type m = "VS_PING")).
Proof.
  unfold Frame.onMessage.
  destruct (decide (requestId m = "")) as [Hrid|Hrid].
  { assert (truthy (requestId m) = false) as -> by by apply bool_decide_eq_false; intros ?.
    rewrite !orb_true_r. split; [by left|]. split; [done | by intros [? _]]. }
  assert (truthy (requestId m) = true) as -> by by apply bool_decide_eq_true.
  destruct (decide (type m = "VS_CAPTURE_PAGE")) as [Hc|Hc].
  { rewrite Hc. simpl.
    destruct (findPageImage doc) as [img|] eqn:Hf; simpl.
    - split; [|split; [intros _; auto | done]].
      right; right. eexists. split; [done|]. split.
      + by destruct (captureImage r img).
      + left. split; [done|]. split; [by destruct (captureImage r img) | by eexists].
    - split; [|split; [intros _; auto | done]]. right; left. by repeat split. }
  destruct (decide (type m = "VS_PING")) as [Hp|Hp].
  { rewrite Hp. simpl. split; [|split; [intros _; auto | done]].
    right; right. eexists. split; [done|]. split; [done|].
    right. by repeat split. }
  rewrite app_nil_r.
  destruct (negb (truthy (type m)) || negb (startsWith "VS_" (type m)) || negb true);
    (split; [by left|]); (split; [done|]); by intros [_ [?|?]].
Qed.

End FrameMore.

(** ** Request ids *)

Section RequestIds.

Implicit Types (s : State) (h : Host).

Lemma capture_id_inj (t1 t2 : Z) :
  "capture_" +:+ pretty t1 = "capture_" +:+ pretty t2 ↔ t1 = t2.
Proof.
  split; [|by intros ->]. intros H%(inj (String.app _)). by apply (inj pretty) in H.
Qed.

Lemma captureCurrentPage_call h s : (captureCurrentPage h s).1 = fresh s.
Proof. by destruct s. Qed.

Lemma captureCurrentPage_fresh h s : fresh (captureCurrentPage h s).2 = S (fresh s).
Proof. by destruct s. Qed.

Lemma captureCurrentPage_pending h s :
  pendingCaptures (captureCurrentPage h s).2
  = <["capture_" +:+ pretty (now h) :=
        CaptureRequest ("capture_" +:+ pretty (now h)) (fresh s)]> (pendingCaptures s).
Proof. by destruct s. Qed.

(** X5: request ids are told apart by kind and by millisecond.  A capture
    request never takes the place of a pending ping; a capture request
    registered in another millisecond leaves a pending capture entry in
    place; one registered in the same millisecond has the same id and
    replaces the entry, so that no answer can reach the first call any
    more. *)
Theorem request_ids_by_kind_and_time h1 h2 s :
  let rid1 := "capture_" +:+ pretty (now h1) in
  let rid2 := "capture_" +:+ pretty (now h2) in
  let c1 := (captureCurrentPage h1 s).1 in
  let s1 := (captureCurrentPage h1 s).2 in
  let c2 := (captureCurrentPage h2 s1).1 in
  let s2 := (captureCurrentPage h2 s1).2 in
  c1 ≠ c2
  ∧ (rid1 = rid2 ↔ now h1 = now h2)
  ∧ (now h1 ≠ now h2 → pendingCaptures s2 !! rid1 = Some (CaptureRequest rid1 c1))
  ∧ (now h1 = now h2 →
     pendingCaptures s2 !! rid1 = Some (CaptureRequest rid1 c2)
     ∧ ∀ k e, pendingCaptures s2 !! k = Some e → entryCall e = c1 →
              pendingCaptures s !! k = Some e)
  ∧ (∀ call sp, pingIframe h1 s = (Later call, sp) →
       pendingCaptures (captureCurrentPage h2 sp).2 !! ("ping_" +:+ pretty (now h1))
       = Some (PingRequest call)).
Proof.
  intros rid1 rid2 c1 s1 c2 s2.
  assert (Hc1 : c1 = fresh s) by apply captureCurrentPage_call.
  assert (Hc2 : c2 = S (fresh s)).
  { unfold c2. rewrite captureCurrentPage_call. apply captureCurrentPage_fresh. }
  assert (Hp : pendingCaptures s2
               = <[rid2 := CaptureRequest rid2 c2]>
                   (<[rid1 := CaptureRequest rid1 c1]> (pendingCaptures s))).
  { unfold s2. rewrite captureCurrentPage_pending. unfold s1 at 2.
    rewrite captureCurrentPage_pending. unfold c2.
    by rewrite captureCurrentPage_call. }
  split; [lia|]. split; [apply capture_id_inj|]. split; [|split].
  - intros Hne. rewrite Hp, lookup_insert_ne; [apply lookup_insert_eq|].
    intros ?%capture_id_inj. congruence.
  - intros Heq. assert (rid2 = rid1) as Hrid by by apply capture_id_inj.
    rewrite Hp, Hrid. split; [apply lookup_insert_eq|].
    intros k e Hk Hc.
    apply lookup_insert_Some in Hk as [[_ <-]|[Hne Hk]]; simpl in Hc; [lia|].
    by apply lookup_insert_Some in Hk as [[? _]|[_ Hk]].
  - intros call sp Hping. apply pingIframe_registers in Hping as (_ & _ & Hping & _).
    rewrite captureCurrentPage_pending, lookup_insert_ne; [done|].
    intros [=].
Qed.

End RequestIds.

(** ** The listener of the top-level window *)

Section Listener.

Implicit Types (s : State) (h : Host) (m : Message).

Lemma settle_surface call o s : surface (settle call o s) = surface s.
Proof. unfold settle. repeat case_match; by destruct s. Qed.

Lemma entryResolve_surface h (e : Pending) v s : surface (entryResolve h e v s) = surface s.
Proof.
  unfold entryResolve. repeat case_match; rewrite ?settle_surface; by destruct s.
Qed.

Lemma entryReject_surface (e : Pending) msg s : surface (entryReject e msg s) = surface s.
Proof.
  unfold entryReject. repeat case_match; rewrite ?settle_surface; by destruct s.
Qed.

Lemma onPageCaptured_surface h m s : surface (onPageCaptured h m s) = surface s.
Proof.
  unfold onPageCaptured. repeat case_match;
    rewrite ?entryResolve_surface, ?entryReject_surface; by destruct s.
Qed.

Lemma onPong_surface h m s : surface (onPong h m s) = surface s.
Proof.
  unfold onPong. repeat case_match; rewrite ?entryResolve_surface; by destruct s.
Qed.

Lemma onIframeReady_surface m s : surface (onIframeReady m s) = surface s.
Proof. unfold onIframeReady. case_match; by destruct s. Qed.

Lemma onMessage_surface h m s : surface (onMessage h m s) = surface s.
Proof.
  unfold onMessage. case_match; [done|].
  by rewrite onIframeReady_surface, onPong_surface, onPageCaptured_surface.
Qed.

(** X6: a [message] event never touches the session, the run flag, the
    status line, the effects or the call numbers.  It changes nothing at
    all when its type is not one of the three the listener knows, when it
    is a response without a request id or for a request id that has no
    pending entry, or when it is a pong that reports no image; an
    announcement is recorded whatever it reports. *)
Theorem listener_footprint h m s :
  surface (onMessage h m s) = surface s
  ∧ (type m ∉ listened → onMessage h m s = s)
  ∧ (type m ≠ "VS_IFRAME_READY" →
     requestId m = "" ∨ pendingCaptures s !! requestId m = None →
     onMessage h m s = s)
  ∧ (type m = "VS_PONG" → hasImage m = false → onMessage h m s = s)
  ∧ (type m = "VS_IFRAME_READY" →
     onMessage h m s = set_readyFrames (readyFrames s ++ [MkReady (hasImage m) (url m)]) s).
Proof.
  split; [apply onMessage_surface|].
  unfold onMessage, onIframeReady, onPong, onPageCaptured, listened.
  split; [|split; [|split]].
  - intros Hty. rewrite !elem_of_cons, elem_of_nil in Hty.
    rewrite !bool_decide_eq_false_2 by tauto. simpl. by case_match.
  - intros Hty [Hrid|Hp].
    + rewrite Hrid. simpl. rewrite !andb_false_r, bool_decide_eq_false_2 by done.
      by case_match.
    + rewrite (bool_decide_eq_false_2 (type m = "VS_IFRAME_READY")) by done.
      destruct (bool_decide (type m = "VS_PAGE_CAPTURED") && truthy (requestId m));
        rewrite Hp; destruct (bool_decide (type m = "VS_PONG") && truthy (requestId m));
        rewrite ?Hp; by case_match.
  - intros Hty Himg. rewrite Hty, Himg. simpl.
    destruct (truthy (requestId m)); simpl; by repeat case_match.
  - intros Hty. rewrite Hty. simpl. done.
Qed.

End Listener.

(** ** The probe, once a frame has announced an image *)

Section Announced.

Implicit Types (s : State) (h : Host) (m : Message) (k : Cont) (o : Outcome).

Lemma calm_refl s : calm s s.
Proof. split; [done|]. exists []. by rewrite app_nil_r. Qed.

Lemma calm_trans s1 s2 s3 : calm s1 s2 → calm s2 s3 → calm s1 s3.
Proof.
  intros [Hf1 (n1 & He1 & Hn1)] [Hf2 (n2 & He2 & Hn2)].
  split; [by etrans|]. exists (n1 ++ n2).
  split; [by rewrite He2, He1, app_assoc | by apply Forall_app].
Qed.

Lemma calm_same s s' :
  readyFrames s' = readyFrames s → effects s' = effects s → calm s s'.
Proof.
  intros Hf He. split; [by rewrite Hf|]. exists []. by rewrite app_nil_r.
Qed.

Lemma firstWithImage_calm s s' r :
  calm s s' → firstWithImage s = Some r → firstWithImage s' = Some r.
Proof.
  intros [[rest Hf] _] Hr. unfold firstWithImage in *. by rewrite Hf, find_app, Hr.
Qed.

Lemma settle_readyFrames call o s : readyFrames (settle call o s) = readyFrames s.
Proof. unfold settle. repeat case_match; by destruct s. Qed.

Lemma entryResolve_readyFrames h (e : Pending) v s :
  readyFrames (entryResolve h e v s) = readyFrames s.
Proof.
  unfold entryResolve. repeat case_match; rewrite ?settle_readyFrames; by destruct s.
Qed.

Lemma entryReject_readyFrames (e : Pending) msg s :
  readyFrames (entryReject e msg s) = readyFrames s.
Proof.
  unfold entryReject. repeat case_match; rewrite ?settle_readyFrames; by destruct s.
Qed.

Lemma onPageCaptured_readyFrames h m s :
  readyFrames (onPageCaptured h m s) = readyFrames s.
Proof.
  unfold onPageCaptured. repeat case_match;
    rewrite ?entryResolve_readyFrames, ?entryReject_readyFrames; by destruct s.
Qed.

Lemma onPong_readyFrames h m s : readyFrames (onPong h m s) = readyFrames s.
Proof.
  unfold onPong. repeat case_match; rewrite ?entryResolve_readyFrames; by destruct s.
Qed.

Lemma onMessage_calm h m s : calm s (onMessage h m s).
Proof.
  split.
  - unfold onMessage. case_match; [done|].
    assert (Hp : readyFrames (onPong h m (onPageCaptured h m s)) = readyFrames s)
      by by rewrite onPong_readyFrames, onPageCaptured_readyFrames.
    unfold onIframeReady. case_match; [|by rewrite Hp].
    destruct (onPong h m (onPageCaptured h m s)); simpl in *. subst.
    by apply prefix_app_r.
  - exists []. rewrite app_nil_r.
    by pose proof (onMessage_surface h m s) as [= _ _ _ ? _].
Qed.

Lemma fire_calm id h s : calm s (fire id h s).
Proof.
  unfold fire. destruct (timers s !! id) as [t|]; [|apply calm_refl].
  case_match; [|apply calm_refl].
  unfold runCallback, pingTimedOut, captureTimedOut.
  apply calm_same; repeat case_match;
    rewrite ?settle_readyFrames, ?settle_effects; by destruct s.
Qed.

Lemma resume_calm k o h s : calm s (resume k o h s).
Proof.
  split; [by rewrite resume_readyFrames|].
  destruct k, o; unfold_loop; destruct (nextButton h); repeat case_match; simplify_eq;
    destruct s; simpl;
    first [ by exists []; rewrite app_nil_r
          | by eexists [_]; split; [done|]; repeat constructor ].
Qed.

Lemma drain_calm h s : calm s (drain h s).
Proof.
  unfold drain.
  assert (H : ∀ ws s', calm s s' → calm s (foldl (λ s w, resume w.1 w.2 h s) s' ws)).
  { induction ws as [|w ws IH]; intros s' Hs'; simpl; [done|].
    apply IH. eapply calm_trans; [done | apply resume_calm]. }
  apply H. apply calm_same; by destruct s.
Qed.

Lemma startCapture_calm h s r :
  firstWithImage s = Some r → calm s (startCapture h s).
Proof.
  intros Hr. unfold startCapture. case_match; [apply calm_refl|].
  unfold pingIframe.
  assert (firstWithImage
            (updateStatus "Checking connection..." "info" (set_isRunning true s))
          = Some r) as -> by by destruct s.
  eapply calm_trans; [|apply resume_calm]. apply calm_same; by destruct s.
Qed.

Lemma handle_calm h (e : Event) s r :
  firstWithImage s = Some r → calm s (handle h e s).
Proof.
  intros Hr. destruct e; simpl.
  - case_match; [apply calm_same; by destruct s|].
    case_match; [by eapply startCapture_calm|].
    unfold generatePDF. apply calm_same; repeat case_match; by destruct s.
  - apply calm_same; by destruct s.
  - apply calm_same; by destruct s.
  - apply onMessage_calm.
  - apply fire_calm.
Qed.

Lemma step_calm h (e : Event) s r :
  firstWithImage s = Some r → calm s (step h e s).
Proof.
  intros Hr. eapply calm_trans; [by eapply handle_calm | apply drain_calm].
Qed.

Lemma run_calm trace s r :
  firstWithImage s = Some r → calm s (run trace s).
Proof.
  revert s. induction trace as [|[h e] trace IH]; intros s Hr; simpl; [apply calm_refl|].
  pose proof (step_calm h e s r Hr) as Hstep.
  eapply calm_trans; [done|]. apply IH. by eapply firstWithImage_calm.
Qed.

(** X7: the readiness list is only ever added to, and the probe looks for
    its first entry with an image.  So once a frame has announced an
    image, whatever happens afterwards, the probe finds that same
    announcement, resolves at once without touching the state, and no
    ping is broadcast any more. *)
Theorem announced_frame_ends_probing r s trace :
  firstWithImage s = Some r →
  let s' := run trace s in
  readyFrames s `prefix_of` readyFrames s'
  ∧ firstWithImage s' = Some r
  ∧ (∀ h, pingIframe h s' = (Already (Resolved (Some (readyObj r))), s'))
  ∧ ∃ new, effects s' = effects s ++ new ∧ Forall notPing new.
Proof.
  intros Hr s'. pose proof (run_calm trace s r Hr) as Hcalm.
  pose proof (firstWithImage_calm _ _ _ Hcalm Hr) as Hr'.
  destruct Hcalm as [Hf Hnew]. fold s' in Hf, Hnew, Hr'.
  split; [done|]. split; [done|]. split; [|done].
  intros h. unfold pingIframe. by rewrite Hr'.
Qed.

(** One frame announced, then the two overlapping runs: two capture
    requests, no ping. *)
Lemma announced_frame_ends_probing_witness :
  let s := step (readerHost 0) (Receive readyA) initial in
  let s' := run (tail overlappingRuns) s in
  firstWithImage s' = Some (MkReady true "https://cdn.example/a")
  ∧ ∃ new, effects s' = effects s ++ new ∧ Forall notPing new.
Proof.
  destruct (announced_frame_ends_probing (MkReady true "https://cdn.example/a")
              (step (readerHost 0) (Receive readyA) initial) (tail overlappingRuns))
    as (_ & Hr & _ & Hnew); [reflexivity|].
  by split.
Defined.

End Announced.

(** ** A capture request and its answer, across the two scripts *)

Section RoundTrip.

Implicit Types (s : State) (h : Host) (l : Locals).

Lemma run_woken trace : woken (run trace initial) = [].
Proof.
  assert (H : ∀ s, woken s = [] → woken (run trace s) = []); [|by apply H].
  induction trace as [|[h e] trace IH]; intros s Hs; simpl; [done|].
  apply IH, step_woken.
Qed.

(** The step in which the loop wakes from [sleep(500)]: it registers a
    capture call under a number that nothing refers to, broadcasts the
    request and waits for the call. *)
Lemma wake_requests_capture h s id d l :
  wf s → woken s = [] →
  timers s !! id = Some (MkTimer d (Wake (AfterSettle l))) → (d ≤ now h)%Z →
  let rid := "capture_" +:+ pretty (now h) in
  let s1 := step h (Fire id) s in
  pendingCaptures s1 !! rid = Some (CaptureRequest rid (fresh s))
  ∧ (fresh s ∉ resolvedFlag s1)
  ∧ promiseState s1 (fresh s) = None
  ∧ awaiting s1 !! fresh s = Some (AfterCapture l)
  ∧ woken s1 = []
  ∧ capturedPages s1 = capturedPages s
  ∧ effects s1 = effects s ++ [Broadcast (message "VS_CAPTURE_PAGE" rid)].
Proof.
  intros [Hwf _] Hw Ht Hd rid s1.
  assert (Hflag : fresh s ∉ resolvedFlag s).
  { intros Hin. assert (fresh s < fresh s)%nat; [|lia]. apply Hwf. by do 3 right. }
  assert (Hlog : promiseState s (fresh s) = None).
  { apply promiseState_settleCount, settleCount_zero. intros Hin.
    assert (fresh s < fresh s)%nat; [|lia]. apply Hwf. right. right. by left. }
  assert (Hs1 : s1 = resume (AfterSettle l) (Resolved None) h (clearTimeout id s)).
  { subst s1. unfold step, handle, fire. rewrite Ht. simpl.
    rewrite bool_decide_eq_true_2 by done. simpl.
    erewrite drain_one; [|by destruct s; simpl in *; subst].
    f_equal. destruct s; simpl in *. by subst. }
  split; [|split; [|split; [|split; [|split; [|split]]]]].
  - rewrite Hs1. destruct s; simpl. apply lookup_insert_eq.
  - rewrite Hs1. by destruct s.
  - rewrite Hs1. unfold promiseState in *. rewrite resume_settleCalls. by destruct s.
  - rewrite Hs1. destruct s; simpl. apply lookup_insert_eq.
  - apply step_woken.
  - rewrite Hs1. by destruct s.
  - rewrite Hs1. by destruct s.
Qed.

(** The listener of a frame that holds a page image, on a capture request. *)
Lemma frame_answers_capture (doc : Frame.Document) (r : Frame.Raster) img (res : Obj + string)
    (rid : string) :
  Frame.findPageImage doc = Some img → Frame.captureImage r img = res → rid ≠ "" →
  Frame.onMessage doc r (message "VS_CAPTURE_PAGE" rid)
  = [Frame.ToParent (Frame.pageCaptured rid res);
     Frame.ToChildren (message "VS_CAPTURE_PAGE" rid)].
Proof.
  intros Himg Hres Hrid. unfold Frame.onMessage. simpl.
  assert (truthy rid = true) as -> by by apply bool_decide_eq_true.
  simpl. by rewrite Himg, Hres.
Qed.

(** X8: in every reachable state, when the loop wakes from [sleep(500)]
    it broadcasts one capture request; a frame that holds a page image
    answers it and hands it on to its own frames; and when that answer
    arrives, the page, stamped on arrival, is the next page of the
    session and the request is no longer pending. *)
Theorem capture_round_trip trace h h' id d l (doc : Frame.Document) (r : Frame.Raster)
    img payload :
  let s := run trace initial in
  let request := message "VS_CAPTURE_PAGE" ("capture_" +:+ pretty (now h)) in
  let s1 := step h (Fire id) s in
  timers s !! id = Some (MkTimer d (Wake (AfterSettle l))) → (d ≤ now h)%Z →
  Frame.findPageImage doc = Some img → Frame.captureImage r img = inl payload →
  effects s1 = effects s ++ [Broadcast request]
  ∧ ∃ answer,
      Frame.onMessage doc r request = [Frame.ToParent answer; Frame.ToChildren request]
      ∧ let s2 := step h' (Receive answer) s1 in
        capturedPages s2 = capturedPages s ++ [Some (stamp h' payload)]
        ∧ pendingCaptures s2 !! requestId request = None.
Proof.
  intros s request s1 Ht Hd Himg Hcap.
  destruct (wake_requests_capture h s id d l) as (Hp & Hflag & Hlog & Haw & Hw & Hpages & Heff);
    [apply wf_reachable | apply run_woken | done | done |].
  fold s1 in Hp, Hflag, Hlog, Haw, Hw, Hpages, Heff.
  split; [done|].
  set (rid := "capture_" +:+ pretty (now h)) in *.
  assert (Hrid : rid ≠ "") by done.
  exists (Frame.pageCaptured rid (inl payload)).
  split; [by apply (frame_answers_capture doc r img)|].
  intros s2. subst s2.
  rewrite (step_capture_response h' s1 _ rid (fresh s) l) with
    (o := Resolved (Some (stamp h' payload))); try done.
  - split.
    + rewrite resume_afterCapture_pages, <- Hpages. clearbody s1. by destruct s1.
    + rewrite resume_pendingCaptures by done.
      clearbody s1. destruct s1; simpl. apply lookup_delete_eq.
  - right. by exists payload.
Qed.

(** The reader on page 5: the request of 1500 ms, answered by the
    page-bearing frame at 1800 ms. *)
Lemma capture_round_trip_witness :
  let s := run [(readerHost 0, Receive readyA); (readerHost 1000, ClickAction)] initial in
  let s2 := step (readerHost 1800) (Receive (answerOf "capture_1500"))
              (step (readerHost 1500) (Fire 0) s) in
  capturedPages s = []
  ∧ capturedPages s2 = [Some (stamp (readerHost 1800) pagePayload)]
  ∧ pendingCaptures s2 !! "capture_1500" = None.
Proof.
  destruct (capture_round_trip
              [(readerHost 0, Receive readyA); (readerHost 1000, ClickAction)]
              (readerHost 1500) (readerHost 1800) 0 1500 (MkLocals 1 5 0)
              pageFrame jpegRaster pageImage pagePayload)
    as (_ & answer & Hans & Hpages & Hgone);
    [reflexivity | vm_compute; discriminate | reflexivity | reflexivity |].
  vm_compute in Hans. injection Hans as <-.
  split; [reflexivity|]. split; [exact Hpages | exact Hgone].
Defined.

End RoundTrip.

(** ** A success response without a payload *)

Create HintDb stuckdb.

Section Stuck.

Implicit Types (s : State) (h : Host) (c call id : nat) (k : Cont) (o : Outcome)
  (m : Message) (l : Locals).

Lemma stuck_view c k s s' : stuckView s = stuckView s' → stuck c k s → stuck c k s'.
Proof.
  destruct s, s'. unfold stuckView. simpl. by intros [= -> -> -> -> ->].
Qed.

Lemma stuck_deletePending c k s (r : string) : stuck c k s → stuck c k (deletePending r s).
Proof.
  intros (Hf & [Hd1 Hd2] & Hz & Ha).
  split; [by destruct s|]. split; [|by destruct s]. split.
  - intros k' e [H He]. apply (Hd1 k' e). split; [|done]. destruct s; simpl in *.
    by apply lookup_delete_Some in H as [_ ?].
  - destruct s. exact Hd2.
Qed.

Lemma stuck_clearTimeout c k s id : stuck c k s → stuck c k (clearTimeout id s).
Proof.
  intros (Hf & [Hd1 Hd2] & Hz & Ha).
  split; [by destruct s|]. split; [|by destruct s]. split.
  - destruct s. exact Hd1.
  - intros id' t [H He]. apply (Hd2 id' t). split; [|done]. destruct s; simpl in *.
    by apply lookup_delete_Some in H as [_ ?].
Qed.

Lemma stuck_settle c k s c' o : c' ≠ c → stuck c k s → stuck c k (settle c' o s).
Proof.
  intros Hne (Hf & [Hd1 Hd2] & Hz & Ha).
  split; [by rewrite settle_fresh|]. split; [|split].
  - split.
    + intros k' e [H He]. rewrite settle_pendingCaptures in H. by apply (Hd1 k' e).
    + intros id t [H He]. rewrite settle_timers in H. by apply (Hd2 id t).
  - rewrite settleCount_settle, decide_False by done. lia.
  - unfold settle. repeat case_match; destruct s; simpl in *; try done.
    by rewrite lookup_delete_ne.
Qed.

Lemma stuck_set_capturedPages c k v s : stuck c k s → stuck c k (set_capturedPages v s).
Proof. apply stuck_view. by destruct s. Qed.
Lemma stuck_set_isRunning c k v s : stuck c k s → stuck c k (set_isRunning v s).
Proof. apply stuck_view. by destruct s. Qed.
Lemma stuck_set_readyFrames c k v s : stuck c k s → stuck c k (set_readyFrames v s).
Proof. apply stuck_view. by destruct s. Qed.
Lemma stuck_set_resolvedFlag c k v s : stuck c k s → stuck c k (set_resolvedFlag v s).
Proof. apply stuck_view. by destruct s. Qed.
Lemma stuck_set_woken c k v s : stuck c k s → stuck c k (set_woken v s).
Proof. apply stuck_view. by destruct s. Qed.
Lemma stuck_set_status c k v s : stuck c k s → stuck c k (set_status v s).
Proof. apply stuck_view. by destruct s. Qed.
Lemma stuck_set_effects c k v s : stuck c k s → stuck c k (set_effects v s).
Proof. apply stuck_view. by destruct s. Qed.

Hint Resolve stuck_set_capturedPages stuck_set_isRunning stuck_set_readyFrames
  stuck_set_resolvedFlag stuck_set_woken stuck_set_status stuck_set_effects
  stuck_deletePending stuck_clearTimeout : stuckdb.

(** Code that starts to await a later call. *)
Lemma stuck_await c k s c' k' :
  c' ≠ c → stuck c k s → stuck c k (set_awaiting (<[c' := k']> (awaiting s)) s).
Proof.
  intros Hne (Hf & Hd & Hz & Ha).
  split; [by destruct s|]. split; [by destruct s|]. split; [by destruct s|].
  destruct s; simpl in *. by rewrite lookup_insert_ne.
Qed.

(** The closures of an entry settle the call of that entry only. *)
Lemma stuck_entryResolve c k h (e : Pending) v s :
  entryCall e ≠ c → stuck c k s → stuck c k (entryResolve h e v s).
Proof.
  intros Hne Hs. destruct e as [c'|r' c']; simpl in *.
  - apply stuck_settle; auto with stuckdb.
  - case_decide; [done|].
    assert (stuck c k (deletePending r' (clearTimeout c' (markResolved c' s))))
      by (unfold markResolved; auto with stuckdb).
    destruct v; [by apply stuck_settle | done].
Qed.

Lemma stuck_entryReject c k (e : Pending) msg s :
  entryCall e ≠ c → stuck c k s → stuck c k (entryReject e msg s).
Proof.
  intros Hne Hs. destruct e as [c'|r' c']; simpl in *.
  - by apply stuck_settle.
  - case_decide; [done|]. apply stuck_settle; [done|].
    unfold markResolved. auto with stuckdb.
Qed.

Lemma stuck_entry c k s (r : string) (e : Pending) :
  stuck c k s → pendingCaptures s !! r = Some e → entryCall e ≠ c.
Proof. intros (_ & [Hd _] & _) He Hc. by apply (Hd r e). Qed.

Lemma stuck_onMessage c k h m s : stuck c k s → stuck c k (onMessage h m s).
Proof.
  intros Hs. unfold onMessage. case_match; [done|].
  assert (H1 : stuck c k (onPageCaptured h m s)).
  { unfold onPageCaptured. case_match; [|done].
    destruct (pendingCaptures s !! requestId m) as [e|] eqn:He; [|done].
    pose proof (stuck_entry _ _ _ _ _ Hs He).
    case_match; [apply stuck_entryResolve | apply stuck_entryReject];
      auto with stuckdb. }
  assert (H2 : stuck c k (onPong h m (onPageCaptured h m s))).
  { unfold onPong. case_match; [|done].
    destruct (pendingCaptures _ !! requestId m) as [e|] eqn:He; [|done].
    pose proof (stuck_entry _ _ _ _ _ H1 He).
    case_match; [|done]. apply stuck_entryResolve; auto with stuckdb. }
  unfold onIframeReady. case_match; auto with stuckdb.
Qed.

Lemma stuck_fire c k id h s : stuck c k s → stuck c k (fire id h s).
Proof.
  intros Hs. unfold fire. destruct (timers s !! id) as [t|] eqn:Ht; [|done].
  case_match; [|done]. unfold runCallback.
  destruct (callback t) as [rid c'|rid c'|k'] eqn:Hcb.
  - assert (c' ≠ c).
    { intros ->. destruct Hs as (_ & [_ Hd] & _). apply (Hd id t).
      split; [done | by rewrite Hcb]. }
    unfold pingTimedOut. case_match; apply stuck_settle; auto with stuckdb.
  - assert (c' ≠ c).
    { intros ->. destruct Hs as (_ & [_ Hd] & _). apply (Hd id t).
      split; [done | by rewrite Hcb]. }
    unfold captureTimedOut. destruct (decide (c' ∈ _)); [auto with stuckdb|].
    apply stuck_settle; auto with stuckdb.
  - auto with stuckdb.
Qed.

(** Later registrations take later call numbers. *)
Lemma stuck_register c k s (pend : gmap string Pending) (tim : gmap nat Timer) :
  stuck c k s →
  (∀ r e, pend !! r = Some e →
          pendingCaptures s !! r = Some e ∨ entryCall e = fresh s) →
  (∀ id t, tim !! id = Some t →
           timers s !! id = Some t
           ∨ (∀ c', timeoutCall (callback t) = Some c' → c' = fresh s)) →
  stuck c k (set_pendingCaptures pend (set_timers tim (set_fresh (S (fresh s)) s))).
Proof.
  intros (Hf & [Hd1 Hd2] & Hz & Ha) Hp Ht.
  split; [destruct s; simpl in *; lia|]. split; [|by destruct s]. split.
  - intros r e [Hr Hc]. destruct s; simpl in *.
    destruct (Hp _ _ Hr) as [?|?]; [by apply (Hd1 r e) | lia].
  - intros id t [Hid Hc]. destruct s; simpl in *.
    destruct (Ht _ _ Hid) as [?|Hnew]; [by apply (Hd2 id t)|].
    specialize (Hnew _ Hc). lia.
Qed.

Lemma stuck_sleep c k ms (k' : Cont) h s : stuck c k s → stuck c k (sleep ms k' h s).
Proof.
  intros Hs.
  eapply stuck_view;
    [|apply (stuck_register c k s (pendingCaptures s)
               (<[fresh s := MkTimer (now h + ms) (Wake k')]> (timers s)) Hs)].
  - by destruct s.
  - auto.
  - intros id t [[-> <-]|[_ ?]]%lookup_insert_Some; [by right | by left].
Qed.

Lemma stuck_captureCurrentPage c k h s :
  stuck c k s → stuck c k (captureCurrentPage h s).2.
Proof.
  intros Hs. set (rid := "capture_" +:+ pretty (now h)).
  eapply stuck_view;
    [|apply (stuck_register c k s
               (<[rid := CaptureRequest rid (fresh s)]> (pendingCaptures s))
               (<[fresh s := MkTimer (now h + 15000) (CaptureTimeout rid (fresh s))]>
                  (timers s)) Hs)].
  - by destruct s.
  - intros r e [[_ <-]|[_ ?]]%lookup_insert_Some; [by right | by left].
  - intros id t [[-> <-]|[_ ?]]%lookup_insert_Some; [right|by left].
    by intros c' [= <-].
Qed.

Lemma stuck_pingIframe c k h s : stuck c k s → stuck c k (pingIframe h s).2.
Proof.
  intros Hs. unfold pingIframe. case_match; [done|].
  set (rid := "ping_" +:+ pretty (now h)).
  eapply stuck_view;
    [|apply (stuck_register c k s (<[rid := PingRequest (fresh s)]> (pendingCaptures s))
               (<[fresh s := MkTimer (now h + 5000) (PingTimeout rid (fresh s))]>
                  (timers s)) Hs)].
  - by destruct s.
  - intros r e [[_ <-]|[_ ?]]%lookup_insert_Some; [by right | by left].
  - intros id t [[-> <-]|[_ ?]]%lookup_insert_Some; [right|by left].
    by intros c' [= <-].
Qed.

Hint Resolve stuck_sleep stuck_captureCurrentPage stuck_pingIframe : stuckdb.

Lemma stuck_resume c k (k' : Cont) o h s : stuck c k s → stuck c k (resume k' o h s).
Proof.
  intros Hs.
  assert (Hcap : ∀ l, stuck c k (resume (AfterSettle l) o h s)).
  { intros l. unfold resume.
    destruct (captureCurrentPage h s) as [call s1] eqn:Hc.
    assert (call = fresh s) as -> by by rewrite <- (captureCurrentPage_call h s), Hc.
    apply stuck_await; [destruct Hs; lia|].
    change s1 with (fresh s, s1).2. rewrite <- Hc. auto with stuckdb. }
  destruct k'; [|apply Hcap|..]; destruct o;
    unfold resume, catchBlock, goToNextPage, loopHead, finish, done, updateStatus;
    destruct (nextButton h); repeat case_match; simplify_eq; auto 10 with stuckdb.
Qed.

Lemma stuck_startCapture c k h s : stuck c k s → stuck c k (startCapture h s).
Proof.
  intros Hs. unfold startCapture. case_match; [done|].
  set (s0 := updateStatus "Checking connection..." "info" (set_isRunning true s)).
  assert (Hs0 : stuck c k s0) by (unfold s0, updateStatus; auto with stuckdb).
  destruct (pingIframe h s0) as [[o|call] s1] eqn:Hping.
  - apply stuck_resume. change s1 with (Already o, s1).2. rewrite <- Hping.
    auto with stuckdb.
  - destruct (pingIframe_registers _ _ _ _ Hping) as (-> & _).
    apply stuck_await; [destruct Hs0; lia|].
    change s1 with (Later (fresh s0), s1).2. rewrite <- Hping. auto with stuckdb.
Qed.

Lemma stuck_handle c k h (ev : Event) s : stuck c k s → stuck c k (handle h ev s).
Proof.
  intros Hs. destruct ev; simpl.
  - repeat case_match; auto using stuck_startCapture with stuckdb.
    unfold generatePDF, updateStatus. repeat case_match; auto with stuckdb.
  - unfold updateStatus. auto with stuckdb.
  - auto with stuckdb.
  - by apply stuck_onMessage.
  - by apply stuck_fire.
Qed.

Lemma stuck_drain c k h s : stuck c k s → stuck c k (drain h s).
Proof.
  intros Hs. unfold drain.
  assert (Hs' : stuck c k (set_woken [] s)) by auto with stuckdb.
  revert Hs'. generalize (set_woken [] s).
  induction (woken s) as [|w ws IH]; intros s'; simpl; [done|].
  intros Hs'. apply IH. by apply stuck_resume.
Qed.

Lemma stuck_step c k h (ev : Event) s : stuck c k s → stuck c k (step h ev s).
Proof. intros. by apply stuck_drain, stuck_handle. Qed.

Lemma stuck_run c k trace s : stuck c k s → stuck c k (run trace s).
Proof.
  revert s. induction trace as [|[h ev] trace IH]; intros s Hs; simpl; [done|].
  by apply IH, stuck_step.
Qed.

(** The step in which a [sleep] timer comes due. *)
Lemma step_wake h s id d k :
  woken s = [] → timers s !! id = Some (MkTimer d (Wake k)) → (d ≤ now h)%Z →
  step h (Fire id) s = resume k (Resolved None) h (clearTimeout id s).
Proof.
  intros Hw Ht Hd. unfold step, handle, fire. rewrite Ht. simpl.
  rewrite bool_decide_eq_true_2 by done. simpl.
  erewrite drain_one; [|by destruct s; simpl in *; subst].
  f_equal. destruct s; simpl in *. by subst.
Qed.

(** The capture call the loop makes when it wakes is tracked. *)
Lemma wake_tracks_capture h s id d l :
  wf s → woken s = [] →
  timers s !! id = Some (MkTimer d (Wake (AfterSettle l))) → (d ≤ now h)%Z →
  tracked (fresh s) ("capture_" +:+ pretty (now h)) (step h (Fire id) s).
Proof.
  intros Hwf Hw Ht Hd. rewrite (step_wake h s id d (AfterSettle l)) by done.
  pose proof (tracked_registered h (clearTimeout id s) (wf_clearTimeout _ _ Hwf)) as Htr.
  assert (Hf : fresh (clearTimeout id s) = fresh s) by by destruct s.
  rewrite Hf in Htr. unfold resume.
  destruct (captureCurrentPage h (clearTimeout id s)) as [call s1] eqn:Hc.
  by apply tracked_set_awaiting.
Qed.

(** A tracked call that is awaited and unsettled when a success response
    without payload retires it: nothing can settle it any more. *)
Lemma stuck_retired c k (r : string) s :
  tracked c r s → settleCount s c = 0%nat → awaiting s !! c = Some k →
  stuck c k (retired r c s).
Proof.
  intros Htr Hz Ha.
  destruct (tracked_own_settle c r s (Resolved None) Htr Hz) as [_ [Hf _ _ Honce]].
  destruct (retired_lookups r c s) as (_ & _ & Hflag & Hlog & _ & Haw).
  split; [done|]. split; [|split].
  - by destruct Honce as [[_ ?]|[_ ?]].
  - unfold settleCount in *. by rewrite Hlog.
  - by rewrite Haw.
Qed.

(** X9: a response that claims success and carries no payload retires the
    request it names: the entry is deleted, the timeout cleared, and the
    stamp then fails on the missing payload before the promise is
    resolved.  From then on nothing can settle the call: in every later
    state its promise is still pending and the loop still waits for it. *)
Theorem payloadless_success_strands_run trace h h' id d l later :
  let s := run trace initial in
  let rid := "capture_" +:+ pretty (now h) in
  let s1 := step h (Fire id) s in
  let s2 := step h' (Receive (emptySuccess rid)) s1 in
  let s3 := run later s2 in
  timers s !! id = Some (MkTimer d (Wake (AfterSettle l))) → (d ≤ now h)%Z →
  is_Some (timers s1 !! fresh s)
  ∧ pendingCaptures s2 !! rid = None
  ∧ timers s2 !! fresh s = None
  ∧ capturedPages s2 = capturedPages s
  ∧ promiseState s3 (fresh s) = None
  ∧ awaiting s3 !! fresh s = Some (AfterCapture l)
  ∧ dead s3 (fresh s).
Proof.
  intros s rid s1 s2 s3 Ht Hd.
  destruct (wake_requests_capture h s id d l)
    as (Hp & Hflag & Hlog & Haw & Hw & Hpages & _);
    [apply wf_reachable | apply run_woken | done | done |].
  pose proof (wake_tracks_capture h s id d l (wf_reachable trace) (run_woken trace) Ht Hd)
    as Htr.
  fold s1 rid in Hp, Hflag, Hlog, Haw, Hw, Hpages, Htr.
  assert (Hs2 : s2 = retired rid (fresh s) s1).
  { unfold s2, step. simpl.
    rewrite (onMessage_capture_response h' _ s1 rid (fresh s)) by done. simpl.
    apply drain_quiet. by destruct (retired_lookups rid (fresh s) s1) as (_ & _ & _ & _ & -> & _). }
  assert (Hstuck : stuck (fresh s) (AfterCapture l) s2).
  { rewrite Hs2. apply stuck_retired; [done | by apply promiseState_settleCount | done]. }
  destruct (stuck_run _ _ later _ Hstuck) as (_ & Hdead & Hz & Hwait).
  destruct (retired_lookups rid (fresh s) s1) as (Hgone & Htimer & _).
  split; [|split; [by rewrite Hs2|split; [by rewrite Hs2|split; [|split; [|split]]]]].
  - destruct Htr as [_ _ _ _]. unfold s1.
    rewrite (step_wake h s id d (AfterSettle l)) by (done || apply run_woken).
    destruct (captureCurrentPage_registers h (clearTimeout id s)) as (_ & Htm & _).
    unfold resume. destruct (captureCurrentPage h (clearTimeout id s)) as [call sc] eqn:Hc.
    simpl in Htm. assert (fresh (clearTimeout id s) = fresh s) as Hf by by destruct s.
    rewrite Hf in Htm. destruct sc; simpl in *. by rewrite Htm.
  - rewrite Hs2, <- Hpages. clearbody s1. by destruct s1.
  - by apply promiseState_settleCount.
  - done.
  - done.
Qed.

(** The reader on page 5: the request of 1500 ms is answered at 1800 ms by
    a success response without payload; the capture timeout (due at
    16500 ms) was cleared, and a later, well-formed answer is ignored. *)
Lemma payloadless_success_strands_run_witness :
  let s := run [(readerHost 0, Receive readyA); (readerHost 1000, ClickAction)] initial in
  let rid := "capture_" +:+ pretty (now (readerHost 1500)) in
  let s1 := step (readerHost 1500) (Fire 0) s in
  let s2 := step (readerHost 1800) (Receive (emptySuccess rid)) s1 in
  let s3 := run [(readerHost 1900, Receive (answerOf "capture_1500"));
                 (readerHost 16500, Fire 1)] s2 in
  (promiseState s3 (fresh s) = None
   ∧ awaiting s3 !! fresh s = Some (AfterCapture (MkLocals 1 5 0)))
  ∧ rid = "capture_1500" ∧ fresh s = 1%nat
  ∧ capturedPages s3 = [] ∧ isRunning s3 = true.
Proof.
  intros s rid s1 s2 s3. split; [|by vm_compute].
  destruct (payloadless_success_strands_run
              [(readerHost 0, Receive readyA); (readerHost 1000, ClickAction)]
              (readerHost 1500) (readerHost 1800) 0 1500 (MkLocals 1 5 0)
              [(readerHost 1900, Receive (answerOf "capture_1500"));
               (readerHost 16500, Fire 1)])
    as (_ & _ & _ & _ & Hpending & Hwait & _);
    [reflexivity | vm_compute; discriminate |].
  split; [exact Hpending | exact Hwait].
Defined.

End Stuck.

(** ** The pages of the session are stamped *)

Create HintDb pagedb.

Section Pages.

Implicit Types (s : State) (h : Host) (c call id : nat) (k : Cont) (o : Outcome)
  (m : Message) (l : Locals) (v : Value).

Lemma currentPage_nonzero h : currentPage h ≠ 0.
Proof. unfold currentPage, orNumber. by repeat case_match. Qed.

Lemma stamped_stamp h d : stamped (Some (stamp h d)).
Proof.
  exists (stamp h d), (currentPage h). split; [done|]. split; [by eexists|].
  split; [done | apply currentPage_nonzero].
Qed.

Lemma paged_view s s' : pagedView s = pagedView s' → paged s → paged s'.
Proof.
  destruct s, s'. unfold pagedView. simpl. by intros [= -> -> -> -> -> ->].
Qed.

Lemma paged_initial : paged initial.
Proof.
  split; [constructor|]. split; [constructor|].
  split; [by intros c l H|]. split; [by intros id t l H|].
  split; [by intros rid e H|]. split; [by intros id t c H|by intros c [k H]].
Qed.

Lemma captureKind_sub s s' c :
  (∀ rid e, pendingCaptures s' !! rid = Some e → pendingCaptures s !! rid = Some e) →
  (∀ id t, timers s' !! id = Some t → timers s !! id = Some t) →
  captureKind s c → captureKind s' c.
Proof.
  intros Hp Ht [H1 H2]. split.
  - intros rid e H. by apply (H1 rid), Hp.
  - intros id t H. by apply (H2 id), Ht.
Qed.

(** Removing entries and timers. *)
Lemma paged_shrink s s' :
  capturedPages s' = capturedPages s → woken s' = woken s →
  awaiting s' = awaiting s → fresh s' = fresh s →
  (∀ rid e, pendingCaptures s' !! rid = Some e → pendingCaptures s !! rid = Some e) →
  (∀ id t, timers s' !! id = Some t → timers s !! id = Some t) →
  paged s → paged s'.
Proof.
  intros Hc Hw Ha Hf Hp Ht (H1 & H2 & H3 & H4 & H5 & H6 & H7).
  split; [by rewrite Hc|]. split; [by rewrite Hw|]. split; [|split; [|split; [|split]]].
  - intros c l H. rewrite Ha in H. by eapply captureKind_sub, H3.
  - intros id t l H. by apply (H4 id), Ht.
  - intros rid e H. rewrite Hf. by apply (H5 rid), Hp.
  - intros id t c H. rewrite Hf. by apply (H6 id), Ht.
  - intros c H. rewrite Hf. apply H7. by rewrite <- Ha.
Qed.

Lemma paged_deletePending s (r : string) : paged s → paged (deletePending r s).
Proof.
  apply paged_shrink; try by destruct s.
  destruct s; simpl. by intros rid e [_ ?]%lookup_delete_Some.
Qed.

Lemma paged_clearTimeout s id : paged s → paged (clearTimeout id s).
Proof.
  apply paged_shrink; try by destruct s.
  destruct s; simpl. by intros id' t [_ ?]%lookup_delete_Some.
Qed.

Lemma paged_set_isRunning b s : paged s → paged (set_isRunning b s).
Proof. apply paged_view. by destruct s. Qed.
Lemma paged_set_readyFrames b s : paged s → paged (set_readyFrames b s).
Proof. apply paged_view. by destruct s. Qed.
Lemma paged_set_resolvedFlag b s : paged s → paged (set_resolvedFlag b s).
Proof. apply paged_view. by destruct s. Qed.
Lemma paged_set_settleCalls b s : paged s → paged (set_settleCalls b s).
Proof. apply paged_view. by destruct s. Qed.
Lemma paged_set_status b s : paged s → paged (set_status b s).
Proof. apply paged_view. by destruct s. Qed.
Lemma paged_set_effects b s : paged s → paged (set_effects b s).
Proof. apply paged_view. by destruct s. Qed.

Hint Resolve paged_set_isRunning paged_set_readyFrames paged_set_resolvedFlag
  paged_set_settleCalls paged_set_status paged_set_effects
  paged_deletePending paged_clearTimeout : pagedb.

(** The session itself: a stamped page is added, or all pages are dropped. *)
Lemma paged_push v s :
  stamped v → paged s → paged (set_capturedPages (capturedPages s ++ [v]) s).
Proof.
  intros Hv (H1 & H2). split; [|by destruct s].
  destruct s; simpl in *. apply Forall_app. by split; [|constructor].
Qed.

Lemma paged_clear s : paged s → paged (set_capturedPages [] s).
Proof. intros (H1 & H2). split; [|by destruct s]. destruct s. constructor. Qed.

Lemma paged_set_woken_nil s : paged s → paged (set_woken [] s).
Proof.
  intros (H1 & H2 & H3). split; [by destruct s|]. split; [|by destruct s].
  destruct s. constructor.
Qed.

(** A call that settles a promise: the code it wakes may store the value. *)
Lemma paged_settle c o s :
  (∀ l, awaiting s !! c = Some (AfterCapture l) → okWake (AfterCapture l, o)) →
  paged s → paged (settle c o s).
Proof.
  intros Hok Hs. unfold settle.
  destruct (promiseState s c); [auto with pagedb|].
  destruct (awaiting s !! c) as [k|] eqn:Hk; [|auto with pagedb].
  assert (Hko : okWake (k, o)) by (destruct k; try done; by apply Hok).
  destruct Hs as (H1 & H2 & H3 & H4 & H5 & H6 & H7).
  split; [by destruct s|]. split; [|split; [|split; [by destruct s|split; [|split]]]].
  - destruct s; simpl in *. apply Forall_app. split; [done|]. by constructor.
  - intros c' l H.
    assert (awaiting s !! c' = Some (AfterCapture l)) as H'.
    { destruct s; simpl in *. by apply lookup_delete_Some in H as [_ ?]. }
    specialize (H3 _ _ H'). by destruct s.
  - destruct s. exact H5.
  - destruct s. exact H6.
  - intros c' [k' H]. destruct s; simpl in *. apply (H7 c').
    apply lookup_delete_Some in H as [_ H]. by exists k'.
Qed.

(** A probe's entry or timer belongs to a call no page is awaited from. *)
Lemma paged_ping_entry s (r : string) c l :
  paged s → pendingCaptures s !! r = Some (PingRequest c) →
  awaiting s !! c ≠ Some (AfterCapture l).
Proof.
  intros (_ & _ & H3 & _) He Ha. destruct (H3 _ _ Ha) as [Hk _].
  by destruct (Hk r (PingRequest c) He eq_refl).
Qed.

Lemma paged_ping_timer s id t (r : string) c l :
  paged s → timers s !! id = Some t → callback t = PingTimeout r c →
  awaiting s !! c ≠ Some (AfterCapture l).
Proof.
  intros (_ & _ & H3 & _) Ht Hcb Ha. destruct (H3 _ _ Ha) as [_ Hk].
  destruct (Hk id t Ht) as [r' Hr]; [by rewrite Hcb|]. congruence.
Qed.

Lemma paged_entryResolve h (e : Pending) v s (r : string) :
  paged s → pendingCaptures s !! r = Some e →
  paged (entryResolve h e v (deletePending r s)).
Proof.
  intros Hs He. destruct e as [c|r' c]; simpl.
  - apply paged_settle; [|auto with pagedb].
    intros l Ha. destruct (paged_ping_entry s r c l Hs He). by destruct s.
  - destruct (decide (c ∈ _)); [auto with pagedb|].
    assert (paged (deletePending r' (clearTimeout c (markResolved c (deletePending r s)))))
      by (unfold markResolved; auto with pagedb).
    destruct v as [d|]; [|done]. apply paged_settle; [|done].
    intros l _. apply stamped_stamp.
Qed.

Lemma paged_entryReject (e : Pending) msg s : paged s → paged (entryReject e msg s).
Proof.
  intros Hs. destruct e as [c|r' c]; simpl.
  - by apply paged_settle.
  - destruct (decide (c ∈ _)); [done|]. apply paged_settle; [done|].
    unfold markResolved. auto with pagedb.
Qed.

Lemma paged_onMessage h m s : paged s → paged (onMessage h m s).
Proof.
  intros Hs. unfold onMessage. case_match; [done|].
  assert (H1 : paged (onPageCaptured h m s)).
  { unfold onPageCaptured. case_match; [|done].
    destruct (pendingCaptures s !! requestId m) as [e|] eqn:He; [|done].
    case_match; [by apply paged_entryResolve|].
    apply paged_entryReject. auto with pagedb. }
  assert (H2 : paged (onPong h m (onPageCaptured h m s))).
  { unfold onPong. case_match; [|done].
    destruct (pendingCaptures _ !! requestId m) as [e|] eqn:He; [|done].
    case_match; [|done]. by apply paged_entryResolve. }
  unfold onIframeReady. case_match; auto with pagedb.
Qed.

Lemma paged_fire id h s : paged s → paged (fire id h s).
Proof.
  intros Hs. unfold fire. destruct (timers s !! id) as [t|] eqn:Ht; [|done].
  case_match; [|done]. unfold runCallback.
  destruct (callback t) as [rid c|rid c|k] eqn:Hcb.
  - assert (Hno : ∀ l, awaiting s !! c ≠ Some (AfterCapture l))
      by (intros l; by eapply paged_ping_timer).
    unfold pingTimedOut. case_match; apply paged_settle; auto with pagedb;
      intros l Ha; destruct (Hno l); by destruct s.
  - unfold captureTimedOut. destruct (decide (c ∈ _)); [auto with pagedb|].
    apply paged_settle; [done | auto with pagedb].
  - assert (Hk : ∀ l, k ≠ AfterCapture l).
    { intros l ->. destruct Hs as (_ & _ & _ & H4 & _). by apply (H4 id t l). }
    destruct (paged_clearTimeout s id Hs) as (H1 & H2 & H3).
    split; [by destruct s|]. split; [|by destruct s].
    destruct s; simpl in *. apply Forall_app. split; [done|]. constructor; [|done].
    destruct k; try done. by destruct (Hk l).
Qed.

(** Registrations: the entry and the timeout of a new call, or the timer
    of a [sleep]. *)
Lemma paged_register s (pend : gmap string Pending) (tim : gmap nat Timer) :
  paged s →
  (∀ rid e, pend !! rid = Some e →
            pendingCaptures s !! rid = Some e
            ∨ entryCall e = fresh s ∨ ∃ r c, e = CaptureRequest r c ∧ (c ≤ fresh s)%nat) →
  (∀ id t, tim !! id = Some t →
           timers s !! id = Some t
           ∨ timeoutCall (callback t) = Some (fresh s)
           ∨ (∃ r c, callback t = CaptureTimeout r c ∧ (c ≤ fresh s)%nat)
           ∨ (∃ k, callback t = Wake k ∧ ∀ l, k ≠ AfterCapture l)) →
  paged (set_pendingCaptures pend (set_timers tim (set_fresh (S (fresh s)) s))).
Proof.
  intros (H1 & H2 & H3 & H4 & H5 & H6 & H7) Hp Ht.
  split; [by destruct s|]. split; [by destruct s|].
  split; [|split; [|split; [|split]]].
  - intros c l Ha.
    assert (Ha' : awaiting s !! c = Some (AfterCapture l)) by by destruct s.
    assert (Hc : (c < fresh s)%nat) by (apply H7; by eexists).
    destruct (H3 _ _ Ha') as [Hk1 Hk2]. split.
    + intros rid e He Hcall. destruct s; simpl in *.
      destruct (Hp _ _ He) as [?|[?|(r & c' & -> & _)]]; [by eapply Hk1 | lia |].
      simpl in Hcall. subst. by exists r.
    + intros id t Hid Hcall. destruct s; simpl in *.
      destruct (Ht _ _ Hid) as [?|[Hnew|[(r & c' & Hcb & _)|(k & Hcb & _)]]].
      * by eapply Hk2.
      * rewrite Hnew in Hcall. injection Hcall as <-. lia.
      * rewrite Hcb in Hcall. injection Hcall as <-. by exists r.
      * by rewrite Hcb in Hcall.
  - intros id t l Hid Hcb. destruct s; simpl in *.
    destruct (Ht _ _ Hid) as [?|[Hnew|[(r & c' & Hcb' & _)|(k & Hcb' & Hk)]]].
    + by eapply H4.
    + by rewrite Hcb in Hnew.
    + congruence.
    + rewrite Hcb in Hcb'. injection Hcb' as <-. by destruct (Hk l).
  - intros rid e He. destruct s; simpl in *.
    destruct (Hp _ _ He) as [?|[?|(r & c' & -> & ?)]]; [|lia|simpl; lia].
    apply Nat.lt_lt_succ_r. by eapply H5.
  - intros id t c Hid Hcall. destruct s; simpl in *.
    destruct (Ht _ _ Hid) as [?|[Hnew|[(r & c' & Hcb & ?)|(k & Hcb & _)]]].
    + apply Nat.lt_lt_succ_r. by eapply H6.
    + rewrite Hnew in Hcall. injection Hcall as <-. lia.
    + rewrite Hcb in Hcall. injection Hcall as <-. lia.
    + by rewrite Hcb in Hcall.
  - intros c Hc. destruct s; simpl in *. apply Nat.lt_lt_succ_r. by apply H7.
Qed.

Lemma paged_sleep ms k h s : (∀ l, k ≠ AfterCapture l) → paged s → paged (sleep ms k h s).
Proof.
  intros Hk Hs.
  eapply paged_view;
    [|apply (paged_register s (pendingCaptures s)
               (<[fresh s := MkTimer (now h + ms) (Wake k)]> (timers s)) Hs)].
  - by destruct s.
  - auto.
  - intros id t [[-> <-]|[_ ?]]%lookup_insert_Some; [|by left].
    right; right; right. by exists k.
Qed.

Lemma paged_captureCurrentPage h s : paged s → paged (captureCurrentPage h s).2.
Proof.
  intros Hs. set (rid := "capture_" +:+ pretty (now h)).
  eapply paged_view;
    [|apply (paged_register s
               (<[rid := CaptureRequest rid (fresh s)]> (pendingCaptures s))
               (<[fresh s := MkTimer (now h + 15000) (CaptureTimeout rid (fresh s))]>
                  (timers s)) Hs)].
  - by destruct s.
  - intros r e [[_ <-]|[_ ?]]%lookup_insert_Some; [|by left].
    right; right. by exists rid, (fresh s).
  - intros id t [[-> <-]|[_ ?]]%lookup_insert_Some; [|by left].
    right; right; left. do 2 eexists. simpl. split; [done | lia].
Qed.

Lemma paged_pingIframe h s : paged s → paged (pingIframe h s).2.
Proof.
  intros Hs. unfold pingIframe. case_match; [done|].
  set (rid := "ping_" +:+ pretty (now h)).
  eapply paged_view;
    [|apply (paged_register s (<[rid := PingRequest (fresh s)]> (pendingCaptures s))
               (<[fresh s := MkTimer (now h + 5000) (PingTimeout rid (fresh s))]>
                  (timers s)) Hs)].
  - by destruct s.
  - intros r e [[_ <-]|[_ ?]]%lookup_insert_Some; [by right; left | by left].
  - intros id t [[-> <-]|[_ ?]]%lookup_insert_Some; [by right; left | by left].
Qed.

(** Code starts to await the call it has just made. *)
Lemma paged_await_probe h s call s1 l :
  paged s → pingIframe h s = (Later call, s1) →
  paged (set_awaiting (<[call := AfterPing l]> (awaiting s1)) s1).
Proof.
  intros Hs Hping.
  assert (Hs1 : paged s1).
  { change s1 with (Later call, s1).2. rewrite <- Hping. by apply paged_pingIframe. }
  assert (Hcall : (call < fresh s1)%nat).
  { unfold pingIframe in Hping. destruct (firstWithImage s); [done|].
    injection Hping as <- <-. destruct s; simpl. lia. }
  destruct Hs1 as (H1 & H2 & H3 & H4 & H5 & H6 & H7).
  split; [by destruct s1|]. split; [by destruct s1|].
  split; [|split; [by destruct s1|split; [by destruct s1|split; [by destruct s1|]]]].
  - intros c l' Ha.
    assert (awaiting s1 !! c = Some (AfterCapture l')) as Ha'.
    { destruct s1; simpl in *. by apply lookup_insert_Some in Ha as [[_ ?]|[_ ?]]. }
    specialize (H3 _ _ Ha'). by destruct s1.
  - intros c [k Hc]. destruct s1; simpl in *.
    apply lookup_insert_Some in Hc as [[<- _]|[_ Hc]]; [done|]. apply H7. by exists k.
Qed.

Lemma paged_await_capture h s l :
  paged s →
  paged (set_awaiting (<[fresh s := AfterCapture l]> (awaiting (captureCurrentPage h s).2))
           (captureCurrentPage h s).2).
Proof.
  intros Hs. pose proof (paged_captureCurrentPage h s Hs) as Hs1.
  pose proof (captureCurrentPage_fresh h s) as Hf.
  pose proof (captureCurrentPage_pending h s) as Hp.
  assert (Ht : timers (captureCurrentPage h s).2
               = <[fresh s := MkTimer (now h + 15000)
                     (CaptureTimeout ("capture_" +:+ pretty (now h)) (fresh s))]> (timers s))
    by by destruct s.
  destruct Hs as (_ & _ & _ & _ & G5 & G6 & _).
  set (s1 := (captureCurrentPage h s).2) in *. clearbody s1.
  destruct Hs1 as (H1 & H2 & H3 & H4 & H5 & H6 & H7).
  split; [by destruct s1|]. split; [by destruct s1|].
  split; [|split; [by destruct s1|split; [by destruct s1|split; [by destruct s1|]]]].
  - intros c l' Ha. destruct (decide (c = fresh s)) as [->|Hne].
    + split.
      * intros rid e He Hcall.
        assert (pendingCaptures s1 !! rid = Some e) as He' by by destruct s1.
        rewrite Hp in He'. apply lookup_insert_Some in He' as [[_ <-]|[_ He']].
        -- by eexists.
        -- specialize (G5 _ _ He'). lia.
      * intros id t Hid Hcall.
        assert (timers s1 !! id = Some t) as Hid' by by destruct s1.
        rewrite Ht in Hid'. apply lookup_insert_Some in Hid' as [[_ <-]|[_ Hid']].
        -- by eexists.
        -- specialize (G6 _ _ _ Hid' Hcall). lia.
    + assert (awaiting s1 !! c = Some (AfterCapture l')) as Ha'.
      { destruct s1; simpl in *. by rewrite lookup_insert_ne in Ha. }
      specialize (H3 _ _ Ha'). by destruct s1.
  - intros c [k Hc]. destruct s1; simpl in *.
    apply lookup_insert_Some in Hc as [[<- _]|[_ Hc]]; [lia|]. apply H7. by exists k.
Qed.

Hint Resolve paged_captureCurrentPage paged_pingIframe : pagedb.

Lemma paged_loopHead l h s : paged s → paged (loopHead l h s).
Proof.
  intros Hs. unfold loopHead, finish. case_match; [|auto with pagedb].
  by apply paged_sleep.
Qed.

Lemma paged_goToNextPage k h s s' :
  (∀ l, k ≠ AfterCapture l) → paged s → goToNextPage k h s = inr s' → paged s'.
Proof.
  intros Hk Hs. unfold goToNextPage. destruct (nextButton h); try done.
  intros [= <-]. apply paged_sleep; auto with pagedb.
Qed.

Lemma paged_catchBlock l msg h s : paged s → paged (catchBlock l msg h s).
Proof.
  intros Hs. unfold catchBlock, finish, done, updateStatus.
  case_decide; [auto with pagedb|].
  destruct (goToNextPage _ _ _) as [e|s'] eqn:Hgo; [auto with pagedb|].
  eapply (paged_goToNextPage (AfterRecovery l) h); [| |exact Hgo];
    [done | auto with pagedb].
Qed.

Lemma paged_resume k o h s : okWake (k, o) → paged s → paged (resume k o h s).
Proof.
  intros Hok Hs. destruct k as [l|l|l|l|l]; unfold resume.
  - destruct o; [|unfold updateStatus; auto with pagedb].
    apply paged_loopHead. unfold updateStatus. auto with pagedb.
  - pose proof (paged_await_capture h s l Hs) as H.
    rewrite <- (captureCurrentPage_call h s) in H.
    destruct (captureCurrentPage h s) as [call s1]. exact H.
  - destruct o as [v|msg]; [|by apply paged_catchBlock].
    set (s1 := updateStatus _ _ _).
    assert (Hs1 : paged s1).
    { unfold s1, updateStatus. by apply paged_set_status, paged_push. }
    case_match; [unfold finish, done, updateStatus; auto with pagedb|].
    destruct (goToNextPage _ _ _) as [e|s'] eqn:Hgo; [by apply paged_catchBlock|].
    by eapply (paged_goToNextPage (AfterNext _) h); [| |exact Hgo].
  - by apply paged_loopHead.
  - by apply paged_loopHead.
Qed.

Lemma paged_startCapture h s : paged s → paged (startCapture h s).
Proof.
  intros Hs. unfold startCapture. case_match; [done|].
  set (s0 := updateStatus "Checking connection..." "info" (set_isRunning true s)).
  assert (Hs0 : paged s0) by (unfold s0, updateStatus; auto with pagedb).
  destruct (pingIframe h s0) as [[o|call] s1] eqn:Hping.
  - apply paged_resume; [done|]. change s1 with (Already o, s1).2. rewrite <- Hping.
    auto with pagedb.
  - by eapply paged_await_probe.
Qed.

Lemma paged_handle h (ev : Event) s : paged s → paged (handle h ev s).
Proof.
  intros Hs. destruct ev; simpl.
  - repeat case_match; auto using paged_startCapture with pagedb.
    unfold generatePDF, updateStatus. repeat case_match; auto with pagedb.
  - unfold updateStatus. by apply paged_set_status, paged_clear.
  - auto with pagedb.
  - by apply paged_onMessage.
  - by apply paged_fire.
Qed.

Lemma paged_drain h s : paged s → paged (drain h s).
Proof.
  intros Hs. unfold drain.
  assert (Hw : Forall okWake (woken s)) by by destruct Hs as (_ & ? & _).
  pose proof (paged_set_woken_nil s Hs) as Hs'.
  revert Hs'. generalize (set_woken [] s).
  induction Hw as [|[k o] ws Hok _ IH]; intros s' Hs'; simpl; [done|].
  apply IH. by apply paged_resume.
Qed.

Lemma paged_step h (ev : Event) s : paged s → paged (step h ev s).
Proof. intros. by apply paged_drain, paged_handle. Qed.

Lemma paged_run trace s : paged s → paged (run trace s).
Proof.
  revert s. induction trace as [|[h ev] trace IH]; intros s Hs; simpl; [done|].
  by apply IH, paged_step.
Qed.

(** X11: in every reachable state, every page of the session is an
    object that carries a timestamp and a page number other than 0: the
    loop stores what a capture call resolved with, never the value of a
    probe or of a [sleep], and a capture call resolves with a stamped
    object only. *)
Theorem session_pages_stamped trace :
  Forall stamped (capturedPages (run trace initial)).
Proof.
  pose proof (paged_run trace initial paged_initial) as (Hpages & _).
  exact Hpages.
Qed.

End Pages.

(** ** The name of the saved document *)

Section SavedName.

Import Content.
Import Assembly.

Implicit Types (s : State) (d : Titles) (field name : jsstring).

Lemma trimLeft_id name :
  match name with c :: _ => isSpace c = false | [] => True end → trimLeft name = name.
Proof. destruct name as [|c r]; simpl; [done|]. by intros ->. Qed.

(** Trimming leaves a name of allowed characters as it is. *)
Lemma trim_allowed name : Forall (λ c, allowed c = true) name → trim name = name.
Proof.
  intros Hall. unfold trim.
  assert (Hfirst : ∀ l : jsstring, Forall (λ c, allowed c = true) l →
                   match l with c :: _ => isSpace c = false | [] => True end).
  { intros [|c r] Hl; [done|]. apply allowed_not_space. by inversion Hl. }
  rewrite (trimLeft_id name) by by apply Hfirst.
  rewrite trimLeft_id; [apply reverse_involutive|].
  apply Hfirst. by apply Forall_reverse.
Qed.

Lemma sanitizeFilename_length name : (length (sanitizeFilename name) ≤ 50)%nat.
Proof. unfold sanitizeFilename. rewrite length_take. lia. Qed.

Lemma last_elem_of {A} (l : list A) (x : A) : last l = Some x → x ∈ l.
Proof.
  intros [l' ->]%last_Some. apply elem_of_app. right. apply list_elem_of_singleton. done.
Qed.

(** X12: in every reachable state with pages in the session,
    [generatePDF] finds a page number on the first and on the last page:
    the document is saved under the stem, the number stamped on the first
    page and the number stamped on the last page, and neither fallback
    ([1], the number of pages) is used.  With the name field blank the
    stem is a sanitized name. *)
Theorem saved_name_has_stamped_numbers trace field d :
  let pages := capturedPages (run trace initial) in
  pages ≠ [] →
  ∃ first final a b,
    head pages = Some (Some first) ∧ last pages = Some (Some final)
    ∧ o_pageNumber first = Some a ∧ o_pageNumber final = Some b
    ∧ pdfName field d pages = Some (MkPdfName (fileStem field d) a b)
    ∧ (trim field = [] →
       Forall (λ c, allowed c = true) (fileStem field d)
       ∧ (length (fileStem field d) ≤ 50)%nat).
Proof.
  intros pages Hne.
  pose proof (paged_run trace initial paged_initial) as (Hpages & _).
  fold pages in Hpages. rewrite list.Forall_forall in Hpages.
  destruct (head pages) as [v1|] eqn:Hhead; [|by destruct pages].
  destruct (last pages) as [v2|] eqn:Hlast; [|by apply last_None in Hlast].
  destruct (Hpages v1) as (first & a & -> & _ & Ha & Ha0);
    [by apply head_Some_elem_of|].
  destruct (Hpages v2) as (final & b & -> & _ & Hb & Hb0); [by apply last_elem_of|].
  exists first, final, a, b. do 4 (split; [done|]). split.
  - unfold pdfName. rewrite Hhead, Hlast. simpl. rewrite Ha, Hb.
    do 2 f_equal; unfold orNumber; by repeat case_match.
  - intros Hblank. unfold fileStem. rewrite Hblank.
    split; [apply sanitizeFilename_allowed | apply sanitizeFilename_length].
Qed.

(** Two pages captured on page 5 of the reader, no name given, the title
    taken from the document. *)
Lemma saved_name_has_stamped_numbers_witness :
  let trace := (twoPageHost 0, Receive readyA) :: (twoPageHost 1000, ClickAction) :: twoPages in
  let d := MkTitles None (of_string "Algebra | Bookshelf") in
  pdfName [] d (capturedPages (run trace initial))
  = Some (MkPdfName (of_string "Algebra") 5 5).
Proof.
  destruct (saved_name_has_stamped_numbers
              ((twoPageHost 0, Receive readyA) :: (twoPageHost 1000, ClickAction) :: twoPages)
              [] (MkTitles None (of_string "Algebra | Bookshelf")))
    as (first & final & a & b & Hhead & Hlast & Ha & Hb & Hname & _);
    [by vm_compute|].
  vm_compute in Hhead. vm_compute in Hlast.
  injection Hhead as <-. injection Hlast as <-.
  vm_compute in Ha. vm_compute in Hb. injection Ha as <-. injection Hb as <-.
  intros trace d. subst trace d. rewrite Hname. by vm_compute.
Defined.

(** X13: the dialog opens with the sanitized title in the name field
    (or with an empty field when there is no title).  Left as it is, that
    field gives the same stem as an empty field would: the sanitized
    title, or the sanitized default when there is no title.  A title none
    of whose characters is kept gives the empty stem, not the default. *)
Theorem untouched_name_field d :
  fileStem (initialField d) d = fileStem [] d
  ∧ fileStem [] d = sanitizeFilename (orName (getBookTitle d) (of_string "vitalsource-book"))
  ∧ (getBookTitle d = None ∨ getBookTitle d = Some [] →
     fileStem [] d = of_string "vitalsource-book")
  ∧ (∀ t, getBookTitle d = Some t → t ≠ [] →
          Forall (λ c, kept c = false) t → fileStem [] d = []).
Proof.
  assert (Hempty : fileStem [] d
                   = sanitizeFilename (orName (getBookTitle d) (of_string "vitalsource-book")))
    by done.
  split; [|split; [done|split]].
  - rewrite Hempty. unfold initialField, fileStem.
    destruct (getBookTitle d) as [[|c r]|]; [done| |done]. simpl orName.
    rewrite trim_allowed by apply sanitizeFilename_allowed.
    by destruct (sanitizeFilename (c :: r)).
  - rewrite Hempty. by intros [->| ->]; vm_compute.
  - intros t Ht Hne Hdrop. rewrite Hempty, Ht.
    destruct t as [|c r]; [done|]. simpl orName.
    unfold sanitizeFilename. apply filter_kept_nil in Hdrop. by rewrite Hdrop.
Qed.

End SavedName.

(** ** Responses are matched by request id only *)

Section Kinds.

Implicit Types (s : State) (h : Host) (c : nat) (l : Locals) (o : Outcome).

(** The listener on a pong that names a pending capture request. *)
Lemma onMessage_pong_for_capture h (m : Message) s (rid : string) c :
  type m = "VS_PONG" → requestId m = rid → rid ≠ "" → hasImage m = true →
  pendingCaptures s !! rid = Some (CaptureRequest rid c) →
  c ∉ resolvedFlag s →
  onMessage h m s
  = settle c (Resolved (Some (stamp h (readyObj (MkReady true (url m))))))
      (retired rid c s).
Proof.
  intros Hty Hrid Hne Himg Hp Hres.
  unfold onMessage, onIframeReady, onPong, onPageCaptured. rewrite Hty, Hrid, Himg. simpl.
  assert (Ht : truthy rid = true) by by apply bool_decide_eq_true.
  rewrite Ht, Hp. simpl.
  assert (Hres' : c ∉ resolvedFlag (deletePending rid s)) by by destruct s.
  by rewrite decide_False.
Qed.

(** Settling the call the loop waits for resumes the loop at once. *)
Lemma drain_settle_awaited h s c o l :
  promiseState s c = None → awaiting s !! c = Some (AfterCapture l) → woken s = [] →
  drain h (settle c o s)
  = resume (AfterCapture l) o h
      (set_woken []
         (set_awaiting (delete c (awaiting s))
            (set_settleCalls (settleCalls s ++ [(c, o)]) s))).
Proof.
  intros Hpend Haw Hw. rewrite (settle_wakes _ _ _ _ Hpend Haw), Hw. simpl.
  erewrite drain_one; [|by destruct s]. f_equal. by destruct s.
Qed.

(** X14: the listener matches a response to a pending entry by request
    id alone, not by kind.  In every reachable state, a pong that reports
    an image and names the capture request the loop waits for is taken
    for the answer: the request is retired and the pong, stamped, becomes
    the next page of the session, a page without image data, width or
    height. *)
Theorem pong_taken_for_page trace h h' id d l (u : string) :
  let s := run trace initial in
  let rid := "capture_" +:+ pretty (now h) in
  let s1 := step h (Fire id) s in
  let s2 := step h' (Receive (MkMessage "VS_PONG" rid false None "" true u)) s1 in
  let page := stamp h' (readyObj (MkReady true u)) in
  timers s !! id = Some (MkTimer d (Wake (AfterSettle l))) → (d ≤ now h)%Z →
  capturedPages s2 = capturedPages s ++ [Some page]
  ∧ pendingCaptures s2 !! rid = None
  ∧ o_data page = None ∧ o_width page = None ∧ o_height page = None.
Proof.
  intros s rid s1 s2 page Ht Hd.
  destruct (wake_requests_capture h s id d l)
    as (Hp & Hflag & Hlog & Haw & Hw & Hpages & _);
    [apply wf_reachable | apply run_woken | done | done |].
  fold s1 rid in Hp, Hflag, Hlog, Haw, Hw, Hpages.
  split; [|split; [|done]].
  - unfold s2, step. simpl handle.
    rewrite (onMessage_pong_for_capture h' _ s1 rid (fresh s)) by done. simpl url.
    destruct (retired_lookups rid (fresh s) s1) as (_ & _ & _ & Hlog' & Hw' & Haw').
    rewrite (drain_settle_awaited h' _ (fresh s) _ l);
      [|unfold promiseState in *; by rewrite Hlog'|by rewrite Haw'|by rewrite Hw'].
    rewrite resume_afterCapture_pages, <- Hpages. clearbody s1. by destruct s1.
  - unfold s2, step. simpl handle.
    rewrite (onMessage_pong_for_capture h' _ s1 rid (fresh s)) by done. simpl url.
    destruct (retired_lookups rid (fresh s) s1) as (Hgone & _ & _ & Hlog' & Hw' & Haw').
    rewrite (drain_settle_awaited h' _ (fresh s) _ l);
      [|unfold promiseState in *; by rewrite Hlog'|by rewrite Haw'|by rewrite Hw'].
    rewrite resume_pendingCaptures by done. clearbody s1. destruct s1; simpl in *.
    apply lookup_delete_eq.
Qed.

(** The reader on page 5: the capture request of 1500 ms, and a pong that
    carries its id. *)
Lemma pong_taken_for_page_witness :
  let s := run [(readerHost 0, Receive readyA); (readerHost 1000, ClickAction)] initial in
  let rid := "capture_" +:+ pretty (now (readerHost 1500)) in
  let s1 := step (readerHost 1500) (Fire 0) s in
  let s2 := step (readerHost 1800)
              (Receive (MkMessage "VS_PONG" rid false None "" true "https://cdn.example/a")) s1 in
  capturedPages s2
  = capturedPages s ++ [Some (stamp (readerHost 1800)
                                (readyObj (MkReady true "https://cdn.example/a")))]
  ∧ rid = "capture_1500" ∧ capturedPages s = []
  ∧ status s2 = ("Done! 1 pages captured.", "success").
Proof.
  intros s rid s1 s2. split; [|by vm_compute].
  destruct (pong_taken_for_page
              [(readerHost 0, Receive readyA); (readerHost 1000, ClickAction)]
              (readerHost 1500) (readerHost 1800) 0 1500 (MkLocals 1 5 0)
              "https://cdn.example/a") as (Hpages & _);
    [reflexivity | vm_compute; discriminate |].
  exact Hpages.
Defined.

End Kinds.

(** ** Every pending request has its timeout armed *)

Create HintDb guarddb.

Section Guarded.

Implicit Types (s : State) (h : Host) (c call id : nat) (k : Cont) (o : Outcome)
  (m : Message) (l : Locals) (e : Pending) (rid r : string).

Lemma guarded_view s s' : guardView s = guardView s' → guarded s → guarded s'.
Proof.
  destruct s, s'. unfold guardView. simpl. by intros [= -> -> -> ->].
Qed.

Lemma guarded_initial : guarded initial.
Proof. split; [by intros rid e H|]. split; [by intros id t H | by intros c H]. Qed.

(** Two entries of the same call are one entry. *)
Lemma armed_same_call s rid rid' e e' :
  armed s rid e → armed s rid' e' → entryCall e = entryCall e' → rid = rid'.
Proof.
  intros [(t & Ht & Hcb) Hk] [(t' & Ht' & Hcb') Hk'] Hc.
  rewrite Hc, Ht' in Ht. injection Ht as ->. rewrite Hcb' in Hcb.
  destruct e, e'; simpl in *; destruct_and?; congruence.
Qed.

Lemma guarded_set_capturedPages v s : guarded s → guarded (set_capturedPages v s).
Proof. apply guarded_view. by destruct s. Qed.
Lemma guarded_set_isRunning v s : guarded s → guarded (set_isRunning v s).
Proof. apply guarded_view. by destruct s. Qed.
Lemma guarded_set_readyFrames v s : guarded s → guarded (set_readyFrames v s).
Proof. apply guarded_view. by destruct s. Qed.
Lemma guarded_set_settleCalls v s : guarded s → guarded (set_settleCalls v s).
Proof. apply guarded_view. by destruct s. Qed.
Lemma guarded_set_awaiting v s : guarded s → guarded (set_awaiting v s).
Proof. apply guarded_view. by destruct s. Qed.
Lemma guarded_set_woken v s : guarded s → guarded (set_woken v s).
Proof. apply guarded_view. by destruct s. Qed.
Lemma guarded_set_status v s : guarded s → guarded (set_status v s).
Proof. apply guarded_view. by destruct s. Qed.
Lemma guarded_set_effects v s : guarded s → guarded (set_effects v s).
Proof. apply guarded_view. by destruct s. Qed.

Lemma guarded_settle c o s : guarded s → guarded (settle c o s).
Proof.
  apply guarded_view. pose proof (settle_core s c o) as H.
  unfold core, guardView in *. destruct s; simpl in *. by injection H as -> -> _ -> ->.
Qed.

Lemma guarded_deletePending s rid : guarded s → guarded (deletePending rid s).
Proof.
  intros (He & Ht & Hfl). split; [|by destruct s].
  intros rid' e H. destruct s; simpl in *.
  apply lookup_delete_Some in H as [_ H]. apply (He _ _ H).
Qed.

Hint Resolve guarded_set_capturedPages guarded_set_isRunning guarded_set_readyFrames
  guarded_set_settleCalls guarded_set_awaiting guarded_set_woken guarded_set_status
  guarded_set_effects guarded_settle guarded_deletePending : guarddb.

(** Retiring call [c] once its entry is gone: no other entry needs its
    timer or its flag. *)
Lemma guarded_retire s rid e (flag : gset nat) :
  guarded s → pendingCaptures s !! rid = Some e →
  (∀ c, c ∈ flag → c ∈ resolvedFlag s ∨ c = entryCall e) →
  guarded (set_resolvedFlag flag (clearTimeout (entryCall e) (deletePending rid s))).
Proof.
  intros (He & Ht & Hfl) Hrid Hflag. split; [|split].
  - intros rid' e' H.
    assert (Hne : rid ≠ rid' ∧ pendingCaptures s !! rid' = Some e').
    { destruct s; simpl in *. by apply lookup_delete_Some in H. }
    destruct Hne as [Hne H'].
    destruct (He _ _ H') as [Harm' Hf']. destruct (He _ _ Hrid) as [Harm _].
    assert (Hcall : entryCall e' ≠ entryCall e).
    { intros Heq. by destruct (armed_same_call _ _ _ _ _ Harm' Harm Heq). }
    split; [|by destruct s]. destruct Harm' as [(t & Ht' & Hcb) Hkind]. split.
    + exists t. split; [|done]. destruct s; simpl in *. by rewrite lookup_delete_ne.
    + destruct e' as [c'|r' c']; [done|]. destruct Hkind as [-> Hc']. split; [done|].
      simpl in Hcall. destruct s; simpl in *. intros Hin.
      by destruct (Hflag _ Hin).
  - intros id t H. destruct s; simpl in *.
    apply lookup_delete_Some in H as [_ H]. by apply (Ht id t).
  - intros c Hc. destruct (He _ _ Hrid) as [_ Hf]. destruct s; simpl in *.
    destruct (Hflag _ Hc) as [?| ->]; [by apply Hfl | done].
Qed.

Lemma guarded_entryResolve h e v s rid :
  guarded s → pendingCaptures s !! rid = Some e →
  guarded (entryResolve h e v (deletePending rid s)).
Proof.
  intros Hs He. destruct e as [c|r c]; simpl.
  - apply guarded_settle.
    eapply guarded_view; [|apply (guarded_retire s rid _ (resolvedFlag s) Hs He); auto].
    by destruct s.
  - destruct (decide (c ∈ _)); [auto with guarddb|].
    assert (r = rid) as ->.
    { destruct Hs as [Hs _]. by destruct (Hs _ _ He) as [[_ [? _]] _]. }
    assert (guarded (deletePending rid (clearTimeout c (markResolved c (deletePending rid s))))).
    { apply guarded_deletePending.
      eapply guarded_view;
        [|apply (guarded_retire s rid _ ({[c]} ∪ resolvedFlag s) Hs He)].
      - by destruct s.
      - intros c' [->%elem_of_singleton|?]%elem_of_union; [by right | by left]. }
    destruct v; [by apply guarded_settle | done].
Qed.

Lemma guarded_entryReject e msg s rid :
  guarded s → pendingCaptures s !! rid = Some e →
  guarded (entryReject e msg (deletePending rid s)).
Proof.
  intros Hs He. destruct e as [c|r c]; simpl.
  - auto with guarddb.
  - destruct (decide (c ∈ _)); [auto with guarddb|].
    assert (r = rid) as ->.
    { destruct Hs as [Hs _]. by destruct (Hs _ _ He) as [[_ [? _]] _]. }
    apply guarded_settle, guarded_deletePending.
    eapply guarded_view;
      [|apply (guarded_retire s rid _ ({[c]} ∪ resolvedFlag s) Hs He)].
    + by destruct s.
    + intros c' [->%elem_of_singleton|?]%elem_of_union; [by right | by left].
Qed.

Lemma guarded_onMessage h m s : guarded s → guarded (onMessage h m s).
Proof.
  intros Hs. unfold onMessage. case_match; [done|].
  assert (H1 : guarded (onPageCaptured h m s)).
  { unfold onPageCaptured. case_match; [|done].
    destruct (pendingCaptures s !! requestId m) as [e|] eqn:He; [|done].
    case_match; [by apply guarded_entryResolve | by apply guarded_entryReject]. }
  assert (H2 : guarded (onPong h m (onPageCaptured h m s))).
  { unfold onPong. case_match; [|done].
    destruct (pendingCaptures _ !! requestId m) as [e|] eqn:He; [|done].
    case_match; [|done]. by apply guarded_entryResolve. }
  unfold onIframeReady. case_match; auto with guarddb.
Qed.

(** A timer that fires: the entries of its call sit under the request id
    of its callback. *)
Lemma guarded_fired s id t :
  guarded s → timers s !! id = Some t →
  ∀ rid e, pendingCaptures s !! rid = Some e → entryCall e = id →
           callback t = timeoutOf rid e.
Proof.
  intros [He _] Ht rid e H Hc. destruct (He _ _ H) as [[(t' & Ht' & Hcb) _] _].
  rewrite Hc, Ht in Ht'. by injection Ht' as <-.
Qed.

Lemma guarded_drop_timer s id :
  guarded s →
  (∀ rid e, pendingCaptures s !! rid = Some e → entryCall e ≠ id) →
  guarded (clearTimeout id s).
Proof.
  intros (He & Ht & Hfl) Hno. split; [|split; [|by destruct s]].
  - intros rid e H. assert (H' : pendingCaptures s !! rid = Some e) by by destruct s.
    destruct (He _ _ H') as [[(t & Ht' & Hcb) Hkind] Hf]. split; [|by destruct s].
    split; [|by destruct s]. exists t. split; [|done].
    destruct s; simpl in *. rewrite lookup_delete_ne; [done|]. intros Heq. by apply (Hno _ _ H').
  - intros id' t H. destruct s; simpl in *.
    apply lookup_delete_Some in H as [_ H]. by apply (Ht id' t).
Qed.

Lemma guarded_fire id h s : guarded s → guarded (fire id h s).
Proof.
  intros Hs. unfold fire. destruct (timers s !! id) as [t|] eqn:Ht; [|done].
  case_match; [|done]. pose proof (guarded_fired s id t Hs Ht) as Hfired.
  unfold runCallback. destruct (callback t) as [rid c|rid c|k] eqn:Hcb.
  - unfold pingTimedOut.
    assert (guarded (deletePending rid (clearTimeout id s))).
    { destruct (pendingCaptures s !! rid) as [e|] eqn:He.
      - destruct (decide (entryCall e = id)) as [Hid|Hid].
        + eapply guarded_view;
            [|apply (guarded_retire s rid e (resolvedFlag s) Hs He); auto].
          rewrite Hid. by destruct s.
        + apply guarded_deletePending, guarded_drop_timer; [done|].
          intros rid' e' He' Hc'. specialize (Hfired _ _ He' Hc').
          destruct e'; simpl in *; [|done]. injection Hfired as -> ->.
          rewrite He in He'. injection He' as ->. done.
      - apply guarded_deletePending, guarded_drop_timer; [done|].
        intros rid' e' He' Hc'. specialize (Hfired _ _ He' Hc').
        destruct e'; simpl in *; [|done]. injection Hfired as -> ->.
        by rewrite He in He'. }
    case_match; by apply guarded_settle.
  - unfold captureTimedOut.
    destruct (decide (c ∈ _)) as [Hin|Hout].
    + apply guarded_drop_timer; [done|].
      intros rid' e' He' Hc'. specialize (Hfired _ _ He' Hc').
      destruct e' as [|r' c']; simpl in *; [done|]. injection Hfired as -> ->.
      destruct Hs as [Hs _]. destruct (Hs _ _ He') as [[_ [_ Hflag]] _].
      destruct s; simpl in *. done.
    + apply guarded_settle.
      destruct (pendingCaptures s !! rid) as [e|] eqn:He.
      * destruct (decide (entryCall e = id)) as [Hid|Hid].
        -- eapply guarded_view;
             [|apply (guarded_retire s rid e (resolvedFlag s) Hs He); auto].
           rewrite Hid. by destruct s.
        -- apply guarded_deletePending, guarded_drop_timer; [done|].
           intros rid' e' He' Hc'. specialize (Hfired _ _ He' Hc').
           destruct e' as [|r' c']; simpl in *; [done|]. injection Hfired as -> ->.
           destruct Hs as [Hs _]. destruct (Hs _ _ He') as [[_ [-> _]] _].
           rewrite He in He'. injection He' as ->. done.
      * apply guarded_deletePending, guarded_drop_timer; [done|].
        intros rid' e' He' Hc'. specialize (Hfired _ _ He' Hc').
        destruct e' as [|r' c']; simpl in *; [done|]. injection Hfired as -> ->.
        destruct Hs as [Hs _]. destruct (Hs _ _ He') as [[_ [-> _]] _].
        by rewrite He in He'.
  - apply guarded_set_woken, guarded_drop_timer; [done|].
    intros rid' e' He' Hc'. specialize (Hfired _ _ He' Hc'). by destruct e'.
Qed.

(** Registrations. *)
Lemma guarded_sleep ms k h s : guarded s → guarded (sleep ms k h s).
Proof.
  intros (He & Ht & Hfl). split; [|split].
  - intros rid e H. assert (H' : pendingCaptures s !! rid = Some e) by by destruct s.
    destruct (He _ _ H') as [[(t & Ht' & Hcb) Hkind] Hf].
    split; [|destruct s; simpl in *; lia]. split; [|by destruct s].
    exists t. split; [|done]. destruct s; simpl in *.
    rewrite lookup_insert_ne; [done | lia].
  - intros id t H. destruct s; simpl in *.
    apply lookup_insert_Some in H as [[<- _]|[_ H]]; [lia|].
    apply Nat.lt_lt_succ_r. by apply (Ht id t).
  - intros c Hc. destruct s; simpl in *. apply Nat.lt_lt_succ_r. by apply Hfl.
Qed.

Lemma guarded_request s rid e t :
  guarded s → entryCall e = fresh s → callback t = timeoutOf rid e →
  match e with
  | PingRequest _ => True
  | CaptureRequest r _ => r = rid
  end →
  guarded (set_pendingCaptures (<[rid := e]> (pendingCaptures s))
             (set_timers (<[fresh s := t]> (timers s)) (set_fresh (S (fresh s)) s))).
Proof.
  intros (He & Ht & Hflag) Hc Hcb Hkind. split; [|split].
  - intros rid' e' H.
    assert (H' : (rid = rid' ∧ e = e') ∨ (rid ≠ rid' ∧ pendingCaptures s !! rid' = Some e')).
    { destruct s; simpl in *. by apply lookup_insert_Some in H. }
    destruct H' as [[<- <-]|[Hne H']].
    + split; [|destruct s; simpl in *; lia]. split.
      * exists t. split; [|done]. rewrite Hc. destruct s; simpl. apply lookup_insert_eq.
      * destruct e as [|r c]; [done|]. split; [done|]. simpl in Hc. subst c.
        intros Hin. assert (fresh s < fresh s)%nat; [|lia]. apply Hflag. by destruct s.
    + destruct (He _ _ H') as [[(t' & Ht' & Hcb') Hk'] Hf].
      split; [|destruct s; simpl in *; lia]. split; [|by destruct s].
      exists t'. split; [|done]. destruct s; simpl in *.
      rewrite lookup_insert_ne; [done | lia].
  - intros id t' H. destruct s; simpl in *.
    apply lookup_insert_Some in H as [[<- _]|[_ H]]; [lia|].
    apply Nat.lt_lt_succ_r. by apply (Ht id t').
  - intros c' Hc'. destruct s; simpl in *. apply Nat.lt_lt_succ_r. by apply Hflag.
Qed.

Lemma guarded_captureCurrentPage h s : guarded s → guarded (captureCurrentPage h s).2.
Proof.
  intros Hs. set (rid := "capture_" +:+ pretty (now h)).
  eapply guarded_view;
    [|apply (guarded_request s rid (CaptureRequest rid (fresh s))
               (MkTimer (now h + 15000) (CaptureTimeout rid (fresh s))) Hs)]; try done.
  by destruct s.
Qed.

Lemma guarded_pingIframe h s : guarded s → guarded (pingIframe h s).2.
Proof.
  intros Hs. unfold pingIframe. case_match; [done|].
  set (rid := "ping_" +:+ pretty (now h)).
  eapply guarded_view;
    [|apply (guarded_request s rid (PingRequest (fresh s))
               (MkTimer (now h + 5000) (PingTimeout rid (fresh s))) Hs)]; try done.
  by destruct s.
Qed.

Hint Resolve guarded_sleep guarded_captureCurrentPage guarded_pingIframe : guarddb.

Lemma guarded_resume k o h s : guarded s → guarded (resume k o h s).
Proof.
  intros Hs.
  assert (Hcap : ∀ l, guarded (resume (AfterSettle l) o h s)).
  { intros l. unfold resume.
    destruct (captureCurrentPage h s) as [call s1] eqn:Hc.
    apply guarded_set_awaiting. change s1 with (call, s1).2. rewrite <- Hc.
    auto with guarddb. }
  destruct k; [|apply Hcap|..]; destruct o;
    unfold resume, catchBlock, goToNextPage, loopHead, finish, done, updateStatus;
    destruct (nextButton h); repeat case_match; simplify_eq; auto 10 with guarddb.
Qed.

Lemma guarded_startCapture h s : guarded s → guarded (startCapture h s).
Proof.
  intros Hs. unfold startCapture. case_match; [done|].
  destruct (pingIframe h _) as [[o|call] s1] eqn:Hping.
  - apply guarded_resume. change s1 with (Already o, s1).2. rewrite <- Hping.
    unfold updateStatus. auto with guarddb.
  - apply guarded_set_awaiting. change s1 with (Later call, s1).2. rewrite <- Hping.
    unfold updateStatus. auto with guarddb.
Qed.

Lemma guarded_handle h (ev : Event) s : guarded s → guarded (handle h ev s).
Proof.
  intros Hs. destruct ev; simpl.
  - repeat case_match; auto using guarded_startCapture with guarddb.
    unfold generatePDF, updateStatus. repeat case_match; auto with guarddb.
  - unfold updateStatus. auto with guarddb.
  - auto with guarddb.
  - by apply guarded_onMessage.
  - by apply guarded_fire.
Qed.

Lemma guarded_drain h s : guarded s → guarded (drain h s).
Proof.
  intros Hs. unfold drain.
  assert (Hs' : guarded (set_woken [] s)) by auto with guarddb.
  revert Hs'. generalize (set_woken [] s).
  induction (woken s) as [|w ws IH]; intros s'; simpl; [done|].
  intros Hs'. apply IH. by apply guarded_resume.
Qed.

Lemma guarded_step h (ev : Event) s : guarded s → guarded (step h ev s).
Proof. intros. by apply guarded_drain, guarded_handle. Qed.

Lemma guarded_run trace s : guarded s → guarded (run trace s).
Proof.
  revert s. induction trace as [|[h ev] trace IH]; intros s Hs; simpl; [done|].
  by apply IH, guarded_step.
Qed.

(** X15: in every reachable state, every entry of [pendingCaptures] has
    its timeout armed: the timer of its call is active and closes over the
    request id the entry is stored under.  When that timer comes due, its
    callback removes the entry: no request stays pending for ever. *)
Theorem pending_request_has_timeout trace rid e :
  let s := run trace initial in
  pendingCaptures s !! rid = Some e →
  ∃ t, timers s !! entryCall e = Some t
       ∧ callback t = timeoutOf rid e
       ∧ ∀ h, (due t ≤ now h)%Z →
              pendingCaptures (fire (entryCall e) h s) !! rid = None.
Proof.
  intros s He.
  destruct (guarded_run trace initial guarded_initial) as (Hs & _). fold s in Hs.
  destruct (Hs _ _ He) as [[(t & Ht & Hcb) Hkind] _].
  exists t. split; [done|]. split; [done|].
  intros h Hdue. unfold fire. rewrite Ht, bool_decide_eq_true_2 by done.
  rewrite Hcb. destruct e as [c|r c]; simpl.
  - unfold pingTimedOut. case_match; rewrite settle_pendingCaptures;
      clearbody s; destruct s; simpl; apply lookup_delete_eq.
  - destruct Hkind as [-> Hflag]. unfold captureTimedOut.
    rewrite decide_False by (clearbody s; by destruct s).
    rewrite settle_pendingCaptures. clearbody s. destruct s; simpl. apply lookup_delete_eq.
Qed.

(** The capture request of 1500 ms: its timeout is timer 1, due at
    16500 ms. *)
Lemma pending_request_has_timeout_witness :
  ∃ t, timers capturing !! 1%nat = Some t
       ∧ callback t = CaptureTimeout "capture_1500" 1
       ∧ pendingCaptures (fire 1 (readerHost 16500) capturing) !! "capture_1500" = None.
Proof.
  destruct (pending_request_has_timeout
              [(readerHost 0, Receive readyA); (readerHost 1000, ClickAction);
               (readerHost 1500, Fire 0)]
              "capture_1500" (CaptureRequest "capture_1500" 1))
    as (t & Ht & Hcb & Hfire); [reflexivity|].
  exists t. split; [exact Ht|]. split; [exact Hcb|].
  apply Hfire. vm_compute in Ht. injection Ht as <-. by vm_compute.
Defined.

End Guarded.

(** ** Stopping a run *)

Create HintDb stopdb.

Section Stop.

Implicit Types (s : State) (h : Host) (c call id : nat) (k : Cont) (o : Outcome)
  (m : Message) (l : Locals) (R C P : nat).

Lemma sent_app es es' : sent (es ++ es') = (sent es + sent es')%nat.
Proof. unfold sent. by rewrite filter_app, length_app. Qed.

Lemma clicked_app es es' : clicked (es ++ es') = (clicked es + clicked es')%nat.
Proof. unfold clicked. by rewrite filter_app, length_app. Qed.

Lemma winding_view R C P s s' : stopView s = stopView s' → winding R C P s → winding R C P s'.
Proof.
  destruct s, s'. unfold stopView, winding, atStage, noWake, onlyWake. simpl.
  by intros [= -> -> -> -> -> ->].
Qed.

Lemma winding_set_readyFrames R C P v s : winding R C P s → winding R C P (set_readyFrames v s).
Proof. apply winding_view. by destruct s. Qed.
Lemma winding_set_status R C P v s : winding R C P s → winding R C P (set_status v s).
Proof. apply winding_view. by destruct s. Qed.
Lemma winding_deletePending R C P r s : winding R C P s → winding R C P (deletePending r s).
Proof. apply winding_view. by destruct s. Qed.
Lemma winding_markResolved R C P c s : winding R C P s → winding R C P (markResolved c s).
Proof. apply winding_view. by destruct s. Qed.

Lemma winding_set_isRunning R C P s : winding R C P s → winding R C P (set_isRunning false s).
Proof. intros [Hr Hs]. eapply winding_view; [|by split]. destruct s; simpl in *. by subst. Qed.

Lemma winding_clearTimeout R C P id s : winding R C P s → winding R C P (clearTimeout id s).
Proof.
  assert (Hno : noWake s → noWake (clearTimeout id s)).
  { intros H id' t k Ht. destruct s; simpl in *.
    apply lookup_delete_Some in Ht as [_ Ht]. by eapply H. }
  intros (Hr & st & Hst & Hbound). split; [by destruct s|].
  exists st. split; [|by destruct s].
  destruct st as [|p k|id' k|k o]; simpl in *; destruct Hst as (Ha & Hw & Hq);
    (split; [by destruct s|]); (split; [|by destruct s]); try by apply Hno.
  intros id'' t k' Ht. destruct s; simpl in *.
  apply lookup_delete_Some in Ht as [_ Ht]. by eapply Hw.
Qed.

Lemma winding_settle R C P c o s : winding R C P s → winding R C P (settle c o s).
Proof.
  intros Hs. unfold settle.
  destruct (promiseState s c) eqn:Hp;
    [eapply winding_view; [|exact Hs]; by destruct s|].
  destruct (awaiting s !! c) as [k|] eqn:Hk;
    [|eapply winding_view; [|exact Hs]; by destruct s].
  destruct Hs as (Hr & st & Hst & Hbound).
  destruct st as [|p k'|id k'|k' o']; simpl in Hst; destruct Hst as (Ha & Hw & Hq);
    try by rewrite Ha, lookup_empty in Hk.
  rewrite Ha in Hk. apply lookup_singleton_Some in Hk as [-> ->].
  split; [by destruct s|]. exists (Ready k o). split; [|by destruct s].
  destruct s; simpl in *. subst. split; [apply delete_singleton_eq | done].
Qed.

Hint Resolve winding_set_readyFrames winding_set_status winding_deletePending
  winding_markResolved winding_set_isRunning winding_clearTimeout winding_settle : stopdb.

Lemma winding_entryResolve R C P h (e : Pending) v s :
  winding R C P s → winding R C P (entryResolve h e v s).
Proof.
  intros H. destruct e as [c|r c]; simpl; [auto with stopdb|].
  destruct (decide (c ∈ _)); [done|]. destruct v; auto 10 with stopdb.
Qed.

Lemma winding_entryReject R C P (e : Pending) msg s :
  winding R C P s → winding R C P (entryReject e msg s).
Proof.
  intros H. destruct e as [c|r c]; simpl; [auto with stopdb|].
  destruct (decide (c ∈ _)); [done|]. auto 10 with stopdb.
Qed.

Hint Resolve winding_entryResolve winding_entryReject : stopdb.

Lemma winding_onMessage R C P h m s : winding R C P s → winding R C P (onMessage h m s).
Proof.
  intros H. unfold onMessage, onIframeReady, onPong, onPageCaptured.
  repeat case_match; auto 10 with stopdb.
Qed.

Lemma winding_fire R C P id h s : winding R C P s → winding R C P (fire id h s).
Proof.
  intros Hs. unfold fire. destruct (timers s !! id) as [t|] eqn:Ht; [|done].
  case_match; [|done]. unfold runCallback, pingTimedOut, captureTimedOut.
  destruct (callback t) as [rid c|rid c|k] eqn:Hcb.
  - case_match; auto with stopdb.
  - destruct (decide (c ∈ _)); auto with stopdb.
  - destruct Hs as (Hr & st & Hst & Hbound).
    destruct st as [|p k'|id' k'|k' o']; simpl in Hst; destruct Hst as (Ha & Hw & Hq);
      try by destruct (Hw _ _ k Ht).
    destruct (Hw _ _ _ Ht Hcb) as [-> ->].
    split; [by destruct s|]. exists (Ready k' (Resolved None)). split; [|by destruct s].
    destruct s; simpl in *. subst. split; [done|]. split; [|done].
    unfold noWake. simpl. intros id'' t' k'' [Hne Ht']%lookup_delete_Some Hcb'.
    destruct (Hw _ _ _ Ht' Hcb'). congruence.
Qed.

(** The head of the loop, once the flag is down. *)
Lemma loopHead_stopped l h s : isRunning s = false → loopHead l h s = s.
Proof. intros Hr. unfold loopHead, finish. rewrite Hr. destruct s; simpl in *. by subst. Qed.

(** A run that has nothing left to do. *)
Lemma winding_ended R C P s :
  isRunning s = false → awaiting s = ∅ → noWake s → woken s = [] →
  (sent (effects s) ≤ R)%nat → (clicked (effects s) ≤ C)%nat →
  (length (capturedPages s) ≤ P)%nat →
  winding R C P s.
Proof.
  intros. split; [done|]. exists Ended. simpl. repeat split; try done; lia.
Qed.

Lemma spare_view R C P s s' : stopView s = stopView s' → spare R C P s → spare R C P s'.
Proof.
  destruct s, s'. unfold stopView, spare, noWake. simpl. by intros [= -> -> -> -> -> ->].
Qed.

Lemma spare_ended R C P s : spare R C P s → winding R C P s.
Proof. intros (? & ? & ? & ? & ? & ? & ?). apply winding_ended; try done. lia. Qed.

Lemma spare_finish R C P s : spare R C P s → winding R C P (finish s).
Proof.
  intros Hs. apply spare_ended. eapply spare_view; [|exact Hs].
  destruct Hs as (Hr & _). unfold finish. destruct s; simpl in *. by subst.
Qed.

Lemma spare_goToNextPage R C P k h s s' :
  spare R C P s → owes k = (0%nat, 0%nat) → goToNextPage k h s = inr s' →
  winding R C P s'.
Proof.
  intros (Hr & Ha & Hnw & Hw & HR & HC & HP) Hk. unfold goToNextPage.
  destruct (nextButton h); try done. intros [= <-].
  split; [by destruct s|]. exists (Asleep (fresh s) k). simpl. rewrite Hk.
  destruct s; simpl in *. subst. rewrite sent_app, clicked_app.
  split; [|unfold sent, clicked in *; simpl; lia].
  split; [done|]. split; [|done]. unfold onlyWake. simpl.
  intros id t k' [[<- <-]|[_ Ht]]%lookup_insert_Some Hcb; simpl in *.
  - split; [done | congruence].
  - by destruct (Hnw _ _ k' Ht).
Qed.

Lemma spare_catchBlock R C P l msg h s :
  spare R C P s → winding R C P (catchBlock l msg h s).
Proof.
  intros Hs. unfold catchBlock.
  case_decide.
  - apply spare_finish. eapply spare_view; [|exact Hs]. by destruct s.
  - set (s1 := updateStatus _ _ s).
    assert (Hs1 : spare R C P s1) by (eapply spare_view; [|exact Hs]; by destruct s).
    destruct (goToNextPage (AfterRecovery l) h s1) as [e|s'] eqn:Hgo.
    + by apply spare_finish.
    + by apply (spare_goToNextPage R C P (AfterRecovery l) h s1).
Qed.

(** The code woken by a handler runs up to its next [await]. *)
Lemma winding_resume R C P k o h s :
  winding R C P s → woken s = [(k, o)] →
  winding R C P (resume k o h (set_woken [] s)).
Proof.
  intros (Hr & st & Hst & HR & HC & HP) Hw.
  assert (st = Ready k o) as ->.
  { destruct st; simpl in Hst; destruct Hst as (_ & _ & Hq); congruence. }
  destruct Hst as (Ha & Hnw & _). simpl in HR, HC, HP.
  set (s0 := set_woken [] s).
  assert (Hr0 : isRunning s0 = false) by by destruct s.
  assert (Ha0 : awaiting s0 = ∅) by by destruct s.
  assert (Hnw0 : noWake s0) by by destruct s.
  assert (Hw0 : woken s0 = []) by by destruct s.
  assert (He0 : effects s0 = effects s) by by destruct s.
  assert (Hp0 : capturedPages s0 = capturedPages s) by by destruct s.
  rewrite <- He0, <- Hp0 in *. clearbody s0. clear Hw Hr Ha Hnw He0 Hp0 s.
  assert (Hend : ∀ s', stopView s' = stopView s0 →
                       (sent (effects s0) ≤ R)%nat → (clicked (effects s0) ≤ C)%nat →
                       (length (capturedPages s0) ≤ P)%nat → winding R C P s').
  { intros s' Hv ? ? ?. eapply winding_view; [symmetry; exact Hv|].
    by apply winding_ended. }
  destruct k as [l|l|l|l|l]; unfold resume.
  - (* await pingIframe() *)
    simpl in *. destruct o.
    + rewrite loopHead_stopped by by destruct s0.
      apply Hend; [by destruct s0|lia..].
    + apply Hend; [|lia..]. destruct s0; simpl in *. by subst.
  - (* await sleep(500) *)
    simpl in *. split; [by destruct s0|].
    exists (Waiting (fresh s0) (AfterCapture l)). destruct s0; simpl in *. subst.
    rewrite sent_app, clicked_app. simpl. split; [|unfold sent, clicked in *; simpl; lia].
    split; [done|]. split; [|done].
    unfold noWake. simpl.
    intros id t k' [[<- <-]|[_ Ht]]%lookup_insert_Some Hcb; simpl in *; [done|].
    by destruct (Hnw0 _ _ k' Ht).
  - (* await captureCurrentPage() *)
    simpl in *.
    assert (Hs0 : spare R C P s0) by (repeat split; try done; lia).
    destruct o as [v|msg]; [|by apply spare_catchBlock].
    set (s1 := updateStatus _ _ _).
    assert (Hs1 : spare R C P s1).
    { unfold s1, spare. destruct s0; simpl in *. subst. rewrite length_app. simpl.
      repeat split; try done; lia. }
    clearbody s1. case_match.
    + apply spare_finish. eapply spare_view; [|exact Hs1]. by destruct s1.
    + destruct (goToNextPage _ h s1) as [e|s'] eqn:Hgo.
      * by apply spare_catchBlock.
      * by eapply (spare_goToNextPage R C P _ h s1); [| |exact Hgo].
  - rewrite loopHead_stopped by done. apply Hend; [done|simpl in *; lia..].
  - rewrite loopHead_stopped by done. apply Hend; [done|simpl in *; lia..].
Qed.

Lemma winding_drain R C P h s : winding R C P s → winding R C P (drain h s).
Proof.
  intros Hs. destruct Hs as (Hr & st & Hst & Hb).
  destruct st as [|p k|id k|k o]; simpl in Hst.
  - rewrite drain_quiet by by destruct Hst as (_ & _ & ?). split; [done|]. by exists Ended.
  - rewrite drain_quiet by by destruct Hst as (_ & _ & ?).
    split; [done|]. by exists (Waiting p k).
  - rewrite drain_quiet by by destruct Hst as (_ & _ & ?).
    split; [done|]. by exists (Asleep id k).
  - destruct Hst as (Ha & Hnw & Hw). rewrite (drain_one h s k o Hw).
    apply winding_resume; [|done]. split; [done|]. by exists (Ready k o).
Qed.

Lemma winding_step R C P h (ev : Event) s :
  ev ≠ ClickAction → winding R C P s → winding R C P (step h ev s).
Proof.
  intros Hev Hs. apply winding_drain. destruct ev; simpl; [done|..].
  - destruct Hs as (Hr & st & Hst & HR & HC & HP). split; [by destruct s|].
    exists st. split; [|destruct s; simpl in *; lia].
    destruct st; simpl in *; by destruct s.
  - auto with stopdb.
  - by apply winding_onMessage.
  - by apply winding_fire.
Qed.

Lemma winding_run R C P trace s :
  noAction trace → winding R C P s → winding R C P (run trace s).
Proof.
  intros Htr. revert s. induction Htr as [|[h ev] trace Hev _ IH]; intros s Hs; simpl; [done|].
  by apply IH, winding_step.
Qed.

(** X16: stopping a run does not cancel what is under way: the flag is
    read at the head of the loop only.  Once the flag is down, and as long
    as the action button is not clicked again, the one run sends a capture
    request only if it was stopped during [sleep(500)], stores a page (and
    clicks the next-page control) only if it was stopped then or while it
    waited for the answer to a capture request: at most one request, one
    page and one click; and the flag stays down. *)
Theorem stopped_run_winds_down s st trace :
  atStage s st → isRunning s = false → noAction trace →
  let s' := run trace s in
  isRunning s' = false
  ∧ (sent (effects s') ≤ sent (effects s) + (owed st).1)%nat
  ∧ (clicked (effects s') ≤ clicked (effects s) + (owed st).2)%nat
  ∧ (length (capturedPages s') ≤ length (capturedPages s) + (owed st).2)%nat
  ∧ ((owed st).1 ≤ (owed st).2 ≤ 1)%nat.
Proof.
  intros Hst Hr Htr s'.
  assert (Hwind : winding (sent (effects s) + (owed st).1)
                    (clicked (effects s) + (owed st).2)
                    (length (capturedPages s) + (owed st).2) s).
  { split; [done|]. by exists st. }
  pose proof (winding_run _ _ _ trace s Htr Hwind) as (Hr' & st' & _ & HR & HC & HP).
  fold s' in Hr', HR, HC, HP.
  split; [done|]. split; [lia|]. split; [lia|]. split; [lia|].
  destruct st as [|p k|id k|k o]; simpl; try lia; destruct k; simpl; lia.
Qed.

(** Two pages asked for; the run is stopped at 1600 ms, while it waits
    for the answer to its first request.  The answer arrives: the page is
    stored, the next-page control is clicked, and the run ends without a
    second request. *)
Lemma stopped_run_winds_down_witness :
  let s := run [(twoPageHost 0, Receive readyA); (twoPageHost 1000, ClickAction);
                (twoPageHost 1500, Fire 0); (twoPageHost 1600, ClickAction)] initial in
  let s' := run [(twoPageHost 1800, Receive (answerOf "capture_1500"));
                 (twoPageHost 3300, Fire 2)] s in
  (isRunning s' = false
   ∧ (sent (effects s') ≤ sent (effects s) + 0)%nat
   ∧ (clicked (effects s') ≤ clicked (effects s) + 1)%nat
   ∧ (length (capturedPages s') ≤ length (capturedPages s) + 1)%nat)
  ∧ length (capturedPages s') = 1%nat ∧ clicked (effects s') = 1%nat
  ∧ timers s' = ∅ ∧ awaiting s' = ∅.
Proof.
  intros s s'. split; [|by vm_compute].
  assert (Ht : timers s = {[1%nat := MkTimer 16500 (CaptureTimeout "capture_1500" 1)]})
    by by vm_compute.
  destruct (stopped_run_winds_down s (Waiting 1 (AfterCapture (MkLocals 2 5 0)))
              [(twoPageHost 1800, Receive (answerOf "capture_1500"));
               (twoPageHost 3300, Fire 2)])
    as (Hr & HR & HC & HP & _).
  - split; [by vm_compute|]. split; [|by vm_compute].
    intros id t k Hid. rewrite Ht in Hid.
    by apply lookup_singleton_Some in Hid as [_ <-].
  - by vm_compute.
  - repeat constructor; discriminate.
  - by repeat split.
Defined.

End Stop.

(** ** A frame announces itself *)

Section Announce.

Implicit Types (s : State) (h : Host) (doc : Frame.Document).

(** X17: in every reachable state the announcement of a frame is
    recorded as the last entry of [readyFrames], with what the frame's
    location policy found at that moment.  An announcement without an
    image leaves the probe as it was.  With an image, the probe resolves
    at once from then on, in every later state, with the first
    image-bearing announcement on record: this one, if there was none
    before. *)
Theorem announcement_recorded trace h doc :
  let s := run trace initial in
  let s1 := step h (Receive (announced doc)) s in
  readyFrames s1
  = readyFrames s ++ [MkReady (Frame.hasPageImage doc) (Frame.currentUrl doc)]
  ∧ (Frame.findPageImage doc = None → firstWithImage s1 = firstWithImage s)
  ∧ (is_Some (Frame.findPageImage doc) →
     ∃ r, firstWithImage s1 = Some r ∧ rf_hasImage r = true
          ∧ (firstWithImage s = None → r = MkReady true (Frame.currentUrl doc))
          ∧ ∀ later h',
              pingIframe h' (run later s1)
              = (Already (Resolved (Some (readyObj r))), run later s1)).
Proof.
  intros s s1.
  assert (Hs1 : s1 = set_readyFrames
                  (readyFrames s ++ [MkReady (Frame.hasPageImage doc) (Frame.currentUrl doc)])
                  s).
  { unfold s1, step. simpl handle. rewrite drain_quiet; [done|].
    pose proof (run_woken trace) as Hw. fold s in Hw. clearbody s.
    unfold announced, onMessage, onIframeReady, onPong, onPageCaptured. simpl.
    by destruct s. }
  assert (Hf : readyFrames s1
               = readyFrames s ++ [MkReady (Frame.hasPageImage doc) (Frame.currentUrl doc)]).
  { rewrite Hs1. clearbody s. by destruct s. }
  split; [done|]. split.
  - intros Hnone.
    assert (Himg : Frame.hasPageImage doc = false).
    { unfold Frame.hasPageImage. rewrite Hnone. apply bool_decide_eq_false_2.
      by intros [? ?]. }
    unfold firstWithImage. rewrite Hf, find_app, Himg. simpl.
    by destruct (List.find _ _).
  - intros Hsome.
    assert (Himg : Frame.hasPageImage doc = true) by by apply bool_decide_eq_true.
    rewrite Himg in Hf.
    assert (∃ r, firstWithImage s1 = Some r
                 ∧ (firstWithImage s = None → r = MkReady true (Frame.currentUrl doc)))
      as (r & Hr & Hfirst).
    { unfold firstWithImage. rewrite Hf, find_app.
      destruct (List.find rf_hasImage (readyFrames s)) as [r|]; [by exists r|].
      simpl. by eexists. }
    exists r. split; [done|]. split; [|split; [done|]].
    + unfold firstWithImage in Hr. by apply find_some in Hr as [_ ?].
    + intros later h'. unfold pingIframe.
      by rewrite (firstWithImage_calm s1 (run later s1) r (run_calm later s1 r Hr) Hr).
Qed.

End Announce.

(** ** Leaving the loop *)

Section Exit.

Implicit Types (s : State) (h : Host) (k : Cont) (o : Outcome).

Lemma suspendedOn_sleep n ms k h s : fresh s = n → suspendedOn n (sleep ms k h s).
Proof.
  intros <-. right. exists (MkTimer (now h + ms) (Wake k)), k.
  split; [|done]. destruct s; simpl. apply lookup_insert_eq.
Qed.

Lemma loopHead_suspends_or_stops l h s n :
  fresh s = n → suspendedOn n (loopHead l h s) ∨ isRunning (loopHead l h s) = false.
Proof.
  intros Hn. unfold loopHead, finish.
  case_match; [left; by apply suspendedOn_sleep | right; by destruct s].
Qed.

Lemma resume_suspends_or_stops k o h s :
  suspendedOn (fresh s) (resume k o h s) ∨ isRunning (resume k o h s) = false.
Proof.
  destruct k as [l|l|l|l|l].
  - destruct o; simpl; [|right; by destruct s].
    apply loopHead_suspends_or_stops. by destruct s.
  - left. left. unfold resume.
    pose proof (captureCurrentPage_call h s) as Hcall.
    destruct (captureCurrentPage h s) as [call s1]. simpl in Hcall. subst call.
    destruct s1; simpl. rewrite lookup_insert_eq. by eexists.
  - destruct o; unfold resume, catchBlock, goToNextPage, finish, done, updateStatus;
      destruct (nextButton h); repeat case_match; simplify_eq;
      first [ right; by destruct s | left; apply suspendedOn_sleep; by destruct s ].
  - by apply loopHead_suspends_or_stops.
  - by apply loopHead_suspends_or_stops.
Qed.

(** X18: a call of [startCapture] that has raised the flag never ends
    with the flag up: whenever the call, or its code resumed after an
    [await], stops running, it has either suspended itself on the call or
    on the [sleep] timer it has just made, or set [isRunning] to false.
    A call that finds the flag up changes nothing. *)
Theorem flag_lowered_on_exit k o h s :
  (suspendedOn (fresh s) (resume k o h s) ∨ isRunning (resume k o h s) = false)
  ∧ (isRunning s = false →
     suspendedOn (fresh s) (startCapture h s) ∨ isRunning (startCapture h s) = false)
  ∧ (isRunning s = true → startCapture h s = s).
Proof.
  split; [apply resume_suspends_or_stops|]. split.
  - intros Hr. unfold startCapture. rewrite Hr.
    set (s0 := updateStatus _ _ _).
    assert (Hf : fresh s0 = fresh s) by by destruct s.
    destruct (pingIframe h s0) as [[o'|call] s1] eqn:Hping.
    + assert (s1 = s0) as ->.
      { unfold pingIframe in Hping. destruct (firstWithImage s0); by simplify_eq. }
      rewrite <- Hf. apply resume_suspends_or_stops.
    + destruct (pingIframe_registers _ _ _ _ Hping) as (-> & _).
      left. left. rewrite Hf. destruct s1; simpl. rewrite lookup_insert_eq. by eexists.
  - intros Hr. unfold startCapture. by rewrite Hr.
Qed.

End Exit.

(** ** Broadcasts reach every frame *)

Section Broadcasts.

Implicit Types (s : State) (h : Host) (k : Cont) (o : Outcome) (m : Message).

Lemma requests_same s s' :
  effects s' = effects s → Forall request (effects s) → Forall request (effects s').
Proof. by intros ->. Qed.

Lemma requests_push s (e : Effect) :
  request e → Forall request (effects s) →
  Forall request (effects (set_effects (effects s ++ [e]) s)).
Proof.
  intros He Hs. destruct s; simpl in *. apply Forall_app. by split; [|constructor].
Qed.

Lemma request_capture (t : string) :
  request (Broadcast (message "VS_CAPTURE_PAGE" ("capture_" +:+ t))).
Proof. split; [by right|]. by split. Qed.

Lemma request_ping (t : string) : request (Broadcast (message "VS_PING" ("ping_" +:+ t))).
Proof. split; [by left|]. by split. Qed.

Lemma requests_onMessage h m s :
  Forall request (effects s) → Forall request (effects (onMessage h m s)).
Proof.
  apply requests_same. by pose proof (onMessage_surface h m s) as [= _ _ _ ? _].
Qed.

Lemma requests_fire id h s :
  Forall request (effects s) → Forall request (effects (fire id h s)).
Proof.
  apply requests_same. unfold fire. destruct (timers s !! id) as [t|]; [|done].
  case_match; [|done]. unfold runCallback, pingTimedOut, captureTimedOut.
  repeat case_match; rewrite ?settle_effects; by destruct s.
Qed.

Lemma requests_resume k o h s :
  Forall request (effects s) → Forall request (effects (resume k o h s)).
Proof.
  intros Hs.
  destruct k, o; unfold_loop; destruct (nextButton h); repeat case_match; simplify_eq;
    destruct s; simpl in *; try done;
    (apply Forall_app; split; [done|]); (constructor; [|constructor]);
    first [ apply request_capture | done ].
Qed.

Lemma requests_startCapture h s :
  Forall request (effects s) → Forall request (effects (startCapture h s)).
Proof.
  intros Hs. unfold startCapture. case_match; [done|].
  set (s0 := updateStatus _ _ _).
  assert (Hs0 : Forall request (effects s0)) by by destruct s.
  destruct (pingIframe h s0) as [[o|call] s1] eqn:Hping.
  - apply requests_resume.
    unfold pingIframe in Hping. destruct (firstWithImage s0); by simplify_eq.
  - destruct (pingIframe_registers _ _ _ _ Hping) as (_ & _ & _ & Heff).
    assert (effects (set_awaiting (<[call := AfterPing
              (MkLocals (orNumber (parseInt (pageLimitInput h)) 10) (currentPage h) 0)]>
              (awaiting s1)) s1) = effects s1) as -> by by destruct s1.
    rewrite Heff. apply Forall_app. split; [done|].
    constructor; [apply request_ping | constructor].
Qed.

Lemma requests_step h (ev : Event) s :
  Forall request (effects s) → Forall request (effects (step h ev s)).
Proof.
  intros Hs. unfold step, drain.
  assert (Hh : Forall request (effects (set_woken [] (handle h ev s)))).
  { assert (Forall request (effects (handle h ev s))); [|by destruct (handle h ev s)].
    destruct ev; simpl.
    - repeat case_match; try by destruct s.
      + by apply requests_startCapture.
      + unfold generatePDF. repeat case_match; by destruct s.
    - by destruct s.
    - by destruct s.
    - by apply requests_onMessage.
    - by apply requests_fire. }
  revert Hh. generalize (set_woken [] (handle h ev s)).
  induction (woken (handle h ev s)) as [|w ws IH]; intros s' Hs'; simpl; [done|].
  apply IH. by apply requests_resume.
Qed.

Lemma requests_run trace s :
  Forall request (effects s) → Forall request (effects (run trace s)).
Proof.
  revert s. induction trace as [|[h ev] trace IH]; intros s Hs; simpl; [done|].
  by apply IH, requests_step.
Qed.

(** X19: whatever happens, the Orchestrator broadcasts nothing but pings
    and capture requests, each with a request id and no other field.  So
    the listener of every frame that such a broadcast reaches acts on it:
    it hands the message on to its own frames, after its answer if it has
    one, and a ping is always answered. *)
Theorem broadcasts_are_requests trace m (doc : Frame.Document) (r : Frame.Raster) :
  Broadcast m ∈ effects (run trace initial) →
  (type m = "VS_PING" ∨ type m = "VS_CAPTURE_PAGE")
  ∧ requestId m ≠ ""
  ∧ m = message (type m) (requestId m)
  ∧ (∃ answers, Frame.onMessage doc r m = answers ++ [Frame.ToChildren m]
                ∧ (length answers ≤ 1)%nat
                ∧ (type m = "VS_PING" → answers = [Frame.ToParent (Frame.pong doc (requestId m))])).
Proof.
  intros Hin.
  assert (Hall : Forall request (effects (run trace initial)))
    by (apply requests_run; constructor).
  rewrite list.Forall_forall in Hall. destruct (Hall _ Hin) as (Hty & Hrid & Hm).
  split; [done|]. split; [done|]. split; [done|].
  unfold Frame.onMessage.
  assert (truthy (requestId m) = true) as -> by by apply bool_decide_eq_true.
  destruct Hty as [Hty|Hty]; rewrite Hty; simpl.
  - exists [Frame.ToParent (Frame.pong doc (requestId m))].
    repeat split; try done; simpl; lia.
  - destruct (Frame.findPageImage doc) as [img|].
    + exists [Frame.ToParent (Frame.pageCaptured (requestId m) (Frame.captureImage r img))].
      repeat split; try done; simpl; lia.
    + exists []. repeat split; try done; simpl; lia.
Qed.

(** The first broadcast of the overlapping runs, the capture request of
    1500 ms, in a frame without an image. *)
Lemma broadcasts_are_requests_witness :
  ∃ answers,
    Frame.onMessage emptyFrame idleRaster (message "VS_CAPTURE_PAGE" "capture_1500")
    = answers ++ [Frame.ToChildren (message "VS_CAPTURE_PAGE" "capture_1500")]
    ∧ (length answers ≤ 1)%nat.
Proof.
  destruct (broadcasts_are_requests overlappingRuns
              (message "VS_CAPTURE_PAGE" "capture_1500") emptyFrame idleRaster)
    as (_ & _ & _ & answers & Hans & Hlen & _).
  - assert (Heff : effects (run overlappingRuns initial)
                   = [Broadcast (message "VS_CAPTURE_PAGE" "capture_1500");
                      Broadcast (message "VS_CAPTURE_PAGE" "capture_1700")])
      by by vm_compute.
    rewrite Heff. apply list_elem_of_here.
  - by exists answers.
Defined.

End Broadcasts.

(** ** A probe and its answer, across the two scripts *)

Section ProbeRoundTrip.

Implicit Types (s : State) (h : Host) (c : nat) (k : Cont) (o : Outcome) (l : Locals).

(** Settling the call some code waits for resumes that code at once. *)
Lemma drain_settle_wakes h s c o k :
  promiseState s c = None → awaiting s !! c = Some k → woken s = [] →
  drain h (settle c o s)
  = resume k o h
      (set_woken []
         (set_awaiting (delete c (awaiting s))
            (set_settleCalls (settleCalls s ++ [(c, o)]) s))).
Proof.
  intros Hpend Haw Hw. rewrite (settle_wakes _ _ _ _ Hpend Haw), Hw. simpl.
  erewrite drain_one; [|by destruct s]. f_equal. by destruct s.
Qed.

(** The listener of a frame, on a ping. *)
Lemma frame_answers_ping (doc : Frame.Document) (r : Frame.Raster) (rid : string) :
  rid ≠ "" →
  Frame.onMessage doc r (message "VS_PING" rid)
  = [Frame.ToParent (Frame.pong doc rid); Frame.ToChildren (message "VS_PING" rid)].
Proof.
  intros Hrid. unfold Frame.onMessage. simpl.
  by assert (truthy rid = true) as -> by by apply bool_decide_eq_true.
Qed.

(** The click that starts a run while no frame has announced an image. *)
Lemma click_starts_probe h s :
  wf s → woken s = [] → isRunning s = false → capturedPages s = [] →
  firstWithImage s = None →
  let rid := "ping_" +:+ pretty (now h) in
  let l := MkLocals (orNumber (parseInt (pageLimitInput h)) 10) (currentPage h) 0 in
  let s1 := step h ClickAction s in
  pendingCaptures s1 !! rid = Some (PingRequest (fresh s))
  ∧ promiseState s1 (fresh s) = None
  ∧ awaiting s1 !! fresh s = Some (AfterPing l)
  ∧ woken s1 = []
  ∧ isRunning s1 = true
  ∧ fresh s1 = S (fresh s)
  ∧ effects s1 = effects s ++ [Broadcast (message "VS_PING" rid)].
Proof.
  intros [Hwf _] Hw Hr Hp Hf rid l s1.
  assert (Hlog : promiseState s (fresh s) = None).
  { apply promiseState_settleCount, settleCount_zero. intros Hin.
    assert (fresh s < fresh s)%nat; [|lia]. apply Hwf. right. right. by left. }
  subst s1. unfold step, handle. rewrite Hr, Hp. unfold startCapture. rewrite Hr.
  unfold pingIframe.
  assert (firstWithImage
            (updateStatus "Checking connection..." "info" (set_isRunning true s)) = None)
    as -> by by destruct s.
  rewrite drain_quiet by by destruct s.
  destruct s; simpl in *. subst.
  split; [apply lookup_insert_eq|]. split; [done|]. split; [apply lookup_insert_eq|].
  done.
Qed.

(** X20: in every reachable state in which no run is under way, the
    session is empty and no frame has announced an image, a click on the
    action button broadcasts one ping.  A frame that holds a page image
    answers it with a pong and hands it on; when the pong arrives the
    probe resolves with what the frame reported, its request is retired,
    its timeout cleared, and the loop starts from the page shown at the
    click: unless the page limit is not positive, it sleeps before its
    first request. *)
Theorem probe_round_trip trace h h' (doc : Frame.Document) (r : Frame.Raster) :
  let s := run trace initial in
  let rid := "ping_" +:+ pretty (now h) in
  let l := MkLocals (orNumber (parseInt (pageLimitInput h)) 10) (currentPage h) 0 in
  let s1 := step h ClickAction s in
  isRunning s = false → capturedPages s = [] → firstWithImage s = None →
  is_Some (Frame.findPageImage doc) →
  effects s1 = effects s ++ [Broadcast (message "VS_PING" rid)]
  ∧ ∃ answer,
      Frame.onMessage doc r (message "VS_PING" rid)
      = [Frame.ToParent answer; Frame.ToChildren (message "VS_PING" rid)]
      ∧ let s2 := step h' (Receive answer) s1 in
        promiseState s2 (fresh s)
        = Some (Resolved (Some (readyObj (MkReady true (Frame.currentUrl doc)))))
        ∧ pendingCaptures s2 !! rid = None
        ∧ timers s2 !! fresh s = None
        ∧ status s2 = ("Starting from page " +:+ pretty (currentPage h) +:+ "...", "info")
        ∧ effects s2 = effects s1
        ∧ if bool_decide (0 < pageLimit l)
          then isRunning s2 = true
               ∧ ∃ t, timers s2 !! fresh s1 = Some t ∧ callback t = Wake (AfterSettle l)
          else isRunning s2 = false.
Proof.
  intros s rid l s1 Hr Hp Hf Hdoc.
  destruct (click_starts_probe h s) as (Hent & Hlog & Haw & Hw & Hrun & Hfresh & Heff);
    [apply wf_reachable | apply run_woken | done..|].
  fold s1 rid l in Hent, Hlog, Haw, Hw, Hrun, Hfresh, Heff.
  split; [done|].
  assert (Himg : Frame.hasPageImage doc = true) by by apply bool_decide_eq_true.
  exists (Frame.pong doc rid). split.
  { by apply frame_answers_ping. }
  intros s2.
  set (v := Some (readyObj (MkReady true (Frame.currentUrl doc)))).
  set (sr := clearTimeout (fresh s) (deletePending rid s1)).
  assert (Hon : onMessage h' (Frame.pong doc rid) s1 = settle (fresh s) (Resolved v) sr).
  { unfold onMessage, onIframeReady, onPong, onPageCaptured, Frame.pong. simpl.
    rewrite Himg, Hent. simpl. done. }
  assert (Hs2 : s2 = resume (AfterPing l) (Resolved v) h'
                  (set_woken []
                     (set_awaiting (delete (fresh s) (awaiting sr))
                        (set_settleCalls (settleCalls sr ++ [(fresh s, Resolved v)]) sr)))).
  { unfold s2, step. simpl handle. rewrite Hon.
    apply drain_settle_wakes; subst sr; clearbody s1; by destruct s1. }
  assert (Hprom : promiseState s2 (fresh s) = Some (Resolved v)).
  { unfold s2, step. rewrite drain_promiseState. simpl handle.
    rewrite Hon, promiseState_settle.
    assert (promiseState sr (fresh s) = None) as ->
      by (subst sr; clearbody s1; by destruct s1).
    by rewrite decide_True. }
  split; [done|]. clear Hprom.
  clearbody s2. subst s2. unfold resume.
  set (s3 := updateStatus _ _ _).
  assert (H3 : isRunning s3 = true ∧ fresh s3 = fresh s1
               ∧ pendingCaptures s3 !! rid = None ∧ timers s3 !! fresh s = None
               ∧ effects s3 = effects s1
               ∧ status s3 = ("Starting from page " +:+ pretty (currentPage h) +:+ "...", "info")).
  { subst s3 sr. clearbody s1. destruct s1; simpl in *.
    split; [done|]. split; [done|]. split; [apply lookup_delete_eq|].
    split; [apply lookup_delete_eq|]. by split. }
  destruct H3 as (Hrun3 & Hf3 & Hp3 & Ht3 & He3 & Hst3). clearbody s3.
  unfold loopHead. rewrite Hrun3. simpl.
  destruct (bool_decide (0 < orNumber (parseInt (pageLimitInput h)) 10)) eqn:Hlim.
  - assert (Hne : fresh s3 ≠ fresh s) by lia.
    rewrite <- Hf3. destruct s3; simpl in *. subst.
    rewrite lookup_insert_ne by done. do 4 (split; [done|]).
    split; [done|]. rewrite lookup_insert_eq. by eexists.
  - unfold finish. destruct s3; simpl in *. by subst.
Qed.

(** The reader on page 5, nothing announced: the click at 0 ms, and the
    pong of the page-bearing frame at 200 ms. *)
Lemma probe_round_trip_witness :
  let rid := "ping_" +:+ pretty (now (readerHost 0)) in
  let s1 := step (readerHost 0) ClickAction (run [] initial) in
  let s2 := step (readerHost 200) (Receive (Frame.pong pageFrame rid)) s1 in
  effects s1 = effects (run [] initial) ++ [Broadcast (message "VS_PING" rid)]
  ∧ rid = "ping_0"
  ∧ status s2 = ("Starting from page 5...", "info")
  ∧ isRunning s2 = true ∧ pendingCaptures s2 = ∅.
Proof.
  intros rid s1 s2. split; [|by vm_compute].
  destruct (probe_round_trip [] (readerHost 0) (readerHost 200) pageFrame jpegRaster)
    as [Heff _]; [reflexivity | reflexivity | reflexivity | by eexists |].
  exact Heff.
Defined.

End ProbeRoundTrip.
